(** * bowtie-inspect: reference reconstruction and reporting

    A shallow embedding of [bowtie_inspect.cpp] and the properties of its
    FASTA formatter, its two reconstruction paths, its summary table and
    its option parsing.

    Conventions.
    - Text ([std::string], the contents of an [ostream]) is a [list ascii].
    - Machine integers are [Z] with the wrap-around written out
      ([uint32_t], [size_t]); signed overflow is undefined behaviour in
      C++ and is an explicit outcome.
    - Code that writes to a stream and may throw runs in a small
      state-and-exception monad [M S A := S -> S * outcome A]; the stream
      survives an exception, as it does in the program. *)

From Stdlib Require Import Ascii String DecimalString.
From Stdlib Require Import ZArith List Lia Bool Arith.
Import ListNotations.

Local Open Scope Z_scope.

(* ------------------------------------------------------------------ *)
(** ** Text *)

Definition text := list ascii.

Definition str (s : string) : text := list_ascii_of_string s.

(** The newline character written by [endl] and by ["\n"]. *)
Definition nl : ascii := "010"%char.

(** The tab character ['\t']. *)
Definition tab : ascii := "009"%char.

(** [s.length()] as a [size_t]. *)
Definition len (s : text) : Z := Z.of_nat (length s).

(** [s.substr(pos, n)] for [pos <= s.length()]. *)
Definition substr (s : text) (pos n : Z) : text :=
  firstn (Z.to_nat n) (skipn (Z.to_nat pos) s).

(** [s.substr(pos)] for [pos <= s.length()]. *)
Definition substr_from (s : text) (pos : Z) : text :=
  skipn (Z.to_nat pos) s.

(** [string(n, c)]. *)
Definition fill (n : Z) (c : ascii) : text := repeat c (Z.to_nat n).

(* ------------------------------------------------------------------ *)
(** ** Machine integers *)

Definition INT_MAX : Z := 2147483647.
Definition INT_MIN : Z := -2147483648.

(** Reduction to [uint32_t]. *)
Definition u32 (z : Z) : Z := z mod 2 ^ 32.

(** Reduction to [size_t] (64 bits). *)
Definition usize (z : Z) : Z := z mod 2 ^ 64.

(** The conversion [(int32_t)l] of a [long]. *)
Definition to_int32 (z : Z) : Z := (z + 2 ^ 31) mod 2 ^ 32 - 2 ^ 31.

(** The largest length a [std::string] can have ([max_size()]). *)
Definition string_max_size : Z := 2 ^ 62.

(** The "no reference" / "no mapping" sentinel [0xffffffff]. *)
Definition NONE32 : Z := 4294967295.

(* ------------------------------------------------------------------ *)
(** ** Outcomes and the stream monad *)

Inductive outcome (A : Type) : Type :=
| Normal (a : A)          (* the call returned *)
| Throw (code : Z)        (* [throw <int>] *)
| AssertException         (* an [assert_*] macro failed *)
| Undefined               (* C++ undefined behaviour *)
| Diverge.                (* the loop bound of the model was exhausted *)

Arguments Normal {A} a.
Arguments Throw {A} code.
Arguments AssertException {A}.
Arguments Undefined {A}.
Arguments Diverge {A}.

Definition M (S A : Type) : Type := S -> S * outcome A.

Definition ret {S A} (a : A) : M S A := fun s => (s, Normal a).

Definition bind {S A B} (m : M S A) (k : A -> M S B) : M S B :=
  fun s =>
    match m s with
    | (s', Normal a) => k a s'
    | (s', Throw c) => (s', Throw c)
    | (s', AssertException) => (s', AssertException)
    | (s', Undefined) => (s', Undefined)
    | (s', Diverge) => (s', Diverge)
    end.

Definition raise {S A} (o : outcome A) : M S A := fun s => (s, o).

Notation "x <- m ;; k" := (bind m (fun x => k))
  (at level 61, m at next level, right associativity).
Notation "m ;; k" := (bind m (fun _ => k))
  (at level 61, right associativity).

(** [fout << t] on a stream whose contents are a [text]. *)
Definition put (t : text) : M text unit := fun fout => (fout ++ t, Normal tt).

Ltac run := unfold bind, ret, raise, put; simpl.

(** [for (x : xs) body(x)], stopping at the first exception. *)
Fixpoint for_each {S A} (body : A -> M S unit) (xs : list A) : M S unit :=
  match xs with
  | [] => ret tt
  | x :: xs' => body x ;; for_each body xs'
  end.

(** The indices [0, 1, ..., n-1] of a counting loop. *)
Definition upto (n : Z) : list Z := map Z.of_nat (seq 0 (Z.to_nat n)).

(** The build: with assertions ([NDEBUG] undefined, [true]) or without
    ([NDEBUG] defined, [false]); [main] reports it as "Assertions:
    enabled" or "Assertions: disabled". *)
Definition assertions := bool.

(** Modelled from the spec: the [assert_*] macros of [assert_helpers.h],
    which is not among the sources.  The spec calls a failed integrity
    check "fatal, aborts immediately", the run ending "with a non-zero
    status" with "diagnostic context (the full invocation) ... written
    to the error stream": in a build with assertions a failed check
    raises [AssertException], which [main] handles as it does a
    [std::exception] (the command line on the error stream, status 1),
    and nothing after the check is executed.  In a build without
    assertions the macros expand to nothing. *)
Definition assert_that {S} (dbg : assertions) (cond : bool) : M S unit :=
  if dbg then (if cond then ret tt else raise AssertException) else ret tt.

(* ------------------------------------------------------------------ *)
(** ** [print_fasta_record] *)

(** The loop
    [while (i + across < seq.length()) { fout << seq.substr(i, across) << endl; i += across; }]
    returning the final [i].  [fuel] bounds the iterations of the model:
    the loop makes fewer than [seq.length() + 1] of them unless [i + across]
    wraps around. *)
Fixpoint fasta_full_lines (fuel : nat) (across : Z) (seq : text) (i : Z)
  : M text Z :=
  match fuel with
  | O => raise Diverge
  | S fuel' =>
      if usize (i + across) <? len seq then
        put (substr seq i across) ;; put [nl] ;;
        fasta_full_lines fuel' across seq (usize (i + across))
      else ret i
  end.

Definition print_fasta_record (across : Z) (defline seq : text) : M text unit :=
  put (str ">") ;;
  put defline ;; put [nl] ;;
  if 0 <? across then
    i <- fasta_full_lines (S (length seq)) across seq 0 ;;
    if i <? len seq then put (substr_from seq i) ;; put [nl] else ret tt
  else
    put seq ;; put [nl].

(* ------------------------------------------------------------------ *)
(** ** [print_index_sequences]: the traversal path *)

(** [EList<T>::operator[]] ([ds.h]): the index is asserted to be in
    range; without assertions an index out of range reads outside the
    list. *)
Definition elist_get {S A} (dbg : assertions) (l : list A) (i : Z) : M S A :=
  match nth_error l (Z.to_nat i) with
  | Some a => ret a
  | None => if dbg then raise AssertException else raise Undefined
  end.

(** The values of [tidx], [textoff] and [tlen] after the call
    [ebwt.joinedToTextOff(1, (uint32_t)i, tidx, textoff, tlen)]. *)
Record JoinedPosition : Type := {
  tidx : Z;
  textoff : Z;
  tlen : Z
}.

(** The local variables of [print_index_sequences] that live across
    iterations. *)
Record TraversalState : Type := {
  curr_ref : Z;
  curr_ref_seq : text;
  curr_ref_len : Z;
  last_text_off : Z;
  first : bool
}.

Definition traversal_init : TraversalState :=
  {| curr_ref := NONE32; curr_ref_seq := []; curr_ref_len := NONE32;
     last_text_off := 0; first := true |}.

(** Lines 246-250: the state on entering reference [ti] of length [tl]. *)
Definition reset_state (ti tl : Z) : TraversalState :=
  {| curr_ref := ti; curr_ref_seq := []; curr_ref_len := tl;
     last_text_off := 0; first := true |}.

(** "Add trailing gaps, if any exist". *)
Definition add_trailing_gaps (seq : text) (ref_len : Z) : text :=
  if len seq <? ref_len
  then seq ++ fill (usize (ref_len - len seq)) "N"
  else seq.

(** [uint32_t textoff_adj = textoff; if(first && textoff > 0) textoff_adj++;] *)
Definition textoff_adj (is_first : bool) (toff : Z) : Z :=
  if is_first && (0 <? toff) then u32 (toff + 1) else toff.

(** [if (textoff_adj - last_text_off > 1)
       curr_ref_seq += string(textoff_adj - last_text_off - 1, 'N');]
    returns the appended gap, in [uint32_t] arithmetic. *)
Definition gap_fill (adj last : Z) : text :=
  if 1 <? u32 (adj - last) then fill (u32 (adj - last - 1)) "N" else [].

(** Lines 253-260: gap fill, then the base, then the bookkeeping. *)
Definition append_base (st : TraversalState) (toff : Z) (c : ascii)
  : TraversalState :=
  let adj := textoff_adj (first st) toff in
  {| curr_ref := curr_ref st;
     curr_ref_seq := (curr_ref_seq st ++ gap_fill adj (last_text_off st)) ++ [c];
     curr_ref_len := curr_ref_len st;
     last_text_off := toff;
     first := false |}.

Section Traversal.

(** The stream the records go to, and the call
    [print_fasta_record(fout, defline, seq)] on it. *)
Context {Sink : Type}.
Variable print_record : text -> text -> M Sink unit.

Variable dbg : assertions.
(** [ebwt.refnames()]. *)
Variable refnames : list text.
(** [cat_ref], as restored by [ebwt.restore]. *)
Variable cat_ref : text.
(** [ebwt.joinedToTextOff] at [qlen = 1], by joined position. *)
Variable joinedToTextOff : Z -> JoinedPosition.

(** Pad the current sequence and print its record. *)
Definition flush (st : TraversalState) : M Sink unit :=
  let padded := add_trailing_gaps (curr_ref_seq st) (curr_ref_len st) in
  name <- elist_get dbg refnames (curr_ref st) ;;
  print_record name padded.

(** Lines 236-251: on a change of reference, flush and reset. *)
Definition switch_reference (st : TraversalState) (ti tl : Z)
  : M Sink TraversalState :=
  if negb (curr_ref st =? ti) then
    (if negb (curr_ref st =? NONE32) then flush st else ret tt) ;;
    ret (reset_state ti tl)
  else ret st.

(** One iteration of the loop, at joined position [i]. *)
Definition visit (st : TraversalState) (i : Z) : M Sink TraversalState :=
  let jp := joinedToTextOff (u32 i) in
  let ti := u32 (tidx jp) in
  let toff := u32 (textoff jp) in
  let tl := u32 (tlen jp) in
  if negb (ti =? NONE32) && (toff <? tl) then
    st1 <- switch_reference st ti tl ;;
    ret (append_base st1 toff (nth (Z.to_nat i) cat_ref zero))
  else ret st.

(** [for(size_t i = 0; i < orig_len; i++)], threading the state. *)
Fixpoint visit_all (st : TraversalState) (ps : list Z)
  : M Sink TraversalState :=
  match ps with
  | [] => ret st
  | i :: ps' => st' <- visit st i ;; visit_all st' ps'
  end.

Definition traverse : M Sink unit :=
  st <- visit_all traversal_init (upto (len cat_ref)) ;;
  if curr_ref st <? Z.of_nat (length refnames) then flush st else ret tt.

End Traversal.

(** The program: records are printed by [print_fasta_record] at the
    configured width. *)
Definition print_index_sequences (across : Z) (dbg : assertions)
    (refnames : list text) (cat_ref : text)
    (joinedToTextOff : Z -> JoinedPosition) : M text unit :=
  traverse (print_fasta_record across) dbg refnames cat_ref joinedToTextOff.

(** The same traversal with the calls to [print_fasta_record] recorded
    rather than formatted: the [(defline, seq)] arguments, in order. *)
Definition FastaRecord : Type := (text * text)%type.

Definition log_record (defline seq : text) : M (list FastaRecord) unit :=
  fun log => (log ++ [(defline, seq)], Normal tt).

Definition flushed_records (dbg : assertions)
    (refnames : list text) (cat_ref : text)
    (joinedToTextOff : Z -> JoinedPosition) : list FastaRecord * outcome unit :=
  traverse log_record dbg refnames cat_ref joinedToTextOff [].

(** Printing a list of recorded calls, in order. *)
Definition replay {Sink : Type} (print_record : text -> text -> M Sink unit)
    (log : list FastaRecord) : M Sink unit :=
  for_each (fun r => print_record (fst r) (snd r)) log.

(** The outcome [o] once the printing [r] has returned, or else the
    exception of [r]. *)
Definition resume {S A : Type} (r : S * outcome unit) (o : outcome A)
  : S * outcome A :=
  match r with
  | (s, Normal _) => (s, o)
  | (s, Throw c) => (s, Throw c)
  | (s, AssertException) => (s, AssertException)
  | (s, Undefined) => (s, Undefined)
  | (s, Diverge) => (s, Diverge)
  end.

(** A joined position that passes the test
    [tidx != 0xffffffff && textoff < tlen]. *)
Definition mapped (jp : JoinedPosition) : bool :=
  negb (u32 (tidx jp) =? NONE32) && (u32 (textoff jp) <? u32 (tlen jp)).

(* ------------------------------------------------------------------ *)
(** ** [print_ref_sequence]: the packed-store path *)

(** The string literal ["ACGTN"], with its terminating NUL. *)
Definition ACGTN : text := str "ACGTN" ++ [zero].

(** [fout << "ACGTN"[b]]: an index past the literal is an out-of-bounds
    read. *)
Definition put_base (b : Z) : M text unit :=
  match nth_error ACGTN (Z.to_nat b) with
  | Some c => put [c]
  | None => raise Undefined
  end.

(** Modelled from the spec: [assert_range(lo, hi, x)] of
    [assert_helpers.h], the check that [lo <= x <= hi], failing as
    [assert_that] does. *)
Definition assert_range {S} (dbg : assertions) (lo hi x : Z) : M S unit :=
  assert_that dbg ((lo <=? x) && (x <=? hi)).

Section PackedStore.

Variable dbg : assertions.
(** [ref.getStretch(buf, refi, i, amt)]: the byte [cb[j]] of the
    decoded window, where [cb = ((uint8_t* )buf) + off]. *)
Variable getStretch : Z -> Z -> Z -> Z -> Z.

(** The body of the inner loop, for one [j]. *)
Definition print_base (newlines : bool) (myacross : Z) (cb : Z -> Z) (j : Z)
  : M text unit :=
  (if newlines && (0 <? j) && (j mod myacross =? 0) then put [nl] else ret tt) ;;
  assert_range dbg 0 4 (cb j mod 256) ;;
  put_base (cb j mod 256).

(** [for(size_t i = 0; i < len; i += incr)], from [i].  [fuel] bounds
    the iterations of the model: the loop makes at most [len / incr + 1]
    of them unless [i + incr] wraps around. *)
Fixpoint print_windows (fuel : nat) (newlines : bool) (myacross incr : Z)
    (refi ref_len i : Z) : M text unit :=
  match fuel with
  | O => raise Diverge
  | S fuel' =>
      if i <? ref_len then
        let amt := Z.min incr (ref_len - i) in
        assert_that dbg (amt <=? incr) ;;
        for_each (print_base newlines myacross (getStretch refi i amt)) (upto amt) ;;
        put [nl] ;;
        print_windows fuel' newlines myacross incr refi ref_len (usize (i + incr))
      else ret tt
  end.

Definition print_ref_sequence (across : Z) (name : text) (refi ref_len : Z)
  : M text unit :=
  let newlines := 0 <? across in
  let myacross := if 0 <? across then across else 60 in
  if INT_MAX <? myacross * 1000 then raise Undefined else
  let incr := myacross * 1000 in
  put (str ">") ;; put name ;; put [nl] ;;
  print_windows (S (S (Z.to_nat (ref_len / incr)))) newlines myacross incr
    refi ref_len 0.

(** [plen[i]] through the raw pointer. *)
Definition plen_get {S} (plen : list Z) (i : Z) : M S Z :=
  match nth_error plen (Z.to_nat i) with
  | Some n => ret (u32 n)
  | None => raise Undefined
  end.

(** [print_ref_sequences], given [ref.numRefs()]. *)
Definition print_ref_sequences (across : Z) (numRefs : Z) (color : bool)
    (refnames : list text) (plen : list Z) : M text unit :=
  assert_that dbg (numRefs =? Z.of_nat (length refnames)) ;;
  for_each (fun i =>
              name <- elist_get dbg refnames i ;;
              n <- plen_get plen i ;;
              print_ref_sequence across name i (u32 (n + (if color then 1 else 0))))
           (upto numRefs).

End PackedStore.

(* ------------------------------------------------------------------ *)
(** ** Names and summary *)

(** [ostream << n] for an integer. *)
Definition dec (z : Z) : text := str (NilZero.string_of_int (Z.to_int z)).

(** [print_index_sequence_names], given what [readEbwtRefnames] read. *)
Definition print_index_sequence_names (p_refnames : list text) : M text unit :=
  for_each (fun name => put name ;; put [nl]) p_refnames.

(** What [print_index_summary] reads from the index files. *)
Record IndexHeader : Type := {
  flags : Z;                  (* Ebwt::readFlags(fname) *)
  flagsr : Z;                 (* Ebwt::readFlags(fname + ".rev") *)
  color : bool;               (* readEbwtColor(fname) *)
  entireReverse : bool;       (* readEntireReverse(fname + ".rev") *)
  offRate : Z;                (* ebwt.eh().offRate() *)
  ftabChars : Z;              (* ebwt.eh().ftabChars() *)
  nPat : Z;                   (* ebwt.nPat() *)
  plen : list Z;              (* ebwt.plen() *)
  p_refnames : list text      (* readEbwtRefnames(fname, p_refnames) *)
}.

(** [-x] on an [int32_t]. *)
Definition neg_int32 {S} (x : Z) : M S Z :=
  if x =? INT_MIN then raise Undefined else ret (- x).

(** [1 << n] on an [int]. *)
Definition shl1_int {S} (n : Z) : M S Z :=
  if (0 <=? n) && (n <=? 30) then ret (Z.shiftl 1 n) else raise Undefined.

Definition print_index_summary (dbg : assertions) (h : IndexHeader)
  : M text unit :=
  f <- neg_int32 (flags h) ;;
  put (str "Flags") ;; put [tab] ;; put (dec f) ;; put [nl] ;;
  fr <- neg_int32 (flagsr h) ;;
  put (str "Reverse flags") ;; put [tab] ;; put (dec fr) ;; put [nl] ;;
  put (str "Colorspace") ;; put [tab] ;;
  put (str (if color h then "1" else "0")) ;; put [nl] ;;
  put (str "2.0-compatible") ;; put [tab] ;;
  put (str (if entireReverse h then "1" else "0")) ;; put [nl] ;;
  sa <- shl1_int (offRate h) ;;
  put (str "SA-Sample") ;; put (tab :: str "1 in ") ;; put (dec sa) ;; put [nl] ;;
  put (str "FTab-Chars") ;; put [tab] ;; put (dec (ftabChars h)) ;; put [nl] ;;
  assert_that dbg (nPat h =? Z.of_nat (length (p_refnames h))) ;;
  for_each (fun i =>
              put (str "Sequence-") ;; put (dec (i + 1)) ;;
              put [tab] ;;
              name <- elist_get dbg (p_refnames h) i ;;
              put name ;;
              put [tab] ;;
              n <- plen_get (plen h) i ;;
              put (dec (u32 (n + (if color h then 1 else 0)))) ;;
              put [nl])
           (upto (Z.of_nat (length (p_refnames h)))).

(* ------------------------------------------------------------------ *)
(** ** Options and [main] *)

(** The two standard streams of the process. *)
Record Streams : Type := {
  cout : text;
  cerr : text
}.

Definition on_cout {A} (m : M text A) : M Streams A :=
  fun s => let (o, r) := m (cout s) in ({| cout := o; cerr := cerr s |}, r).

Definition on_cerr {A} (m : M text A) : M Streams A :=
  fun s => let (e, r) := m (cerr s) in ({| cout := cout s; cerr := e |}, r).

(** The text written by [printUsage]. *)
Definition usage : text :=
  str "Usage: bowtie-inspect [options]* <ebwt_base>" ++ [nl] ++
  str "  <ebwt_base>        ebwt filename minus trailing .1.ebwt/.2.ebwt" ++ [nl] ++
  [nl] ++
  str "  By default, prints FASTA records of the indexed nucleotide sequences to" ++ [nl] ++
  str "  standard out.  With -n, just prints names.  With -s, just prints a summary of" ++ [nl] ++
  str "  the index parameters and sequences.  With -e, preserves colors if applicable." ++ [nl] ++
  [nl] ++
  str "Options:" ++ [nl] ++
  str "  -a/--across <int>  Number of characters across in FASTA output (default: 60)" ++ [nl] ++
  str "  -n/--names         Print reference sequence names only" ++ [nl] ++
  str "  -s/--summary       Print summary incl. ref names, lengths, index properties" ++ [nl] ++
  str "  -e/--ebwt-ref      Reconstruct reference from ebwt (slow, preserves colors)" ++ [nl] ++
  str "  -v/--verbose       Verbose output (for debugging)" ++ [nl] ++
  str "  -h/--help          print detailed description of tool and its options" ++ [nl] ++
  str "  --help             print this usage message" ++ [nl].

Definition printUsage : M text unit := put usage.

(** *** [strtol] at base 10, after ISO C (a [long] has 64 bits) *)

Definition LONG_MAX : Z := 9223372036854775807.
Definition LONG_MIN : Z := -9223372036854775808.

Definition code (c : ascii) : Z := Z.of_nat (nat_of_ascii c).

Definition isspace (c : ascii) : bool := (code c =? 32) || ((9 <=? code c) && (code c <=? 13)).

Definition isdigit (c : ascii) : bool := (48 <=? code c) && (code c <=? 57).

Fixpoint count_spaces (s : text) : nat :=
  match s with
  | c :: s' => if isspace c then S (count_spaces s') else O
  | [] => O
  end.

(** The value and the number of the leading decimal digits of [s]. *)
Fixpoint digits (acc : Z) (s : text) : Z * nat :=
  match s with
  | c :: s' =>
      if isdigit c
      then let (v, n) := digits (10 * acc + (code c - 48)) s' in (v, S n)
      else (acc, O)
  | [] => (acc, O)
  end.

Definition clamp_long (z : Z) : Z := Z.max LONG_MIN (Z.min LONG_MAX z).

(** [strtol(nptr, &endPtr, 10)]: the value returned, and [endPtr]
    afterwards as an offset into [nptr] ([None] would be [NULL]).  When no
    digits are found no conversion is performed: the value is 0 and
    [endPtr] is [nptr]. *)
Definition strtol (nptr : text) : Z * option Z :=
  let sp := count_spaces nptr in
  let rest := skipn sp nptr in
  let '(negative, sign_len, body) :=
    match rest with
    | c :: r => if Ascii.eqb c "-" then (true, 1%nat, r)
                else if Ascii.eqb c "+" then (false, 1%nat, r)
                else (false, 0%nat, rest)
    | [] => (false, 0%nat, rest)
    end in
  let (v, n) := digits 0 body in
  match n with
  | O => (0, Some 0)
  | S _ => (clamp_long (if negative then - v else v),
            Some (Z.of_nat (sp + sign_len + n)))
  end.

(** [strtol] performs no conversion on [nptr]. *)
Definition no_conversion (nptr : text) : Prop := snd (strtol nptr) = Some 0.

(** *** [parseInt] *)

(** [parseInt(lower, errmsg)], reading the global [optarg]. *)
Definition parseInt (lower : Z) (errmsg : text) (optarg : text) : M Streams Z :=
  let (l, endPtr) := strtol optarg in
  match endPtr with
  | Some _ =>
      if l <? lower then
        on_cerr (put errmsg ;; put [nl]) ;;
        on_cerr printUsage ;;
        raise (Throw 1)
      else ret (to_int32 l)
  | None =>
      on_cerr (put errmsg ;; put [nl]) ;;
      on_cerr printUsage ;;
      raise (Throw 1)
  end.

(** *** [parseOptions] *)

(** The global option variables. *)
Record Config : Type := {
  showVersion : bool;
  verbose : Z;
  names_only : Z;
  summarize_only : Z;
  across : Z;
  refFromEbwt : bool
}.

Definition default_config : Config :=
  {| showVersion := false; verbose := 0; names_only := 0;
     summarize_only := 0; across := 60; refFromEbwt := false |}.

Definition ARG_VERSION : Z := 256.
Definition ARG_USAGE : Z := 257.

(** One return of [getopt_long]: the value returned, [optarg] at that
    moment, and what the call itself wrote to the standard error
    ([opterr] is left set): the complaint about the option when it
    returns [?], nothing otherwise. *)
Record GetoptReturn : Type := {
  next_option : Z;
  optarg : text;
  diagnostic : text
}.

Definition across_errmsg : text := str "-a/--across arg must be at least 1".

(** The assignments to the option variables. *)
Definition set_verbose (cfg : Config) : Config :=
  {| showVersion := showVersion cfg; verbose := 1;
     names_only := names_only cfg; summarize_only := summarize_only cfg;
     across := across cfg; refFromEbwt := refFromEbwt cfg |}.

Definition set_showVersion (cfg : Config) : Config :=
  {| showVersion := true; verbose := verbose cfg;
     names_only := names_only cfg; summarize_only := summarize_only cfg;
     across := across cfg; refFromEbwt := refFromEbwt cfg |}.

Definition set_refFromEbwt (cfg : Config) : Config :=
  {| showVersion := showVersion cfg; verbose := verbose cfg;
     names_only := names_only cfg; summarize_only := summarize_only cfg;
     across := across cfg; refFromEbwt := true |}.

Definition set_names_only (cfg : Config) : Config :=
  {| showVersion := showVersion cfg; verbose := verbose cfg;
     names_only := 1; summarize_only := summarize_only cfg;
     across := across cfg; refFromEbwt := refFromEbwt cfg |}.

Definition set_summarize_only (cfg : Config) : Config :=
  {| showVersion := showVersion cfg; verbose := verbose cfg;
     names_only := names_only cfg; summarize_only := 1;
     across := across cfg; refFromEbwt := refFromEbwt cfg |}.

Definition set_across (cfg : Config) (a : Z) : Config :=
  {| showVersion := showVersion cfg; verbose := verbose cfg;
     names_only := names_only cfg; summarize_only := summarize_only cfg;
     across := a; refFromEbwt := refFromEbwt cfg |}.

(** The [do ... while(next_option != -1)] loop over the successive
    returns of [getopt_long]; a list that ends stands for the final
    [-1].  No entry of [long_options] has a [flag], so [case 0] falls
    through to [default]. *)
Fixpoint parseOptions (rs : list GetoptReturn) (cfg : Config) : M Streams Config :=
  match rs with
  | [] => ret cfg
  | r :: rs' =>
      let o := next_option r in
      if (o =? ARG_USAGE) || (o =? code "h") then
        on_cout printUsage ;; raise (Throw 0)
      else if o =? code "v" then parseOptions rs' (set_verbose cfg)
      else if o =? ARG_VERSION then parseOptions rs' (set_showVersion cfg)
      else if o =? code "e" then parseOptions rs' (set_refFromEbwt cfg)
      else if o =? code "n" then parseOptions rs' (set_names_only cfg)
      else if o =? code "s" then parseOptions rs' (set_summarize_only cfg)
      else if o =? code "a" then
        a <- parseInt (-1) across_errmsg (optarg r) ;;
        parseOptions rs' (set_across cfg a)
      else if o =? -1 then ret cfg
      else
        (* [getopt_long]'s own complaint is on the stream already *)
        on_cerr (put (diagnostic r)) ;;
        on_cerr printUsage ;; raise (Throw 1)
  end.

(** *** [main] *)

Section Main.

(** [driver(ebwtFile, query)] under the parsed options. *)
Variable driver : Config -> text -> M Streams unit.
(** What the [showVersion] block writes to [cout], given [argv0]. *)
Variable version_banner : text -> text.
(** What the [verbose] block writes to [cout], given [ebwtFile]. *)
Variable verbose_banner : text -> text.

(** ["Command: "], then each argument followed by a space, then [endl]. *)
Definition command_line (argv : list text) : text :=
  str "Command: " ++ concat (map (fun a => a ++ str " ") argv) ++ [nl].

(** The [try] block.  [optind] is the index [getopt_long] leaves. *)
Definition main_body (argv : list text) (rs : list GetoptReturn) (optind : Z)
  : M Streams Z :=
  cfg <- parseOptions rs default_config ;;
  if showVersion cfg then
    on_cout (put (version_banner (nth 0 argv []))) ;; ret 0
  else if Z.of_nat (length argv) <=? optind then
    on_cerr (put (str "No index name given!") ;; put [nl]) ;;
    on_cerr printUsage ;;
    ret 1
  else
    let ebwtFile := nth (Z.to_nat optind) argv [] in
    (if negb (verbose cfg =? 0)
     then on_cout (put (verbose_banner ebwtFile)) else ret tt) ;;
    driver cfg ebwtFile ;;
    ret 0.

(** [main]: the [try] block and its handlers.  An [AssertException] is
    handled as a [std::exception] (see [assert_that]). *)
Definition main (argv : list text) (rs : list GetoptReturn) (optind : Z)
  : M Streams Z :=
  fun s =>
    match main_body argv rs optind s with
    | (s', Normal status) => (s', Normal status)
    | (s', AssertException) =>
        on_cerr (put (command_line argv) ;; ret 1) s'
    | (s', Throw e) =>
        if negb (e =? 0)
        then on_cerr (put (command_line argv) ;; ret e) s'
        else (s', Normal e)
    | (s', Undefined) => (s', Undefined)
    | (s', Diverge) => (s', Diverge)
    end.

End Main.

(* ------------------------------------------------------------------ *)
(** ** [driver] *)

(** What the readers of the index give for the files at a basename,
    when they succeed: the header and names [print_index_summary]
    reads, and what the [Ebwt] and the [BitPairReference] built on the
    files answer. *)
Record Index : Type := {
  idx_header : IndexHeader;
  idx_refnames : list text;                    (* ebwt.refnames() *)
  idx_plen : list Z;                           (* ebwt.plen() *)
  idx_cat_ref : text;                          (* ebwt.restore(cat_ref) *)
  idx_joinedToTextOff : Z -> JoinedPosition;   (* ebwt.joinedToTextOff *)
  (* of the [BitPairReference] built expecting colorspace or not: *)
  idx_numRefs : bool -> Z;                         (* ref.numRefs() *)
  idx_getStretch : bool -> Z -> Z -> Z -> Z -> Z   (* ref.getStretch *)
}.

Section Driver.

Variable dbg : assertions.
(** [adjustEbwtBase(argv0, ebwtFileBase, verbose)]. *)
Variable adjustEbwtBase : text -> text -> Z -> text.
(** The index files by basename. *)
Variable index_at : text -> Index.
(** The global [argv0], set by [main]. *)
Variable argv0 : text.

(** [driver(ebwtFileBase, query)] under the option variables [cfg].
    The default mode reads the color flag at the unadjusted basename. *)
Definition driver (cfg : Config) (ebwtFileBase : text) : M Streams unit :=
  let adjustedEbwtFileBase := adjustEbwtBase argv0 ebwtFileBase (verbose cfg) in
  let idx := index_at adjustedEbwtFileBase in
  if negb (names_only cfg =? 0) then
    on_cout (print_index_sequence_names (p_refnames (idx_header idx)))
  else if negb (summarize_only cfg =? 0) then
    on_cout (print_index_summary dbg (idx_header idx))
  else if refFromEbwt cfg then
    on_cout (print_index_sequences (across cfg) dbg (idx_refnames idx)
               (idx_cat_ref idx) (idx_joinedToTextOff idx))
  else
    let color := color (idx_header (index_at ebwtFileBase)) in
    on_cout (print_ref_sequences dbg (idx_getStretch idx color) (across cfg)
               (idx_numRefs idx color) color
               (p_refnames (idx_header idx)) (idx_plen idx)).

End Driver.

(* ------------------------------------------------------------------ *)
(** ** Reference descriptions used by the statements *)

(** Each line followed by a newline. *)
Definition unlines (ls : list text) : text :=
  concat (map (fun l => l ++ [nl]) ls).

(** The number of lines of a wrapped sequence: [ceil(n / w)]. *)
Definition line_count (w n : Z) : Z := (n + w - 1) / w.

(** Line [k] of a sequence wrapped at [w]: the characters
    [k*w .. min((k+1)*w, n) - 1]. *)
Definition wrapped_line (w : Z) (seq : text) (k : Z) : text :=
  substr seq (k * w) w.

Definition wrapped_lines (w : Z) (seq : text) : list text :=
  map (wrapped_line w seq) (upto (line_count w (len seq))).

(** The characters of one decoded window of [amt] bases: byte [b] of
    the window stands for the character ["ACGTN"[b]]. *)
Definition decoded_window (cb : Z -> Z) (amt : Z) : text :=
  map (fun j => nth (Z.to_nat (cb j mod 256)) ACGTN zero) (upto amt).

(** The claim that a reference none of whose positions is mapped is
    still given a record: its name with [n] ambiguity symbols, [n] being
    its declared length in [plen]. *)
Definition unobserved_references_emitted (dbg : assertions)
    (refnames : list text) (plen : list Z) (cat_ref : text)
    (joinedToTextOff : Z -> JoinedPosition) : Prop :=
  forall (r : nat) (name : text) (n : Z),
    nth_error refnames r = Some name ->
    nth_error plen r = Some n ->
    (forall i, 0 <= i < len cat_ref ->
               mapped (joinedToTextOff (u32 i)) = true ->
               u32 (tidx (joinedToTextOff (u32 i))) <> Z.of_nat r) ->
    In (name, fill n "N") (fst (flushed_records dbg refnames cat_ref joinedToTextOff)).

(** The mapping reports, at every mapped position, the declared length
    of the reference it maps to; a mapped offset is below it by the test
    of the loop. *)
Definition reports_declared_length (declared : Z -> Z) (cat_ref : text)
    (joinedToTextOff : Z -> JoinedPosition) : Prop :=
  forall i, 0 <= i < len cat_ref ->
            mapped (joinedToTextOff (u32 i)) = true ->
            u32 (tlen (joinedToTextOff (u32 i))) =
            declared (u32 (tidx (joinedToTextOff (u32 i)))).

(** The claim that every flushed record has the declared length of its
    reference, under that assumption alone. *)
Definition flushed_at_declared_length (dbg : assertions)
    (refnames : list text) (declared : Z -> Z) (cat_ref : text)
    (joinedToTextOff : Z -> JoinedPosition) : Prop :=
  reports_declared_length declared cat_ref joinedToTextOff ->
  forall name seq,
    In (name, seq) (fst (flushed_records dbg refnames cat_ref joinedToTextOff)) ->
    exists r, nth_error refnames r = Some name /\ len seq = declared (Z.of_nat r).

(** The offsets mapped for one reference strictly increase along the
    traversal. *)
Definition offsets_increase (cat_ref : text)
    (joinedToTextOff : Z -> JoinedPosition) : Prop :=
  forall i j, 0 <= i -> i < j -> j < len cat_ref ->
    mapped (joinedToTextOff (u32 i)) = true ->
    mapped (joinedToTextOff (u32 j)) = true ->
    u32 (tidx (joinedToTextOff (u32 i))) = u32 (tidx (joinedToTextOff (u32 j))) ->
    u32 (textoff (joinedToTextOff (u32 i))) < u32 (textoff (joinedToTextOff (u32 j))).

(** The window size of [print_ref_sequence] at width [across]. *)
Definition window_size (across : Z) : Z :=
  (if 0 <? across then across else 60) * 1000.





(** The fields of a row, separated by tabs. *)
Definition join_tab (fields : list text) : text :=
  match fields with
  | [] => []
  | f :: fs => f ++ concat (map (fun g => tab :: g) fs)
  end.

(** The row of the summary for the reference of ordinal [i]: its label
    [Sequence-(i+1)], its name, and its length, one more for a
    colorspace index. *)
Definition sequence_row (h : IndexHeader) (i : Z) : list text :=
  [ str "Sequence-" ++ dec (i + 1);
    nth (Z.to_nat i) (p_refnames h) [];
    dec (nth (Z.to_nat i) (plen h) 0 + (if color h then 1 else 0)) ].

(** The summary as a table: the six fixed rows, then one row per
    reference in ordinal order. *)
Definition summary_rows (h : IndexHeader) : list (list text) :=
  [ [str "Flags"; dec (- flags h)];
    [str "Reverse flags"; dec (- flagsr h)];
    [str "Colorspace"; str (if color h then "1" else "0")];
    [str "2.0-compatible"; str (if entireReverse h then "1" else "0")];
    [str "SA-Sample"; str "1 in " ++ dec (2 ^ offRate h)];
    [str "FTab-Chars"; dec (ftabChars h)] ]
  ++ map (sequence_row h) (upto (Z.of_nat (length (p_refnames h)))).

(** An index header whose integers are in the ranges the program's
    arithmetic is defined on, and whose name and length lists both have
    [nPat] entries. *)
Definition header_ok (h : IndexHeader) : Prop :=
  flags h <> INT_MIN /\ flagsr h <> INT_MIN /\
  0 <= offRate h <= 30 /\
  nPat h = Z.of_nat (length (p_refnames h)) /\
  length (plen h) = length (p_refnames h) /\
  Forall (fun n => 0 <= n /\ n + 1 < 2 ^ 32) (plen h).

(** A text without its newline characters. *)
Definition remove_newlines (t : text) : text :=
  filter (fun c => negb (Ascii.eqb c nl)) t.

(** The characters of [t], numbered from [p], with a newline before
    every character whose number is a positive multiple of [w]. *)
Fixpoint wrap_from (w p : Z) (t : text) : text :=
  match t with
  | [] => []
  | c :: t' =>
      (if (0 <? p) && (p mod w =? 0) then [nl] else []) ++
      c :: wrap_from w (p + 1) t'
  end.

(** The bases [a .. a+m-1] of a reference whose stored byte at offset
    [p] is [content p], as characters. *)
Definition decoded_range (content : Z -> Z) (a m : nat) : text :=
  map (fun p => nth (Z.to_nat (content p)) ACGTN zero)
      (map Z.of_nat (List.seq a m)).

(** The whole reference of [ref_len] bases. *)
Definition decoded_reference (content : Z -> Z) (ref_len : Z) : text :=
  decoded_range content 0 (Z.to_nat ref_len).

(** [getStretch] decodes, for reference [refi], the store whose byte at
    offset [p] is [content p], each a base code in [0..4]. *)
Definition decodes (getStretch : Z -> Z -> Z -> Z -> Z) (refi : Z)
    (content : Z -> Z) : Prop :=
  (forall i amt j, 0 <= j < amt -> getStretch refi i amt j mod 256 = content (i + j))
  /\ (forall p, 0 <= content p <= 4).

(** The record the formatter is given for reference [i] of a packed
    store: its name, and its [plen[i]] bases, one more for a colorspace
    store, decoded. *)
Definition decoded_record (refnames : list text) (plen : list Z) (color : bool)
    (contents : Z -> Z -> Z) (i : Z) : FastaRecord :=
  (nth (Z.to_nat i) refnames [],
   decoded_reference (contents i)
     (nth (Z.to_nat i) plen 0 + (if color then 1 else 0))).

(** Every mapped position is mapped to a reference that has a name. *)
Definition references_named (refnames : list text) (cat_ref : text)
    (joinedToTextOff : Z -> JoinedPosition) : Prop :=
  forall i, 0 <= i < len cat_ref ->
            mapped (joinedToTextOff (u32 i)) = true ->
            u32 (tidx (joinedToTextOff (u32 i))) < Z.of_nat (length refnames).

(** The character of [t] at index [p]. *)
Definition char_at (t : text) (p : Z) : ascii := nth (Z.to_nat p) t zero.

(** Whether [getopt_long] returned [o] among [rs]. *)
Definition has_option (o : Z) (rs : list GetoptReturn) : bool :=
  existsb (fun r => next_option r =? o) rs.

(** The options that only set a variable. *)
Definition is_flag (o : Z) : bool :=
  (o =? code "v") || (o =? ARG_VERSION) || (o =? code "e")
  || (o =? code "n") || (o =? code "s").

(** An option [parseOptions] accepts and goes on from: a flag, or a
    width whose value is at least -1. *)
Definition accepted (r : GetoptReturn) : bool :=
  is_flag (next_option r)
  || ((next_option r =? code "a") && (-1 <=? fst (strtol (optarg r)))).

(** The width after the options [rs]: that of the last [-a]. *)
Definition last_width (rs : list GetoptReturn) (a0 : Z) : Z :=
  fold_left (fun a r => if next_option r =? code "a"
                        then to_int32 (fst (strtol (optarg r))) else a) rs a0.

(** The option variables after the accepted options [rs]. *)
Definition parsed_config (rs : list GetoptReturn) (cfg : Config) : Config :=
  {| showVersion := showVersion cfg || has_option ARG_VERSION rs;
     verbose := if has_option (code "v") rs then 1 else verbose cfg;
     names_only := if has_option (code "n") rs then 1 else names_only cfg;
     summarize_only := if has_option (code "s") rs then 1 else summarize_only cfg;
     across := last_width rs (across cfg);
     refFromEbwt := refFromEbwt cfg || has_option (code "e") rs |}.

(** An option value [parseOptions] has no case for. *)
Definition unknown_option (o : Z) : bool :=
  negb ((o =? ARG_USAGE) || (o =? code "h") || is_flag o
        || (o =? code "a") || (o =? -1)).

(** The text of a FASTA record at a positive width: the name after
    [>], then the lines of the wrapped sequence. *)
Definition fasta_text (w : Z) (r : FastaRecord) : text :=
  str ">" ++ fst r ++ [nl] ++ unlines (wrapped_lines w (snd r)).

(** The text of a list of FASTA records. *)
Definition fasta_file (w : Z) (rs : list FastaRecord) : text :=
  concat (map (fasta_text w) rs).



(* ================================================================== *)
(** * Properties *)

(** ** The monad *)

Lemma bind_put {A} (t : text) (k : unit -> M text A) (s : text) :
  bind (put t) k s = k tt (s ++ t).
Proof. reflexivity. Qed.

Lemma bind_ret {S A B} (a : A) (k : A -> M S B) (s : S) :
  bind (ret a) k s = k a s.
Proof. reflexivity. Qed.

Lemma usize_small z : 0 <= z < 2 ^ 64 -> usize z = z.
Proof. intros H. unfold usize. now apply Z.mod_small. Qed.

Lemma u32_small z : 0 <= z < 2 ^ 32 -> u32 z = z.
Proof. intros H. unfold u32. now apply Z.mod_small. Qed.

Lemma len_nonneg s : 0 <= len s.
Proof. unfold len. lia. Qed.

Lemma len_app s t : len (s ++ t) = len s + len t.
Proof. unfold len. rewrite length_app. lia. Qed.

Lemma len_fill n c : 0 <= n -> len (fill n c) = n.
Proof. intros H. unfold len, fill. rewrite repeat_length. lia. Qed.

(** ** Wrapping *)

Lemma firstn_plus {A} (a b : nat) (l : list A) :
  firstn (a + b) l = firstn a l ++ firstn b (skipn a l).
Proof.
  revert l. induction a as [|a IH]; intros l; simpl.
  - reflexivity.
  - destruct l as [|x l]; simpl.
    + now rewrite firstn_nil.
    + now rewrite IH.
Qed.

Lemma upto_succ n : 0 <= n -> upto (n + 1) = upto n ++ [n].
Proof.
  intros H. unfold upto.
  replace (Z.to_nat (n + 1)) with (S (Z.to_nat n)) by lia.
  rewrite seq_S, map_app. simpl. now rewrite Z2Nat.id.
Qed.

Lemma upto_length n : length (upto n) = Z.to_nat n.
Proof. unfold upto. now rewrite length_map, length_seq. Qed.

Lemma in_upto n k : In k (upto n) <-> 0 <= k < n.
Proof.
  unfold upto. rewrite in_map_iff. split.
  - intros (m & <- & Hm). apply in_seq in Hm. lia.
  - intros H. exists (Z.to_nat k). split; [lia|]. apply in_seq. lia.
Qed.

Lemma nth_upto n k : 0 <= k < n -> nth (Z.to_nat k) (upto n) 0 = k.
Proof.
  intros H. unfold upto.
  change 0 with (Z.of_nat 0). rewrite map_nth, seq_nth by lia. lia.
Qed.

Lemma line_count_bounds w n :
  0 < w -> 0 <= n ->
  (line_count w n - 1) * w < n /\
  n <= line_count w n * w /\ 0 <= line_count w n.
Proof.
  intros Hw Hn. unfold line_count.
  pose proof (Z.div_mod (n + w - 1) w ltac:(lia)) as E.
  pose proof (Z.mod_pos_bound (n + w - 1) w Hw) as B.
  assert (0 <= (n + w - 1) / w) by (apply Z.div_pos; lia).
  nia.
Qed.

Lemma concat_wrapped_prefix w seq m :
  0 < w -> 0 <= m ->
  concat (map (wrapped_line w seq) (upto m)) = firstn (Z.to_nat (m * w)) seq.
Proof.
  intros Hw Hm. pattern m. apply natlike_ind; [| |exact Hm].
  - reflexivity.
  - intros x Hx IH. unfold Z.succ. rewrite upto_succ by lia.
    rewrite map_app, concat_app, IH. simpl. rewrite app_nil_r.
    unfold wrapped_line, substr.
    replace (Z.to_nat ((x + 1) * w)) with (Z.to_nat (x * w) + Z.to_nat w)%nat by nia.
    now rewrite firstn_plus.
Qed.

Lemma wrapped_line_length w seq k :
  0 < w -> 0 <= k ->
  len (wrapped_line w seq k) = Z.max 0 (Z.min w (len seq - k * w)).
Proof.
  intros Hw Hk. unfold wrapped_line, substr, len.
  rewrite length_firstn, length_skipn. nia.
Qed.

(** The [while] loop prints the lines [k .. k+j-1] when [j] more full
    lines precede the last one. *)
Lemma fasta_full_lines_run w seq :
  0 < w -> len seq + w < 2 ^ 64 ->
  forall (j : nat) (k : Z) (fuel : nat) (fout : text),
    0 <= k -> k + Z.of_nat j = line_count w (len seq) - 1 -> (j < fuel)%nat ->
    fasta_full_lines fuel w seq (k * w) fout =
    (fout ++ unlines (map (wrapped_line w seq)
                          (map (fun d => k + Z.of_nat d) (List.seq 0 j))),
     Normal ((line_count w (len seq) - 1) * w)).
Proof.
  intros Hw Hlen.
  pose proof (len_nonneg seq) as Hn.
  pose proof (line_count_bounds w (len seq) Hw Hn) as (B1 & B2 & B3).
  induction j as [|j IH]; intros k fuel fout Hk Hkj Hf.
  - destruct fuel as [|fuel]; [lia|]. simpl.
    replace (k * w + w) with (line_count w (len seq) * w) by nia.
    rewrite usize_small by nia.
    destruct (Z.ltb_spec (line_count w (len seq) * w) (len seq)); [lia|].
    unfold ret, unlines. simpl. rewrite app_nil_r. do 2 f_equal. nia.
  - destruct fuel as [|fuel]; [lia|]. simpl.
    assert ((k + 1) * w < len seq) by nia.
    replace (k * w + w) with ((k + 1) * w) by lia.
    rewrite usize_small by nia.
    destruct (Z.ltb_spec ((k + 1) * w) (len seq)); [|lia].
    run. rewrite (IH (k + 1)) by lia.
    f_equal. rewrite <- seq_shift, map_map. unfold unlines. simpl.
    rewrite Z.add_0_r. unfold wrapped_line at 2.
    rewrite <- !app_assoc. simpl.
    f_equal. f_equal. f_equal. f_equal.
    rewrite !map_map. apply map_ext. intros d. do 2 f_equal. lia.
Qed.

Lemma last_line_is_rest w seq :
  0 < w -> seq <> [] ->
  substr_from seq ((line_count w (len seq) - 1) * w) =
  wrapped_line w seq (line_count w (len seq) - 1).
Proof.
  intros Hw Hne.
  pose proof (line_count_bounds w (len seq) Hw (len_nonneg seq)) as (B1 & B2 & B3).
  unfold wrapped_line, substr, substr_from.
  rewrite firstn_all2; [reflexivity|].
  rewrite length_skipn. unfold len in *. nia.
Qed.

(** C6 (general part).  For a nonempty sequence and a width [w > 0],
    [print_fasta_record] writes the header line and then
    [ceil(len / w)] newline-terminated lines that together spell the
    sequence: every line but the last has exactly [w] characters and the
    last has the remaining [len - w * (n - 1)], between 1 and [w]; nothing
    follows the last line's newline. *)
Theorem print_fasta_record_wraps (w : Z) (defline seq fout : text) :
  0 < w -> w <= INT_MAX -> seq <> [] -> len seq <= string_max_size ->
  let n := line_count w (len seq) in
  let lines := wrapped_lines w seq in
  print_fasta_record w defline seq fout =
    (fout ++ str ">" ++ defline ++ [nl] ++ unlines lines, Normal tt)
  /\ concat lines = seq
  /\ Z.of_nat (length lines) = n
  /\ n * w < len seq + w
  /\ len seq <= n * w
  /\ (forall k, 0 <= k < n - 1 -> len (nth (Z.to_nat k) lines []) = w)
  /\ len (nth (Z.to_nat (n - 1)) lines []) = len seq - w * (n - 1)
  /\ 0 < len seq - w * (n - 1) <= w.
Proof.
  intros Hw Hmax Hne Hsz n lines.
  pose proof (line_count_bounds w (len seq) Hw (len_nonneg seq)) as (B1 & B2 & B3).
  fold n in B1, B2, B3.
  assert (Hpos : 0 < len seq).
  { unfold len. destruct seq; [congruence|simpl; lia]. }
  assert (Hn1 : 1 <= n) by nia.
  assert (Hwrap : len seq + w < 2 ^ 64).
  { unfold string_max_size, INT_MAX in *. lia. }
  assert (Hlines : lines = map (wrapped_line w seq) (upto (n - 1)) ++
                           [wrapped_line w seq (n - 1)]).
  { unfold lines, wrapped_lines. fold n.
    replace n with (n - 1 + 1) at 1 by lia.
    rewrite upto_succ by lia. now rewrite map_app. }
  assert (Hnth : forall k, 0 <= k < n ->
                   nth (Z.to_nat k) lines [] = wrapped_line w seq k).
  { intros k Hk. unfold lines, wrapped_lines. fold n.
    rewrite (nth_indep _ _ (wrapped_line w seq 0)) by
      (rewrite length_map, upto_length; lia).
    rewrite map_nth. now rewrite nth_upto. }
  split; [|split; [|split; [|split; [|split; [|split; [|split]]]]]].
  - unfold print_fasta_record, bind, put, ret.
    destruct (Z.ltb_spec 0 w) as [_|]; [|lia].
    change 0 with (0 * w) at 1.
    rewrite (fasta_full_lines_run w seq Hw Hwrap (Z.to_nat (n - 1)) 0).
    + fold n. destruct (Z.ltb_spec ((n - 1) * w) (len seq)) as [_|]; [|lia].
      f_equal. unfold n at 2. rewrite last_line_is_rest by assumption. fold n.
      rewrite Hlines. unfold unlines. rewrite map_app, concat_app. simpl.
      unfold upto.
      rewrite <- !app_assoc. simpl. reflexivity.
    + lia.
    + fold n. lia.
    + unfold len in *. nia.
  - unfold lines, wrapped_lines. fold n.
    rewrite concat_wrapped_prefix by lia.
    apply firstn_all2. unfold len in *. nia.
  - unfold lines, wrapped_lines. rewrite length_map, upto_length. fold n. lia.
  - nia.
  - nia.
  - intros k Hk. rewrite Hnth by lia.
    rewrite wrapped_line_length by lia. nia.
  - rewrite Hnth by lia. rewrite wrapped_line_length by lia. nia.
  - nia.
Qed.

(** C6 at the width of the example: ["ACGTACGTAC"] at width 4 is
    printed as the lines ["ACGT"], ["ACGT"], ["AC"]. *)
Lemma print_fasta_record_wraps_witness :
  print_fasta_record 4 (str "chr1") (str "ACGTACGTAC") [] =
    (str ">chr1" ++ [nl] ++
     str "ACGT" ++ [nl] ++ str "ACGT" ++ [nl] ++ str "AC" ++ [nl], Normal tt)
  /\ wrapped_lines 4 (str "ACGTACGTAC") = [str "ACGT"; str "ACGT"; str "AC"].
Proof.
  split; [|reflexivity].
  assert (H1 : 0 < 4) by reflexivity.
  assert (H2 : 4 <= INT_MAX) by (unfold INT_MAX; lia).
  assert (H3 : str "ACGTACGTAC" <> []) by discriminate.
  assert (H4 : len (str "ACGTACGTAC") <= string_max_size) by (vm_compute; discriminate).
  exact (proj1 (print_fasta_record_wraps 4 (str "chr1") (str "ACGTACGTAC") []
                  H1 H2 H3 H4)).
Defined.

(** ** Unwrapped output *)

(** With a width of 0 or less the formatter writes the whole sequence
    on one line. *)
Lemma print_fasta_record_unwrapped (w : Z) (defline seq fout : text) :
  w <= 0 ->
  print_fasta_record w defline seq fout =
    (fout ++ str ">" ++ defline ++ [nl] ++ seq ++ [nl], Normal tt).
Proof.
  intros Hw. unfold print_fasta_record, bind, put, ret.
  destruct (Z.ltb_spec 0 w); [lia|].
  now rewrite <- !app_assoc.
Qed.

Lemma print_windows_eq dbg gs fuel newlines myacross incr refi ref_len i :
  print_windows dbg gs (S fuel) newlines myacross incr refi ref_len i =
  if i <? ref_len then
    let amt := Z.min incr (ref_len - i) in
    assert_that dbg (amt <=? incr) ;;
    for_each (print_base dbg newlines myacross (gs refi i amt)) (upto amt) ;;
    put [nl] ;;
    print_windows dbg gs fuel newlines myacross incr refi ref_len (usize (i + incr))
  else ret tt.
Proof. reflexivity. Qed.

(** Without line wrapping, a window of in-range bytes is written as its
    characters and nothing else. *)
Lemma print_bases_unwrapped dbg myacross cb (js : list Z) (fout : text) :
  (forall j, In j js -> 0 <= cb j mod 256 <= 4) ->
  for_each (print_base dbg false myacross cb) js fout =
  (fout ++ map (fun j => nth (Z.to_nat (cb j mod 256)) ACGTN zero) js, Normal tt).
Proof.
  revert fout. induction js as [|j js IH]; intros fout Hin.
  - unfold for_each, ret. now rewrite app_nil_r.
  - cbn [for_each]. unfold bind at 1.
    assert (Hj : 0 <= cb j mod 256 <= 4) by (apply Hin; now left).
    assert (E : print_base dbg false myacross cb j fout =
                (fout ++ [nth (Z.to_nat (cb j mod 256)) ACGTN zero], Normal tt)).
    { unfold print_base, assert_range, assert_that, put_base, bind, ret, put.
      cbn [andb].
      destruct (Z.leb_spec 0 (cb j mod 256)); [|lia].
      destruct (Z.leb_spec (cb j mod 256) 4); [|lia].
      assert (C : cb j mod 256 = 0 \/ cb j mod 256 = 1 \/ cb j mod 256 = 2 \/
                  cb j mod 256 = 3 \/ cb j mod 256 = 4) by lia.
      destruct C as [C|[C|[C|[C|C]]]]; rewrite C; destruct dbg; reflexivity. }
    rewrite E, IH by (intros; apply Hin; now right).
    now rewrite <- app_assoc.
Qed.

(** C5, on the packed-store path.  With a width of 0 or less and a
    reference of more than 60000 and at most 120000 bases,
    [print_ref_sequence] writes the first 60000 bases, a newline, and
    then the remaining bases: the body is broken after the first window
    although wrapping is off. *)
Theorem print_ref_sequence_unwrapped_breaks
    (dbg : assertions) (getStretch : Z -> Z -> Z -> Z -> Z)
    (w : Z) (name : text) (refi ref_len : Z) (fout : text) :
  w <= 0 -> 60000 < ref_len <= 120000 ->
  (forall i amt j, 0 <= getStretch refi i amt j mod 256 <= 4) ->
  print_ref_sequence dbg getStretch w name refi ref_len fout =
    (fout ++ str ">" ++ name ++ [nl] ++
     decoded_window (getStretch refi 0 60000) 60000 ++ [nl] ++
     decoded_window (getStretch refi 60000 (ref_len - 60000)) (ref_len - 60000) ++ [nl],
     Normal tt)
  /\ len (decoded_window (getStretch refi 0 60000) 60000) = 60000
  /\ 0 < len (decoded_window (getStretch refi 60000 (ref_len - 60000))
                (ref_len - 60000)).
Proof.
  intros Hw Hlen Hrange.
  split; [|split].
  - unfold print_ref_sequence.
    destruct (Z.ltb_spec 0 w) as [|_]; [lia|].
    change (INT_MAX <? 60 * 1000) with false. cbv iota.
    change (60 * 1000) with 60000.
    assert (F : exists fuel, Z.to_nat (ref_len / 60000) = S fuel).
    { exists (Nat.pred (Z.to_nat (ref_len / 60000))).
      assert (1 <= ref_len / 60000) by (apply Z.div_le_lower_bound; lia). lia. }
    destruct F as [fuel ->].
    unfold bind at 1 2 3. unfold put at 1 2 3.
    rewrite print_windows_eq.
    destruct (Z.ltb_spec 0 ref_len) as [_|]; [|lia].
    cbv zeta. rewrite Z.sub_0_r, Z.min_l by lia.
    unfold bind at 1. unfold assert_that at 1.
    assert (A : forall (d : bool) (s : text),
               (if d then (if 60000 <=? 60000 then ret tt else raise AssertException)
                else ret tt) s = (s, Normal tt)).
    { intros d s. now destruct d. }
    rewrite A. unfold bind at 1.
    rewrite print_bases_unwrapped by (intros; apply Hrange).
    unfold bind at 1. unfold put at 1.
    rewrite Z.add_0_l, usize_small by lia.
    rewrite print_windows_eq.
    destruct (Z.ltb_spec 60000 ref_len) as [_|]; [|lia].
    cbv zeta. rewrite Z.min_r by lia.
    unfold bind at 1. unfold assert_that at 1.
    assert (A' : forall (d : bool) (s : text),
               (if d then (if ref_len - 60000 <=? 60000 then ret tt
                           else raise AssertException)
                else ret tt) s = (s, Normal tt)).
    { intros d s. destruct d; [|reflexivity].
      destruct (Z.leb_spec (ref_len - 60000) 60000); [reflexivity|lia]. }
    rewrite A'. unfold bind at 1.
    rewrite print_bases_unwrapped by (intros; apply Hrange).
    unfold bind at 1. unfold put at 1.
    replace (60000 + 60000) with 120000 by reflexivity.
    rewrite usize_small by lia.
    rewrite print_windows_eq.
    destruct (Z.ltb_spec 120000 ref_len) as [|_]; [lia|].
    unfold ret, decoded_window. f_equal.
    rewrite <- !app_assoc. reflexivity.
  - unfold decoded_window, len. rewrite length_map, upto_length. lia.
  - unfold decoded_window, len. rewrite length_map, upto_length. lia.
Qed.

Lemma print_ref_sequence_unwrapped_breaks_witness :
  print_ref_sequence true (fun _ _ _ _ => 0) 0 (str "chr1") 0 60001 [] =
    ([] ++ str ">" ++ str "chr1" ++ [nl] ++
     decoded_window (fun _ => 0) 60000 ++ [nl] ++
     decoded_window (fun _ => 0) (60001 - 60000) ++ [nl],
     Normal tt)
  /\ len (decoded_window (fun _ => 0) 60000) = 60000
  /\ 0 < len (decoded_window (fun _ => 0) (60001 - 60000)).
Proof.
  apply (print_ref_sequence_unwrapped_breaks true (fun _ _ _ _ => 0) 0
           (str "chr1") 0 60001 []).
  - lia.
  - lia.
  - intros i amt j. change (0 mod 256) with 0. lia.
Defined.

(** Within one window the packed-store path is unwrapped as well: a
    reference of at most 60000 bases is written on one line. *)
Lemma print_ref_sequence_unwrapped_one_window
    (dbg : assertions) (getStretch : Z -> Z -> Z -> Z -> Z)
    (w : Z) (name : text) (refi ref_len : Z) (fout : text) :
  w <= 0 -> 0 < ref_len <= 60000 ->
  (forall i amt j, 0 <= getStretch refi i amt j mod 256 <= 4) ->
  print_ref_sequence dbg getStretch w name refi ref_len fout =
    (fout ++ str ">" ++ name ++ [nl] ++
     decoded_window (getStretch refi 0 ref_len) ref_len ++ [nl], Normal tt).
Proof.
  intros Hw Hlen Hrange.
  unfold print_ref_sequence.
  destruct (Z.ltb_spec 0 w) as [|_]; [lia|].
  change (INT_MAX <? 60 * 1000) with false. cbv iota.
  change (60 * 1000) with 60000.
  unfold bind at 1 2 3. unfold put at 1 2 3.
  rewrite print_windows_eq.
  destruct (Z.ltb_spec 0 ref_len) as [_|]; [|lia].
  cbv zeta. rewrite Z.sub_0_r, Z.min_r by lia.
  unfold bind at 1. unfold assert_that at 1.
  assert (A : forall (d : bool) (s : text),
             (if d then (if ref_len <=? 60000 then ret tt else raise AssertException)
              else ret tt) s = (s, Normal tt)).
  { intros d s. destruct d; [|reflexivity].
    destruct (Z.leb_spec ref_len 60000); [reflexivity|lia]. }
  rewrite A. unfold bind at 1.
  rewrite print_bases_unwrapped by (intros; apply Hrange).
  unfold bind at 1. unfold put at 1.
  rewrite Z.add_0_l, usize_small by lia.
  assert (F : exists fuel, S (Z.to_nat (ref_len / 60000)) = S fuel) by now eexists.
  destruct F as [fuel ->].
  rewrite print_windows_eq.
  destruct (Z.ltb_spec 60000 ref_len) as [|_]; [lia|].
  unfold ret, decoded_window. f_equal.
  rewrite <- !app_assoc. reflexivity.
Qed.

(** ** The traversal: one step *)

Section TraversalSteps.

Context {Sink : Type}.
Variable print_record : text -> text -> M Sink unit.
Variable dbg : assertions.
Variable refnames : list text.
Variable cat_ref : text.
Variable joinedToTextOff : Z -> JoinedPosition.

Lemma mapped_bounds jp :
  mapped jp = true ->
  u32 (tidx jp) <> NONE32 /\ 0 <= u32 (textoff jp) < u32 (tlen jp) /\
  u32 (tlen jp) < 2 ^ 32.
Proof.
  unfold mapped, u32. intros H. apply andb_prop in H as [H1 H2].
  apply negb_true_iff, Z.eqb_neq in H1. apply Z.ltb_lt in H2.
  pose proof (Z.mod_pos_bound (textoff jp) (2 ^ 32) ltac:(lia)).
  pose proof (Z.mod_pos_bound (tlen jp) (2 ^ 32) ltac:(lia)).
  lia.
Qed.

(** On a change of reference the state is reset, whatever was
    flushed. *)
Lemma switch_reference_new st ti tl s s' st1 :
  curr_ref st <> ti ->
  switch_reference print_record dbg refnames st ti tl s = (s', Normal st1) ->
  st1 = reset_state ti tl.
Proof.
  intros Hne. unfold switch_reference.
  destruct (Z.eqb_spec (curr_ref st) ti) as [|_]; [contradiction|].
  cbn [negb]. unfold bind.
  destruct ((if negb (curr_ref st =? NONE32)
             then flush print_record dbg refnames st else ret tt) s)
    as [s1 [[]| | | |]]; unfold ret; intros E; inversion E; reflexivity.
Qed.

Lemma visit_mapped st i s :
  mapped (joinedToTextOff (u32 i)) = true ->
  visit print_record dbg refnames cat_ref joinedToTextOff st i s =
  (st1 <- switch_reference print_record dbg refnames st
            (u32 (tidx (joinedToTextOff (u32 i))))
            (u32 (tlen (joinedToTextOff (u32 i)))) ;;
   ret (append_base st1 (u32 (textoff (joinedToTextOff (u32 i))))
          (nth (Z.to_nat i) cat_ref zero))) s.
Proof.
  unfold visit, mapped. cbv zeta. now intros ->.
Qed.

End TraversalSteps.

(** C3.  When the first position mapped for a new reference has a
    nonzero in-reference offset [toff], the adjusted offset is
    [toff + 1], the gap filled before the base is exactly [toff]
    ambiguity symbols, and the sequence so far is those followed by the
    base; at [toff = 3] the padding is ["NNN"]. *)
Theorem first_base_fencepost {Sink : Type}
    (print_record : text -> text -> M Sink unit) (dbg : assertions)
    (refnames : list text) (cat_ref : text)
    (joinedToTextOff : Z -> JoinedPosition)
    (st st1 : TraversalState) (i : Z) (s s' : Sink) :
  let jp := joinedToTextOff (u32 i) in
  let toff := u32 (textoff jp) in
  mapped jp = true ->
  curr_ref st <> u32 (tidx jp) ->
  switch_reference print_record dbg refnames st (u32 (tidx jp)) (u32 (tlen jp)) s
    = (s', Normal st1) ->
  0 < toff ->
  textoff_adj (first st1) toff = toff + 1
  /\ gap_fill (textoff_adj (first st1) toff) (last_text_off st1) = fill toff "N"
  /\ exists st2,
       visit print_record dbg refnames cat_ref joinedToTextOff st i s
         = (s', Normal st2)
       /\ curr_ref_seq st2 = fill toff "N" ++ [nth (Z.to_nat i) cat_ref zero]
       /\ last_text_off st2 = toff
       /\ first st2 = false.
Proof.
  intros jp toff Hm Hne Hsw Hpos.
  pose proof (mapped_bounds jp Hm) as (_ & Hoff & Hlen).
  fold toff in Hoff.
  pose proof (switch_reference_new _ _ _ _ _ _ _ _ _ Hne Hsw) as ->.
  cbn [reset_state first last_text_off].
  assert (Hadj : textoff_adj true toff = toff + 1).
  { unfold textoff_adj. cbn [andb].
    destruct (Z.ltb_spec 0 toff); [|lia]. apply u32_small. lia. }
  assert (Hgap : gap_fill (toff + 1) 0 = fill toff "N").
  { unfold gap_fill. rewrite Z.sub_0_r.
    rewrite (u32_small (toff + 1)) by lia.
    destruct (Z.ltb_spec 1 (toff + 1)); [|lia].
    replace (toff + 1 - 1) with toff by lia.
    now rewrite u32_small by lia. }
  rewrite Hadj. repeat split; try assumption.
  eexists. split.
  - rewrite visit_mapped by assumption. unfold bind. fold jp. rewrite Hsw.
    unfold ret. reflexivity.
  - unfold append_base. cbn [reset_state first last_text_off curr_ref_seq].
    fold toff. rewrite Hadj, Hgap. repeat split.
Qed.

(** C3 at offset 3: the first base of a reference mapped at offset 3 is
    preceded by exactly ["NNN"]. *)
Lemma first_base_fencepost_witness :
  let jto := fun _ : Z => {| tidx := 0; textoff := 3; tlen := 10 |} in
  textoff_adj true 3 = 3 + 1
  /\ gap_fill (textoff_adj true 3) 0 = str "NNN"
  /\ exists st2,
       visit log_record true [str "chr1"] (str "G") jto traversal_init 0 []
         = ([], Normal st2)
       /\ curr_ref_seq st2 = str "NNN" ++ [nth (Z.to_nat 0) (str "G") zero]
       /\ last_text_off st2 = 3
       /\ first st2 = false.
Proof.
  intros jto.
  assert (H1 : mapped (jto (u32 0)) = true) by reflexivity.
  assert (H2 : curr_ref traversal_init <> u32 (tidx (jto (u32 0))))
    by (vm_compute; discriminate).
  assert (H3 : switch_reference log_record true [str "chr1"] traversal_init
                 (u32 (tidx (jto (u32 0)))) (u32 (tlen (jto (u32 0)))) []
               = ([], Normal (reset_state 0 10))) by reflexivity.
  assert (H4 : 0 < u32 (textoff (jto (u32 0)))) by reflexivity.
  exact (first_base_fencepost log_record true [str "chr1"] (str "G") jto
           traversal_init _ 0 [] [] H1 H2 H3 H4).
Defined.

(** C4.  For two positions mapped one after the other to the same
    reference, at offsets [o1] then [o2] with [o2 - o1 > 1], the second
    is not a first base, its adjusted offset is [o2] itself, and exactly
    [o2 - o1 - 1] ambiguity symbols are appended between the two bases. *)
Theorem gap_between_offsets {Sink : Type}
    (print_record : text -> text -> M Sink unit) (dbg : assertions)
    (refnames : list text) (cat_ref : text)
    (joinedToTextOff : Z -> JoinedPosition)
    (st0 st : TraversalState) (i1 i2 : Z) (s0 s : Sink) :
  let jp1 := joinedToTextOff (u32 i1) in
  let jp2 := joinedToTextOff (u32 i2) in
  let o1 := u32 (textoff jp1) in
  let o2 := u32 (textoff jp2) in
  mapped jp1 = true -> mapped jp2 = true ->
  u32 (tidx jp1) = u32 (tidx jp2) ->
  visit print_record dbg refnames cat_ref joinedToTextOff st0 i1 s0
    = (s, Normal st) ->
  1 < o2 - o1 ->
  first st = false
  /\ textoff_adj (first st) o2 - last_text_off st = o2 - o1
  /\ gap_fill (textoff_adj (first st) o2) (last_text_off st)
     = fill (o2 - o1 - 1) "N"
  /\ exists st2,
       visit print_record dbg refnames cat_ref joinedToTextOff st i2 s
         = (s, Normal st2)
       /\ curr_ref_seq st2 =
          curr_ref_seq st ++ fill (o2 - o1 - 1) "N"
                       ++ [nth (Z.to_nat i2) cat_ref zero].
Proof.
  intros jp1 jp2 o1 o2 Hm1 Hm2 Hsame Hv Hgap.
  pose proof (mapped_bounds jp1 Hm1) as (_ & Ho1 & _).
  pose proof (mapped_bounds jp2 Hm2) as (_ & Ho2 & Hl2).
  fold o1 in Ho1. fold o2 in Ho2.
  rewrite visit_mapped in Hv by assumption. fold jp1 in Hv. unfold bind in Hv.
  destruct (switch_reference print_record dbg refnames st0
              (u32 (tidx jp1)) (u32 (tlen jp1)) s0) as [s1 [st1| | | |]] eqn:Hsw;
    unfold ret in Hv; inversion Hv; subst s1 st; clear Hv.
  assert (Hcur : curr_ref st1 = u32 (tidx jp1)).
  { destruct (Z.eq_dec (curr_ref st0) (u32 (tidx jp1))) as [E|N].
    - unfold switch_reference in Hsw. rewrite E, Z.eqb_refl in Hsw.
      cbn [negb] in Hsw. unfold ret in Hsw. inversion Hsw. now subst.
    - now rewrite (switch_reference_new _ _ _ _ _ _ _ _ _ N Hsw). }
  cbn [append_base first last_text_off curr_ref_seq]. fold o1.
  assert (Hadj : textoff_adj false o2 = o2) by reflexivity.
  assert (Hfill : gap_fill o2 o1 = fill (o2 - o1 - 1) "N").
  { unfold gap_fill. rewrite !u32_small by lia.
    destruct (Z.ltb_spec 1 (o2 - o1)); [reflexivity|lia]. }
  rewrite Hadj, Hfill. repeat split.
  eexists. split.
  - rewrite visit_mapped by assumption. fold jp2. unfold bind.
    unfold switch_reference. cbn [curr_ref append_base].
    rewrite Hcur, Hsame, Z.eqb_refl. cbn [negb]. unfold ret. reflexivity.
  - cbn [append_base first last_text_off curr_ref_seq]. fold o1 o2.
    rewrite Hadj, Hfill. now rewrite <- !app_assoc.
Qed.

(** C4 at the offsets of the example: offsets 5 then 9 put exactly
    ["NNN"] between the two bases. *)
Lemma gap_between_offsets_witness :
  let jto := fun i : Z => {| tidx := 0; textoff := if i =? 0 then 5 else 9;
                             tlen := 20 |} in
  let st := append_base (reset_state 0 20) 5 "A" in
  first st = false
  /\ textoff_adj (first st) 9 - last_text_off st = 9 - 5
  /\ gap_fill (textoff_adj (first st) 9) (last_text_off st) = str "NNN"
  /\ exists st2,
       visit log_record true [str "chr1"] (str "AC") jto st 1 [] = ([], Normal st2)
       /\ curr_ref_seq st2 = curr_ref_seq st ++ str "NNN" ++ [nth 1 (str "AC") zero].
Proof.
  intros jto st.
  assert (H1 : mapped (jto (u32 0)) = true) by reflexivity.
  assert (H2 : mapped (jto (u32 1)) = true) by reflexivity.
  assert (H3 : u32 (tidx (jto (u32 0))) = u32 (tidx (jto (u32 1)))) by reflexivity.
  assert (H4 : visit log_record true [str "chr1"] (str "AC") jto traversal_init 0 []
               = ([], Normal st)) by reflexivity.
  assert (H5 : 1 < u32 (textoff (jto (u32 1))) - u32 (textoff (jto (u32 0))))
    by reflexivity.
  exact (gap_between_offsets log_record true [str "chr1"] (str "AC") jto
           traversal_init st 0 1 [] [] H1 H2 H3 H4 H5).
Defined.

(** ** The traversal: the records it flushes *)

Lemma flush_log_eq dbg refnames st log :
  flush log_record dbg refnames st log =
  match nth_error refnames (Z.to_nat (curr_ref st)) with
  | Some name =>
      (log ++ [(name, add_trailing_gaps (curr_ref_seq st) (curr_ref_len st))],
       Normal tt)
  | None => (log, if dbg then AssertException else Undefined)
  end.
Proof.
  unfold flush, elist_get, bind, log_record.
  destruct (nth_error refnames (Z.to_nat (curr_ref st))); [reflexivity|].
  now destruct dbg.
Qed.

(** One iteration, with the records logged. *)
Lemma visit_log_eq dbg refnames cat_ref jto st i log :
  visit log_record dbg refnames cat_ref jto st i log =
  let jp := jto (u32 i) in
  let ti := u32 (tidx jp) in
  let toff := u32 (textoff jp) in
  let tl := u32 (tlen jp) in
  let c := nth (Z.to_nat i) cat_ref zero in
  if mapped jp then
    if curr_ref st =? ti then (log, Normal (append_base st toff c))
    else if curr_ref st =? NONE32
    then (log, Normal (append_base (reset_state ti tl) toff c))
    else
      match nth_error refnames (Z.to_nat (curr_ref st)) with
      | Some name =>
          (log ++ [(name, add_trailing_gaps (curr_ref_seq st) (curr_ref_len st))],
           Normal (append_base (reset_state ti tl) toff c))
      | None => (log, if dbg then AssertException else Undefined)
      end
  else (log, Normal st).
Proof.
  cbv zeta. unfold visit. cbv zeta. fold (mapped (jto (u32 i))).
  destruct (mapped (jto (u32 i))); [|reflexivity].
  unfold bind at 1. unfold switch_reference.
  destruct (curr_ref st =? u32 (tidx (jto (u32 i)))); [reflexivity|].
  cbn [negb]. unfold bind at 1.
  destruct (curr_ref st =? NONE32); [reflexivity|].
  cbn [negb]. rewrite flush_log_eq.
  destruct (nth_error refnames (Z.to_nat (curr_ref st))); [reflexivity|].
  now destruct dbg.
Qed.

Section LogInvariant.

Variable dbg : assertions.
Variable refnames : list text.
Variable cat_ref : text.
Variable jto : Z -> JoinedPosition.

(** [J k st]: [st] may be the state before position [k] is visited;
    [Q name seq]: what is to hold of every flushed record. *)
Variable J : Z -> TraversalState -> Prop.
Variable Q : text -> text -> Prop.

Hypothesis J_skip : forall k st,
  0 <= k < len cat_ref -> mapped (jto (u32 k)) = false ->
  J k st -> J (k + 1) st.

Hypothesis J_same : forall k st,
  0 <= k < len cat_ref -> mapped (jto (u32 k)) = true ->
  curr_ref st = u32 (tidx (jto (u32 k))) ->
  J k st ->
  J (k + 1) (append_base st (u32 (textoff (jto (u32 k))))
               (nth (Z.to_nat k) cat_ref zero)).

Hypothesis J_new : forall k st,
  0 <= k < len cat_ref -> mapped (jto (u32 k)) = true ->
  curr_ref st <> u32 (tidx (jto (u32 k))) ->
  J (k + 1) (append_base (reset_state (u32 (tidx (jto (u32 k))))
                                      (u32 (tlen (jto (u32 k)))))
               (u32 (textoff (jto (u32 k))))
               (nth (Z.to_nat k) cat_ref zero)).

Hypothesis Q_flush : forall k st name,
  0 <= k <= len cat_ref -> J k st -> curr_ref st <> NONE32 ->
  nth_error refnames (Z.to_nat (curr_ref st)) = Some name ->
  Q name (add_trailing_gaps (curr_ref_seq st) (curr_ref_len st)).

Lemma all_good_snoc (log : list FastaRecord) name seq :
  Forall (fun r => Q (fst r) (snd r)) log -> Q name seq ->
  Forall (fun r => Q (fst r) (snd r)) (log ++ [(name, seq)]).
Proof.
  intros Hl Hq. apply Forall_app. split; [assumption|].
  constructor; [assumption|constructor].
Qed.

Lemma visit_log_invariant k st log log' o :
  0 <= k < len cat_ref -> J k st -> Forall (fun r => Q (fst r) (snd r)) log ->
  visit log_record dbg refnames cat_ref jto st k log = (log', o) ->
  Forall (fun r => Q (fst r) (snd r)) log' /\ (forall st', o = Normal st' -> J (k + 1) st').
Proof.
  intros Hk HJ Hlog. rewrite visit_log_eq. cbv zeta.
  destruct (mapped (jto (u32 k))) eqn:Hm.
  - destruct (Z.eqb_spec (curr_ref st) (u32 (tidx (jto (u32 k))))) as [E|N].
    + intros R; inversion R; subst. split; [assumption|].
      intros st' S; inversion S; subst. now apply J_same.
    + destruct (Z.eqb_spec (curr_ref st) NONE32) as [E0|N0].
      * intros R; inversion R; subst. split; [assumption|].
        intros st' S; inversion S; subst. now apply (J_new k st).
      * destruct (nth_error refnames (Z.to_nat (curr_ref st))) as [name|] eqn:Hn.
        -- intros R; inversion R; subst. split.
           ++ apply all_good_snoc; [assumption|].
              apply (Q_flush k); try assumption. lia.
           ++ intros st' S; inversion S; subst. now apply (J_new k st).
        -- intros R; inversion R; subst. split; [assumption|].
           intros st' S. destruct dbg; discriminate.
  - intros R; inversion R; subst. split; [assumption|].
    intros st' S; inversion S; subst. now apply J_skip.
Qed.

Lemma visit_all_log_invariant (m : nat) :
  forall (a : nat) st log log' o,
    Z.of_nat (a + m) <= len cat_ref ->
    J (Z.of_nat a) st -> Forall (fun r => Q (fst r) (snd r)) log ->
    visit_all log_record dbg refnames cat_ref jto st
      (map Z.of_nat (List.seq a m)) log = (log', o) ->
    Forall (fun r => Q (fst r) (snd r)) log' /\ (forall st', o = Normal st' -> J (Z.of_nat (a + m)) st').
Proof.
  induction m as [|m IH]; intros a st log log' o Hb HJ Hlog.
  - cbn. unfold ret. intros R; inversion R; subst. split; [assumption|].
    intros st' S; inversion S; subst. now rewrite Nat.add_0_r.
  - cbn [List.seq map visit_all]. unfold bind at 1.
    destruct (visit log_record dbg refnames cat_ref jto st (Z.of_nat a) log)
      as [log1 o1] eqn:Hv.
    assert (Hka : 0 <= Z.of_nat a < len cat_ref) by lia.
    destruct (visit_log_invariant _ _ _ _ _ Hka HJ Hlog Hv) as [Hl1 HJ1].
    destruct o1 as [st1| | | |];
      try (intros R; inversion R; subst; split; [assumption|discriminate]).
    intros R. apply IH in R; try assumption.
    + replace (a + S m)%nat with (S a + m)%nat by lia. exact R.
    + lia.
    + replace (Z.of_nat (S a)) with (Z.of_nat a + 1) by lia. now apply HJ1.
Qed.

(** Every record the traversal flushes is good. *)
Lemma flushed_records_invariant :
  Z.of_nat (length refnames) <= NONE32 ->
  J 0 traversal_init ->
  Forall (fun r => Q (fst r) (snd r))
    (fst (flushed_records dbg refnames cat_ref jto)).
Proof.
  intros Hsz H0. unfold flushed_records, traverse, bind.
  destruct (visit_all log_record dbg refnames cat_ref jto traversal_init
              (upto (len cat_ref)) []) as [log o] eqn:Hv.
  unfold upto in Hv.
  apply (visit_all_log_invariant _ 0%nat traversal_init) in Hv as [Hl HJ].
  - destruct o as [st| | | |]; try exact Hl.
    specialize (HJ st eq_refl).
    destruct (Z.ltb_spec (curr_ref st) (Z.of_nat (length refnames))) as [Hlt|].
    + rewrite flush_log_eq.
      destruct (nth_error refnames (Z.to_nat (curr_ref st))) as [name|] eqn:Hn.
      * cbn [fst]. apply all_good_snoc; [assumption|].
        apply (Q_flush (Z.of_nat (0 + Z.to_nat (len cat_ref)))); try assumption.
        -- unfold len. lia.
        -- lia.
      * exact Hl.
    + exact Hl.
  - unfold len. lia.
  - exact H0.
  - constructor.
Qed.

End LogInvariant.

(** C1 as stated fails: with two references of which only the first
    has mapped positions, the traversal flushes one record, and none for
    the second. *)
Lemma unobserved_reference_not_emitted :
  ~ unobserved_references_emitted true [str "chr1"; str "chr2"] [4; 3]
      (str "ACGT") (fun i => {| tidx := 0; textoff := i; tlen := 4 |}).
Proof.
  intros H.
  specialize (H 1%nat (str "chr2") 3 eq_refl eq_refl).
  assert (Hno : forall i : Z, 0 <= i < len (str "ACGT") ->
            mapped {| tidx := 0; textoff := u32 i; tlen := 4 |} = true ->
            u32 (tidx {| tidx := 0; textoff := u32 i; tlen := 4 |}) <> Z.of_nat 1).
  { intros i _ _. vm_compute. discriminate. }
  specialize (H Hno). vm_compute in H.
  destruct H as [E|[]]. discriminate.
Qed.

(** The output of the program on that index: the record of [chr1]
    alone. *)
Example unobserved_reference_output :
  print_index_sequences 60 true [str "chr1"; str "chr2"] (str "ACGT")
    (fun i => {| tidx := 0; textoff := i; tlen := 4 |}) []
  = (str ">chr1" ++ [nl] ++ str "ACGT" ++ [nl], Normal tt).
Proof. reflexivity. Qed.

(** C1, amended.  The traversal flushes a record only for a reference
    that some visited position is mapped to: the name of every record is
    the name of such a reference.  Where names are distinct, a
    reference none of whose positions is mapped has no record. *)
Theorem records_only_for_mapped_references (dbg : assertions)
    (refnames : list text) (cat_ref : text)
    (joinedToTextOff : Z -> JoinedPosition) :
  Z.of_nat (length refnames) <= NONE32 ->
  (forall name seq,
     In (name, seq) (fst (flushed_records dbg refnames cat_ref joinedToTextOff)) ->
     exists i, 0 <= i < len cat_ref
       /\ mapped (joinedToTextOff (u32 i)) = true
       /\ nth_error refnames (Z.to_nat (u32 (tidx (joinedToTextOff (u32 i)))))
          = Some name)
  /\ (forall (r : nat) name,
        NoDup refnames ->
        nth_error refnames r = Some name ->
        (forall i, 0 <= i < len cat_ref ->
                   mapped (joinedToTextOff (u32 i)) = true ->
                   u32 (tidx (joinedToTextOff (u32 i))) <> Z.of_nat r) ->
        forall seq,
          ~ In (name, seq)
               (fst (flushed_records dbg refnames cat_ref joinedToTextOff))).
Proof.
  intros Hsz.
  assert (Hrec : forall name seq,
     In (name, seq) (fst (flushed_records dbg refnames cat_ref joinedToTextOff)) ->
     exists i, 0 <= i < len cat_ref
       /\ mapped (joinedToTextOff (u32 i)) = true
       /\ nth_error refnames (Z.to_nat (u32 (tidx (joinedToTextOff (u32 i)))))
          = Some name).
  { intros name seq Hin.
    pose proof (flushed_records_invariant dbg refnames cat_ref joinedToTextOff
      (fun k st => curr_ref st = NONE32 \/
         exists i, 0 <= i < k /\ mapped (joinedToTextOff (u32 i)) = true /\
                   u32 (tidx (joinedToTextOff (u32 i))) = curr_ref st)
      (fun name _ => exists i, 0 <= i < len cat_ref
         /\ mapped (joinedToTextOff (u32 i)) = true
         /\ nth_error refnames (Z.to_nat (u32 (tidx (joinedToTextOff (u32 i)))))
            = Some name)) as Inv.
    cbv beta in Inv.
    assert (F : Forall (fun r : text * text =>
                 exists i, 0 <= i < len cat_ref
                   /\ mapped (joinedToTextOff (u32 i)) = true
                   /\ nth_error refnames
                        (Z.to_nat (u32 (tidx (joinedToTextOff (u32 i)))))
                      = Some (fst r))
              (fst (flushed_records dbg refnames cat_ref joinedToTextOff))).
    { apply Inv; clear Inv.
      - intros k st Hk _ [H|(i & Hi & Hm & Ht)]; [now left|right].
        exists i. repeat split; try assumption; lia.
      - intros k st Hk Hm Hc _. right. exists k.
        repeat split; try assumption; try lia. now symmetry.
      - intros k st Hk Hm _. right. exists k.
        repeat split; try assumption; try lia.
      - intros k st nm Hk [H|(i & Hi & Hm & Ht)] Hne Hn; [contradiction|].
        exists i. rewrite Ht. repeat split; try assumption; lia.
      - assumption.
      - now left. }
    rewrite Forall_forall in F. exact (F (name, seq) Hin). }
  split; [exact Hrec|].
  intros r name Hnd Hr Hno seq Hin.
  destruct (Hrec name seq Hin) as (i & Hi & Hm & Hn).
  apply (Hno i Hi Hm).
  assert (E : Z.to_nat (u32 (tidx (joinedToTextOff (u32 i)))) = r).
  { apply (proj1 (NoDup_nth_error refnames) Hnd).
    - apply nth_error_Some. congruence.
    - congruence. }
  pose proof (mapped_bounds _ Hm) as _.
  assert (0 <= u32 (tidx (joinedToTextOff (u32 i)))).
  { unfold u32. apply Z.mod_pos_bound. lia. }
  lia.
Qed.

(** C1, amended, on the index of the counterexample. *)
Lemma records_only_for_mapped_references_witness :
  let refnames := [str "chr1"; str "chr2"] in
  let cat_ref := str "ACGT" in
  let jto := fun i => {| tidx := 0; textoff := i; tlen := 4 |} in
  (forall name seq,
     In (name, seq) (fst (flushed_records true refnames cat_ref jto)) ->
     exists i, 0 <= i < len cat_ref
       /\ mapped (jto (u32 i)) = true
       /\ nth_error refnames (Z.to_nat (u32 (tidx (jto (u32 i))))) = Some name)
  /\ (forall (r : nat) name,
        NoDup refnames ->
        nth_error refnames r = Some name ->
        (forall i, 0 <= i < len cat_ref ->
                   mapped (jto (u32 i)) = true ->
                   u32 (tidx (jto (u32 i))) <> Z.of_nat r) ->
        forall seq,
          ~ In (name, seq) (fst (flushed_records true refnames cat_ref jto))).
Proof.
  intros refnames cat_ref jto.
  assert (H : Z.of_nat (length refnames) <= NONE32) by (vm_compute; discriminate).
  exact (records_only_for_mapped_references true refnames cat_ref jto H).
Defined.

(** ** The traversal: padding to the declared length *)

Lemma add_trailing_gaps_short seq n :
  len seq <= n -> n < 2 ^ 64 ->
  add_trailing_gaps seq n = seq ++ fill (n - len seq) "N".
Proof.
  intros Hle Hn. unfold add_trailing_gaps.
  destruct (Z.ltb_spec (len seq) n).
  - now rewrite usize_small by (pose proof (len_nonneg seq); lia).
  - replace (n - len seq) with 0 by lia. cbn. now rewrite app_nil_r.
Qed.

(** After a base at offset [toff] the sequence has [toff + 1]
    characters, when it had [last + 1] before and [last < toff]. *)
Lemma append_base_next_length st toff c :
  first st = false ->
  0 <= last_text_off st < toff -> toff < 2 ^ 32 ->
  len (curr_ref_seq st) = last_text_off st + 1 ->
  len (curr_ref_seq (append_base st toff c)) = toff + 1.
Proof.
  intros Hf Hlt Hb Hlen. unfold append_base. cbn [curr_ref_seq].
  rewrite Hf. unfold textoff_adj. cbn [andb].
  rewrite !len_app. unfold gap_fill.
  rewrite (u32_small (toff - last_text_off st)) by lia.
  destruct (Z.ltb_spec 1 (toff - last_text_off st)).
  - rewrite u32_small by lia. rewrite len_fill by lia.
    change (len [c]) with 1. lia.
  - change (len []) with 0. change (len [c]) with 1. lia.
Qed.

(** The first base of a reference, at offset [toff], leaves [toff + 1]
    characters. *)
Lemma append_base_first_length ti tl toff c :
  0 <= toff < tl -> tl < 2 ^ 32 ->
  len (curr_ref_seq (append_base (reset_state ti tl) toff c)) = toff + 1.
Proof.
  intros Hlt Hb. unfold append_base, reset_state.
  cbn [curr_ref_seq first last_text_off]. unfold textoff_adj. cbn [andb].
  rewrite !len_app. change (len []) with 0. change (len [c]) with 1.
  unfold gap_fill.
  destruct (Z.ltb_spec 0 toff).
  - rewrite (u32_small (toff + 1)) by lia. rewrite Z.sub_0_r.
    rewrite (u32_small (toff + 1)) by lia.
    destruct (Z.ltb_spec 1 (toff + 1)); [|lia].
    rewrite u32_small by lia. rewrite len_fill by lia. lia.
  - assert (toff = 0) by lia. subst toff. reflexivity.
Qed.

(** C2 as stated fails: a mapping that reports offset 0 of a reference
    of declared length 1 at two positions satisfies the assumption, and
    the record flushed has two characters. *)
Lemma repeated_offset_exceeds_declared_length :
  ~ flushed_at_declared_length true [str "chr1"] (fun _ => 1) (str "AC")
      (fun _ => {| tidx := 0; textoff := 0; tlen := 1 |}).
Proof.
  intros H.
  assert (Hd : reports_declared_length (fun _ => 1) (str "AC")
                 (fun _ => {| tidx := 0; textoff := 0; tlen := 1 |})).
  { intros i _ _. reflexivity. }
  destruct (H Hd (str "chr1") (str "AC")) as (r & _ & Hlen).
  - vm_compute. now left.
  - vm_compute in Hlen. discriminate.
Qed.

(** C2, amended.  When the mapping reports the declared length of the
    reference at each mapped position and the offsets mapped for a
    reference strictly increase along the traversal, every flushed
    record has exactly the declared length of its reference, and all it
    holds after the last offset observed is the ambiguity symbol. *)
Theorem flushed_sequences_have_declared_length (dbg : assertions)
    (refnames : list text) (declared : Z -> Z) (cat_ref : text)
    (joinedToTextOff : Z -> JoinedPosition) :
  Z.of_nat (length refnames) <= NONE32 ->
  reports_declared_length declared cat_ref joinedToTextOff ->
  offsets_increase cat_ref joinedToTextOff ->
  forall name seq,
    In (name, seq) (fst (flushed_records dbg refnames cat_ref joinedToTextOff)) ->
    exists j, 0 <= j < len cat_ref
      /\ mapped (joinedToTextOff (u32 j)) = true
      /\ nth_error refnames (Z.to_nat (u32 (tidx (joinedToTextOff (u32 j)))))
         = Some name
      /\ len seq = declared (u32 (tidx (joinedToTextOff (u32 j))))
      /\ substr_from seq (u32 (textoff (joinedToTextOff (u32 j))) + 1) =
         fill (declared (u32 (tidx (joinedToTextOff (u32 j))))
               - (u32 (textoff (joinedToTextOff (u32 j))) + 1)) "N".
Proof.
  intros Hsz Hdecl Hmono name seq Hin.
  set (ti := fun j => u32 (tidx (joinedToTextOff (u32 j)))).
  set (to := fun j => u32 (textoff (joinedToTextOff (u32 j)))).
  pose proof (flushed_records_invariant dbg refnames cat_ref joinedToTextOff
    (fun k st => curr_ref st = NONE32 \/
       exists j, 0 <= j < k /\ mapped (joinedToTextOff (u32 j)) = true /\
         ti j = curr_ref st /\ first st = false /\
         last_text_off st = to j /\
         len (curr_ref_seq st) = to j + 1 /\
         curr_ref_len st = declared (curr_ref st))
    (fun name seq => exists j, 0 <= j < len cat_ref
       /\ mapped (joinedToTextOff (u32 j)) = true
       /\ nth_error refnames (Z.to_nat (ti j)) = Some name
       /\ len seq = declared (ti j)
       /\ substr_from seq (to j + 1) = fill (declared (ti j) - (to j + 1)) "N"))
    as Inv.
  cbv beta in Inv.
  assert (F : Forall (fun r : text * text => exists j, 0 <= j < len cat_ref
       /\ mapped (joinedToTextOff (u32 j)) = true
       /\ nth_error refnames (Z.to_nat (ti j)) = Some (fst r)
       /\ len (snd r) = declared (ti j)
       /\ substr_from (snd r) (to j + 1)
          = fill (declared (ti j) - (to j + 1)) "N")
     (fst (flushed_records dbg refnames cat_ref joinedToTextOff))).
  { apply Inv; clear Inv.
    - intros k st Hk _ [H|(j & Hj & Hm & R)]; [now left|right].
      exists j. split; [lia|]. now split.
    - intros k st Hk Hm Hc [H|(j & Hj & Hmj & Ht & Hf & Hl & Hlen & Hd)].
      + exfalso. pose proof (mapped_bounds _ Hm) as (Hne & _). congruence.
      + right. exists k.
        pose proof (mapped_bounds _ Hm) as (_ & Hok & Hlk).
        pose proof (mapped_bounds _ Hmj) as (_ & Hoj & _).
        assert (Hlt : to j < to k).
        { apply Hmono; try assumption; try lia.
          transitivity (curr_ref st); [exact Ht|exact Hc]. }
        fold (to k) in Hok. fold (to j) in Hoj.
        split; [lia|]. split; [assumption|].
        split; [cbn [append_base curr_ref]; now symmetry|].
        split; [reflexivity|]. split; [reflexivity|].
        split; [|exact Hd].
        fold (to k). apply append_base_next_length; try assumption; lia.
    - intros k st Hk Hm Hc. right. exists k.
      pose proof (mapped_bounds _ Hm) as (_ & Hok & Hlk).
      split; [lia|]. split; [assumption|].
      split; [reflexivity|]. split; [reflexivity|]. split; [reflexivity|].
      split.
      + fold (to k). apply append_base_first_length; [exact Hok|exact Hlk].
      + cbn [append_base reset_state curr_ref curr_ref_len].
        now apply Hdecl.
    - intros k st nm Hk [H|(j & Hj & Hmj & Ht & Hf & Hl & Hlen & Hd)] Hne Hn;
        [contradiction|].
      pose proof (mapped_bounds _ Hmj) as (_ & Hoj & Hlj).
      fold (to j) in Hoj.
      assert (Hdj : u32 (tlen (joinedToTextOff (u32 j))) = declared (ti j))
        by (apply Hdecl; [lia|assumption]).
      exists j. split; [lia|]. split; [assumption|].
      rewrite Ht. split; [assumption|].
      rewrite Hd.
      rewrite add_trailing_gaps_short by (rewrite <- Ht, <- Hdj; lia).
      split.
      + rewrite len_app, len_fill by (rewrite <- Ht, <- Hdj; lia). lia.
      + unfold substr_from. rewrite <- Hlen. unfold len.
        rewrite Nat2Z.id, skipn_app, skipn_all, Nat.sub_diag. reflexivity.
    - assumption.
    - now left. }
  rewrite Forall_forall in F. exact (F (name, seq) Hin).
Qed.

(** C2, amended, on the example of the claim: 600 bases observed at
    offsets 0..599 of a reference of declared length 1000. *)
Lemma flushed_sequences_have_declared_length_witness :
  let refnames := [str "chr1"] in
  let declared := fun _ : Z => 1000 in
  let cat_ref := fill 600 "A" in
  let jto := fun i => {| tidx := 0; textoff := i; tlen := 1000 |} in
  let name := str "chr1" in
  let seq := fill 600 "A" ++ fill 400 "N" in
  In (name, seq) (fst (flushed_records true refnames cat_ref jto))
  /\ exists j, 0 <= j < len cat_ref
      /\ mapped (jto (u32 j)) = true
      /\ nth_error refnames (Z.to_nat (u32 (tidx (jto (u32 j))))) = Some name
      /\ len seq = declared (u32 (tidx (jto (u32 j))))
      /\ substr_from seq (u32 (textoff (jto (u32 j))) + 1) =
         fill (declared (u32 (tidx (jto (u32 j))))
               - (u32 (textoff (jto (u32 j))) + 1)) "N".
Proof.
  intros refnames declared cat_ref jto name seq.
  assert (L : len cat_ref = 600) by (vm_compute; reflexivity).
  assert (Hin : In (name, seq) (fst (flushed_records true refnames cat_ref jto))).
  { vm_compute. left. reflexivity. }
  split; [exact Hin|].
  apply (flushed_sequences_have_declared_length true refnames declared cat_ref jto).
  - vm_compute. discriminate.
  - intros i Hi Hm. reflexivity.
  - intros i j Hi Hij Hj _ _ _. rewrite L in Hj. cbn [jto textoff].
    rewrite !u32_small; rewrite ?u32_small; lia.
  - exact Hin.
Defined.

(** The record flushed in that example: the 600 bases and then 400
    ambiguity symbols. *)
Example padded_to_declared_length :
  flushed_records true [str "chr1"] (fill 600 "A")
    (fun i => {| tidx := 0; textoff := i; tlen := 1000 |})
  = ([(str "chr1", fill 600 "A" ++ fill 400 "N")], Normal tt).
Proof. vm_compute. reflexivity. Qed.

(** ** The packed-store path: the range check *)

Lemma base_symbol b :
  0 <= b <= 4 ->
  exists c, nth_error ACGTN (Z.to_nat b) = Some c /\ In c (str "ACGTN").
Proof.
  intros H.
  assert (C : b = 0 \/ b = 1 \/ b = 2 \/ b = 3 \/ b = 4) by lia.
  destruct C as [C|[C|[C|[C|C]]]]; subst b; eexists; (split; [reflexivity|]);
    cbn; tauto.
Qed.






(** What is written there: the terminating NUL of the literal. *)
Example unchecked_symbol_output :
  print_ref_sequence false (fun _ _ _ _ => 5) 60 (str "chr1") 0 1 []
  = (str ">chr1" ++ [nl] ++ [zero] ++ [nl], Normal tt).
Proof. reflexivity. Qed.


(** On that reference the run throws after the first base. *)
Example checked_symbol_output :
  print_ref_sequence true (fun _ _ _ j => if j =? 1 then 7 else 2) 60
    (str "chr1") 0 2 []
  = (str ">chr1" ++ [nl] ++ str "G", AssertException).
Proof. reflexivity. Qed.

(** ** The summary table *)

Lemma sequence_rows_run dbg h (js : list Z) (out : text) :
  length (plen h) = length (p_refnames h) ->
  Forall (fun n => 0 <= n /\ n + 1 < 2 ^ 32) (plen h) ->
  (forall j, In j js -> 0 <= j < Z.of_nat (length (p_refnames h))) ->
  for_each (fun i =>
              put (str "Sequence-") ;; put (dec (i + 1)) ;;
              put [tab] ;;
              name <- elist_get dbg (p_refnames h) i ;;
              put name ;;
              put [tab] ;;
              n <- plen_get (plen h) i ;;
              put (dec (u32 (n + (if color h then 1 else 0)))) ;;
              put [nl]) js out
  = (out ++ unlines (map join_tab (map (sequence_row h) js)), Normal tt).
Proof.
  intros Hlen Hrange. revert out.
  induction js as [|j js IH]; intros out Hjs.
  - cbn. unfold ret. now rewrite app_nil_r.
  - cbn [for_each map]. unfold bind at 1.
    assert (Hj : 0 <= j < Z.of_nat (length (p_refnames h))) by (apply Hjs; now left).
    assert (Hn : nth_error (p_refnames h) (Z.to_nat j)
                 = Some (nth (Z.to_nat j) (p_refnames h) [])).
    { apply nth_error_nth'. lia. }
    assert (Hp : nth_error (plen h) (Z.to_nat j)
                 = Some (nth (Z.to_nat j) (plen h) 0)).
    { apply nth_error_nth'. lia. }
    assert (Hr : 0 <= nth (Z.to_nat j) (plen h) 0 /\
                 nth (Z.to_nat j) (plen h) 0 + 1 < 2 ^ 32).
    { rewrite Forall_forall in Hrange. apply Hrange. apply nth_In. lia. }
    unfold bind at 1 2 3 4 5 6 7 8. unfold put at 1 2 3.
    unfold elist_get, plen_get. rewrite Hn, Hp. unfold ret at 1. unfold put at 1 2.
    unfold ret at 1. unfold put at 1 2.
    rewrite IH by (intros; apply Hjs; now right).
    f_equal. unfold unlines. cbn [map concat].
    rewrite (u32_small (nth (Z.to_nat j) (plen h) 0)) by lia.
    rewrite u32_small by (destruct (color h); lia).
    unfold sequence_row. cbn [join_tab map concat].
    repeat (rewrite <- ?app_assoc; cbn [app]). rewrite ?app_nil_r.
    reflexivity.
Qed.

(** C8.  On an index header within range, the summary is the
    tab-separated table whose rows are [Flags], [Reverse flags],
    [Colorspace], [2.0-compatible], [SA-Sample] (as "1 in" and
    [2^offRate]), [FTab-Chars], and then for each reference in ordinal
    order the row [Sequence-N] (from 1) with its name and its length,
    one more exactly when the index is colorspace. *)
Theorem print_index_summary_table (dbg : assertions) (h : IndexHeader)
    (out : text) :
  header_ok h ->
  print_index_summary dbg h out
  = (out ++ unlines (map join_tab (summary_rows h)), Normal tt).
Proof.
  intros (Hf & Hfr & Hoff & Hn & Hlen & Hrange).
  unfold print_index_summary, neg_int32, shl1_int, assert_that.
  destruct (Z.eqb_spec (flags h) INT_MIN) as [|_]; [contradiction|].
  destruct (Z.eqb_spec (flagsr h) INT_MIN) as [|_]; [contradiction|].
  destruct (Z.leb_spec 0 (offRate h)) as [_|]; [|lia].
  destruct (Z.leb_spec (offRate h) 30) as [_|]; [|lia].
  cbn [andb].
  destruct (Z.eqb_spec (nPat h) (Z.of_nat (length (p_refnames h)))) as [_|];
    [|contradiction].
  assert (A : forall s : text,
            (if dbg then ret tt else ret tt) s = (s, Normal tt)).
  { intros s. now destruct dbg. }
  repeat (first [rewrite bind_ret | rewrite bind_put]; cbv beta).
  unfold bind at 1. rewrite A.
  rewrite sequence_rows_run; try assumption.
  - f_equal. unfold summary_rows, unlines.
    rewrite map_app, map_app, concat_app.
    cbn [map concat join_tab].
    rewrite Z.shiftl_1_l.
    repeat (rewrite <- ?app_assoc; cbn [app]). rewrite ?app_nil_r.
    reflexivity.
  - intros j Hj. now apply in_upto in Hj.
Qed.

(** C8 on a colorspace index of two references. *)
Lemma print_index_summary_table_witness :
  let h := {| flags := -65; flagsr := -65; color := true; entireReverse := true;
              offRate := 5; ftabChars := 10; nPat := 2; plen := [10; 5];
              p_refnames := [str "chr1"; str "chr2"] |} in
  print_index_summary true h []
  = (str "Flags" ++ [tab] ++ str "65" ++ [nl] ++
     str "Reverse flags" ++ [tab] ++ str "65" ++ [nl] ++
     str "Colorspace" ++ [tab] ++ str "1" ++ [nl] ++
     str "2.0-compatible" ++ [tab] ++ str "1" ++ [nl] ++
     str "SA-Sample" ++ [tab] ++ str "1 in 32" ++ [nl] ++
     str "FTab-Chars" ++ [tab] ++ str "10" ++ [nl] ++
     str "Sequence-1" ++ [tab] ++ str "chr1" ++ [tab] ++ str "11" ++ [nl] ++
     str "Sequence-2" ++ [tab] ++ str "chr2" ++ [tab] ++ str "6" ++ [nl],
     Normal tt).
Proof.
  intros h.
  assert (Hok : header_ok h).
  { unfold header_ok, INT_MIN. cbn.
    repeat split; try lia; try discriminate.
    repeat constructor; lia. }
  exact (print_index_summary_table true h [] Hok).
Defined.

(** ** Option parsing *)

(** [strtol] always sets its end pointer. *)
Lemma strtol_endptr_set nptr : exists e, snd (strtol nptr) = Some e.
Proof.
  unfold strtol.
  destruct (skipn (count_spaces nptr) nptr) as [|c r].
  - destruct (digits 0 []) as [v [|n]]; eexists; reflexivity.
  - destruct (Ascii.eqb c "-"); [|destruct (Ascii.eqb c "+")];
      match goal with |- context [digits 0 ?b] => destruct (digits 0 b) as [v [|n]] end;
      eexists; reflexivity.
Qed.

(** Where no conversion is performed, the value is 0. *)
Lemma strtol_no_conversion nptr :
  no_conversion nptr -> strtol nptr = (0, Some 0).
Proof.
  unfold no_conversion, strtol.
  destruct (skipn (count_spaces nptr) nptr) as [|c r].
  - destruct (digits 0 []) as [v [|n]]; [reflexivity|].
    cbn. intros E. inversion E. lia.
  - destruct (Ascii.eqb c "-"); [|destruct (Ascii.eqb c "+")];
      match goal with |- context [digits 0 ?b] => destruct (digits 0 b) as [v [|n]] end;
      try reflexivity; cbn; intros E; inversion E; lia.
Qed.

(** No conversion is performed on a text that holds no digit. *)
Lemma digitless_no_conversion nptr :
  Forall (fun c => isdigit c = false) nptr -> no_conversion nptr.
Proof.
  intros Hnd. unfold no_conversion, strtol.
  assert (Hsk : Forall (fun c => isdigit c = false)
                  (skipn (count_spaces nptr) nptr)).
  { rewrite Forall_forall in *. intros c Hc. apply Hnd.
    rewrite <- (firstn_skipn (count_spaces nptr) nptr).
    apply in_or_app. now right. }
  assert (D : forall body, Forall (fun c => isdigit c = false) body ->
                digits 0 body = (0, 0%nat)).
  { intros [|c body] Hb; [reflexivity|]. cbn.
    inversion Hb as [|? ? Hc _]; subst. now rewrite Hc. }
  destruct (skipn (count_spaces nptr) nptr) as [|c r].
  - reflexivity.
  - inversion Hsk as [|? ? Hc Hr]; subst.
    destruct (Ascii.eqb c "-"); [|destruct (Ascii.eqb c "+")].
    + now rewrite (D r Hr).
    + now rewrite (D r Hr).
    + now rewrite (D (c :: r) Hsk).
Qed.

(** [parseInt] by the value [strtol] returns. *)
Lemma parseInt_eq lower errmsg optarg s :
  parseInt lower errmsg optarg s =
  if fst (strtol optarg) <? lower
  then ({| cout := cout s; cerr := cerr s ++ errmsg ++ [nl] ++ usage |}, Throw 1)
  else (s, Normal (to_int32 (fst (strtol optarg)))).
Proof.
  unfold parseInt.
  destruct (strtol_endptr_set optarg) as [e He].
  destruct (strtol optarg) as [l endPtr]. cbn [fst snd] in *. subst endPtr.
  destruct (l <? lower); [|reflexivity].
  unfold bind, on_cerr, printUsage, put, raise. cbn [cout cerr].
  now rewrite <- !app_assoc.
Qed.

(** Options parsed without a throw, none of them the final [-1], can be
    parsed first. *)
Lemma parseOptions_app pre : forall cfg s s1 cfg1 rest,
  parseOptions pre cfg s = (s1, Normal cfg1) ->
  Forall (fun r => next_option r <> -1) pre ->
  parseOptions (pre ++ rest) cfg s = parseOptions rest cfg1 s1.
Proof.
  induction pre as [|r pre IH]; intros cfg s s1 cfg1 rest Hp Hall.
  - cbn in Hp. unfold ret in Hp. now inversion Hp.
  - inversion Hall as [|? ? Hr Hall']; subst.
    cbn [app parseOptions] in *. cbv zeta in *.
    destruct ((next_option r =? ARG_USAGE) || (next_option r =? code "h")).
    { unfold bind, on_cout in Hp.
      destruct (printUsage (cout s)) as [o [[]| | | |]]; discriminate. }
    destruct (next_option r =? code "v"); [now apply IH with (1 := Hp)|].
    destruct (next_option r =? ARG_VERSION); [now apply IH with (1 := Hp)|].
    destruct (next_option r =? code "e"); [now apply IH with (1 := Hp)|].
    destruct (next_option r =? code "n"); [now apply IH with (1 := Hp)|].
    destruct (next_option r =? code "s"); [now apply IH with (1 := Hp)|].
    destruct (next_option r =? code "a").
    { unfold bind in *.
      destruct (parseInt (-1) across_errmsg (optarg r) s) as [s' [a| | | |]];
        try discriminate.
      now apply IH with (1 := Hp). }
    destruct (Z.eqb_spec (next_option r) (-1)); [contradiction|].
    unfold bind, on_cerr in Hp.
    destruct (printUsage (cerr s)) as [o [[]| | | |]]; discriminate.
Qed.

(** The step of [parseOptions] at a [-a] option. *)
Lemma parseOptions_across arg rest cfg s :
  parseOptions ({| next_option := code "a"; optarg := arg; diagnostic := [] |} :: rest) cfg s =
  if fst (strtol arg) <? -1
  then ({| cout := cout s; cerr := cerr s ++ across_errmsg ++ [nl] ++ usage |},
        Throw 1)
  else parseOptions rest (set_across cfg (to_int32 (fst (strtol arg)))) s.
Proof.
  cbn [parseOptions next_option optarg]. cbv zeta.
  change ((code "a" =? ARG_USAGE) || (code "a" =? code "h")) with false.
  change (code "a" =? code "v") with false.
  change (code "a" =? ARG_VERSION) with false.
  change (code "a" =? code "e") with false.
  change (code "a" =? code "n") with false.
  change (code "a" =? code "s") with false.
  change (code "a" =? code "a") with true.
  cbv iota. unfold bind. rewrite parseInt_eq.
  now destruct (fst (strtol arg) <? -1).
Qed.

(** C10.  Where [strtol] performs no conversion on the argument of
    [-a], its end pointer is still set and its value is 0, so
    [parseInt] writes nothing and returns 0, [parseOptions] goes on
    with the width 0, and at that width a record is printed
    unwrapped. *)
Theorem non_numeric_width_accepted (arg : text) (rest : list GetoptReturn)
    (cfg : Config) (s : Streams) (defline seq fout : text) :
  no_conversion arg ->
  strtol arg = (0, Some 0)
  /\ snd (strtol arg) <> None
  /\ parseInt (-1) across_errmsg arg s = (s, Normal 0)
  /\ parseOptions ({| next_option := code "a"; optarg := arg; diagnostic := [] |} :: rest) cfg s =
     parseOptions rest (set_across cfg 0) s
  /\ print_fasta_record (across (set_across cfg 0)) defline seq fout =
     (fout ++ str ">" ++ defline ++ [nl] ++ seq ++ [nl], Normal tt).
Proof.
  intros Hno. pose proof (strtol_no_conversion arg Hno) as E.
  split; [exact E|]. split; [rewrite E; discriminate|].
  split; [rewrite parseInt_eq, E; reflexivity|].
  split; [rewrite parseOptions_across, E; reflexivity|].
  apply print_fasta_record_unwrapped. cbn. lia.
Qed.

(** C10 on the argument ["abc"]. *)
Lemma non_numeric_width_accepted_witness :
  let s := {| cout := []; cerr := [] |} in
  strtol (str "abc") = (0, Some 0)
  /\ snd (strtol (str "abc")) <> None
  /\ parseInt (-1) across_errmsg (str "abc") s = (s, Normal 0)
  /\ parseOptions [{| next_option := code "a"; optarg := str "abc"; diagnostic := [] |}]
       default_config s =
     parseOptions [] (set_across default_config 0) s
  /\ print_fasta_record (across (set_across default_config 0))
       (str "chr1") (str "ACGT") [] =
     ([] ++ str ">" ++ str "chr1" ++ [nl] ++ str "ACGT" ++ [nl], Normal tt).
Proof.
  intros s.
  assert (H : no_conversion (str "abc")) by reflexivity.
  exact (non_numeric_width_accepted (str "abc") [] default_config s
           (str "chr1") (str "ACGT") [] H).
Defined.

(** ** The records flushed are what the program prints *)

Section Replay.

Context {Sink : Type}.
Variable P : text -> text -> M Sink unit.
Variable dbg : assertions.
Variable refnames : list text.
Variable cat_ref : text.
Variable jto : Z -> JoinedPosition.

Lemma replay_app (l1 l2 : list FastaRecord) (s0 : Sink) :
  replay P (l1 ++ l2) s0 =
  match replay P l1 s0 with
  | (s, Normal _) => replay P l2 s
  | (s, Throw c) => (s, Throw c)
  | (s, AssertException) => (s, AssertException)
  | (s, Undefined) => (s, Undefined)
  | (s, Diverge) => (s, Diverge)
  end.
Proof.
  unfold replay. revert s0. induction l1 as [|r l1 IH]; intros s0; [reflexivity|].
  cbn [app for_each]. unfold bind.
  destruct (P (fst r) (snd r) s0) as [s [[]| | | |]]; try reflexivity.
  apply IH.
Qed.

Lemma replay_snoc (l : list FastaRecord) name seq (s0 s : Sink) :
  replay P l s0 = (s, Normal tt) ->
  replay P (l ++ [(name, seq)]) s0 = P name seq s.
Proof.
  intros H. rewrite replay_app, H. unfold replay. cbn. unfold bind, ret.
  destruct (P name seq s) as [s' [[]| | | |]]; reflexivity.
Qed.

(** Once the printing of a log has thrown, a longer log throws the
    same. *)
Lemma replay_stuck (l more : list FastaRecord) (s0 s : Sink) (e : outcome unit) :
  replay P l s0 = (s, e) -> e <> Normal tt ->
  replay P (l ++ more) s0 = (s, e).
Proof.
  intros H Hne. rewrite replay_app, H.
  destruct e as [[]| | | |]; try reflexivity. contradiction.
Qed.

Lemma flush_eq st s :
  flush P dbg refnames st s =
  match nth_error refnames (Z.to_nat (curr_ref st)) with
  | Some name => P name (add_trailing_gaps (curr_ref_seq st) (curr_ref_len st)) s
  | None => (s, if dbg then AssertException else Undefined)
  end.
Proof.
  unfold flush, elist_get, bind.
  destruct (nth_error refnames (Z.to_nat (curr_ref st))); [reflexivity|].
  now destruct dbg.
Qed.

(** One iteration, with any printer. *)
Lemma visit_eq st i s :
  visit P dbg refnames cat_ref jto st i s =
  let jp := jto (u32 i) in
  let st' := fun st0 => append_base st0 (u32 (textoff jp))
                          (nth (Z.to_nat i) cat_ref zero) in
  let fresh := reset_state (u32 (tidx jp)) (u32 (tlen jp)) in
  if mapped jp then
    if curr_ref st =? u32 (tidx jp) then (s, Normal (st' st))
    else if curr_ref st =? NONE32 then (s, Normal (st' fresh))
    else
      match nth_error refnames (Z.to_nat (curr_ref st)) with
      | Some name =>
          resume (P name (add_trailing_gaps (curr_ref_seq st) (curr_ref_len st)) s)
                 (Normal (st' fresh))
      | None => (s, if dbg then AssertException else Undefined)
      end
  else (s, Normal st).
Proof.
  cbv zeta. unfold visit. cbv zeta. fold (mapped (jto (u32 i))).
  destruct (mapped (jto (u32 i))); [|reflexivity].
  unfold bind at 1. unfold switch_reference.
  destruct (curr_ref st =? u32 (tidx (jto (u32 i)))); [reflexivity|].
  cbn [negb]. unfold bind at 1.
  destruct (curr_ref st =? NONE32); [reflexivity|].
  cbn [negb]. rewrite flush_eq.
  destruct (nth_error refnames (Z.to_nat (curr_ref st))) as [name|].
  - unfold resume.
    destruct (P name (add_trailing_gaps (curr_ref_seq st) (curr_ref_len st)) s)
      as [s' [[]| | | |]]; reflexivity.
  - now destruct dbg.
Qed.

(** The log only grows. *)
Lemma visit_all_log_extends ps : forall st log,
  exists more,
    fst (visit_all log_record dbg refnames cat_ref jto st ps log) = log ++ more.
Proof.
  induction ps as [|i ps IH]; intros st log.
  - exists []. cbn. now rewrite app_nil_r.
  - cbn [visit_all]. unfold bind at 1. rewrite visit_log_eq. cbv zeta.
    destruct (mapped (jto (u32 i))); [|apply IH].
    destruct (curr_ref st =? u32 (tidx (jto (u32 i)))); [apply IH|].
    destruct (curr_ref st =? NONE32); [apply IH|].
    destruct (nth_error refnames (Z.to_nat (curr_ref st))) as [name|].
    + match goal with |- context [visit_all _ _ _ _ _ ?st1 ps ?log1] =>
        destruct (IH st1 log1) as [more Hm] end.
      rewrite Hm. eexists. now rewrite <- app_assoc.
    + exists []. destruct dbg; cbn; now rewrite app_nil_r.
Qed.

Lemma visit_all_replay ps : forall st log0 s0 s,
  replay P log0 s0 = (s, Normal tt) ->
  visit_all P dbg refnames cat_ref jto st ps s =
  resume (replay P (fst (visit_all log_record dbg refnames cat_ref jto st ps log0)) s0)
         (snd (visit_all log_record dbg refnames cat_ref jto st ps log0)).
Proof.
  induction ps as [|i ps IH]; intros st log0 s0 s Hrep.
  - cbn [visit_all]. unfold ret. cbn [fst snd]. now rewrite Hrep.
  - cbn [visit_all]. unfold bind at 1 2 3. rewrite visit_eq, visit_log_eq. cbv zeta.
    destruct (mapped (jto (u32 i))); [|now apply IH].
    destruct (curr_ref st =? u32 (tidx (jto (u32 i)))); [now apply IH|].
    destruct (curr_ref st =? NONE32); [now apply IH|].
    destruct (nth_error refnames (Z.to_nat (curr_ref st))) as [name|].
    + pose proof (replay_snoc log0 name
                    (add_trailing_gaps (curr_ref_seq st) (curr_ref_len st))
                    s0 s Hrep) as Hsn.
      destruct (P name (add_trailing_gaps (curr_ref_seq st) (curr_ref_len st)) s)
        as [s' o'] eqn:HP.
      destruct o' as [[]| | | |]; cbn [resume].
      * now apply IH.
      * match goal with |- context [visit_all log_record _ _ _ _ ?st1 ps ?log1] =>
          destruct (visit_all_log_extends ps st1 log1) as [more Hm] end.
        rewrite Hm, (replay_stuck _ more _ _ _ Hsn) by discriminate. reflexivity.
      * match goal with |- context [visit_all log_record _ _ _ _ ?st1 ps ?log1] =>
          destruct (visit_all_log_extends ps st1 log1) as [more Hm] end.
        rewrite Hm, (replay_stuck _ more _ _ _ Hsn) by discriminate. reflexivity.
      * match goal with |- context [visit_all log_record _ _ _ _ ?st1 ps ?log1] =>
          destruct (visit_all_log_extends ps st1 log1) as [more Hm] end.
        rewrite Hm, (replay_stuck _ more _ _ _ Hsn) by discriminate. reflexivity.
      * match goal with |- context [visit_all log_record _ _ _ _ ?st1 ps ?log1] =>
          destruct (visit_all_log_extends ps st1 log1) as [more Hm] end.
        rewrite Hm, (replay_stuck _ more _ _ _ Hsn) by discriminate. reflexivity.
    + destruct dbg; cbn [fst snd]; rewrite Hrep; reflexivity.
Qed.

(** The traversal with any printer prints the flushed records in order
    and ends as the logged traversal does, unless the printer throws
    first. *)
Lemma traverse_replay (s0 : Sink) :
  traverse P dbg refnames cat_ref jto s0 =
  resume (replay P (fst (flushed_records dbg refnames cat_ref jto)) s0)
         (snd (flushed_records dbg refnames cat_ref jto)).
Proof.
  unfold flushed_records, traverse. unfold bind at 1 2 3.
  rewrite (visit_all_replay _ traversal_init [] s0 s0) by reflexivity.
  destruct (visit_all log_record dbg refnames cat_ref jto traversal_init
              (upto (len cat_ref)) []) as [log o] eqn:Hv.
  cbn [fst snd].
  destruct (replay P log s0) as [s e] eqn:Hr.
  destruct o as [st| | | |].
  2-5: destruct e as [[]| | | |]; cbn [resume fst snd]; rewrite Hr; reflexivity.
  destruct e as [[]| | | |]; cbn [resume].
  1: { destruct (curr_ref st <? Z.of_nat (length refnames)).
       - rewrite flush_eq, flush_log_eq.
         destruct (nth_error refnames (Z.to_nat (curr_ref st))) as [name|].
         + cbn [fst snd]. rewrite (replay_snoc _ _ _ _ _ Hr).
           destruct (P name (add_trailing_gaps (curr_ref_seq st) (curr_ref_len st)) s)
             as [s' [[]| | | |]]; reflexivity.
         + cbn [fst snd]. rewrite Hr. now destruct dbg.
       - unfold ret. cbn [fst snd]. now rewrite Hr. }
  all: destruct (curr_ref st <? Z.of_nat (length refnames));
    [ rewrite flush_log_eq;
      destruct (nth_error refnames (Z.to_nat (curr_ref st))) as [name|];
      cbn [fst snd];
      [ rewrite (replay_stuck _ _ _ _ _ Hr) by discriminate; reflexivity
      | rewrite Hr; reflexivity ]
    | unfold ret; cbn [fst snd]; rewrite Hr; reflexivity ].
Qed.

End Replay.

(** [print_index_sequences] prints, with [print_fasta_record], exactly
    the records of [flushed_records], in order. *)
Lemma print_index_sequences_prints_flushed_records across dbg refnames
    cat_ref jto (fout : text) :
  print_index_sequences across dbg refnames cat_ref jto fout =
  resume (replay (print_fasta_record across)
            (fst (flushed_records dbg refnames cat_ref jto)) fout)
         (snd (flushed_records dbg refnames cat_ref jto)).
Proof. apply traverse_replay. Qed.

(** ** The scenario of two references *)

(** A traversal over two references: [chr1] of length 8 is first seen
    at offset 3 and has a gap before offset 7; an unmapped position
    separates it from [chr2] of length 3, of which two bases are seen. *)
Example traversal_of_two_references :
  print_index_sequences 60 true [str "chr1"; str "chr2"] (str "ACG-GG")
    (fun i =>
       if i =? 0 then {| tidx := 0; textoff := 3; tlen := 8 |}
       else if i =? 1 then {| tidx := 0; textoff := 4; tlen := 8 |}
       else if i =? 2 then {| tidx := 0; textoff := 7; tlen := 8 |}
       else if i =? 3 then {| tidx := NONE32; textoff := NONE32; tlen := NONE32 |}
       else {| tidx := 1; textoff := i - 4; tlen := 3 |}) []
  = (str ">chr1" ++ [nl] ++ str "NNNACNNG" ++ [nl] ++
     str ">chr2" ++ [nl] ++ str "GGN" ++ [nl], Normal tt).
Proof. reflexivity. Qed.

(** The packed store of [chr1 = ACGTACGTAC] and [chr2 = GGCCN]. *)
Example names_of_two_references :
  print_index_sequence_names [str "chr1"; str "chr2"] []
  = (str "chr1" ++ [nl] ++ str "chr2" ++ [nl], Normal tt).
Proof. reflexivity. Qed.

Example packed_store_of_two_references :
  print_ref_sequences true
    (fun refi i _ j =>
       nth (Z.to_nat (i + j))
         (if refi =? 0 then [0; 1; 2; 3; 0; 1; 2; 3; 0; 1] else [2; 2; 1; 1; 4]) 0)
    60 2 false [str "chr1"; str "chr2"] [10; 5] []
  = (str ">chr1" ++ [nl] ++ str "ACGTACGTAC" ++ [nl] ++
     str ">chr2" ++ [nl] ++ str "GGCCN" ++ [nl], Normal tt).
Proof. reflexivity. Qed.

(* ================================================================== *)
(** * Further properties *)

(** ** The formatter at every width *)

Lemma wrapped_lines_nil w : 0 < w -> wrapped_lines w [] = [].
Proof.
  intros Hw. unfold wrapped_lines, line_count. change (len []) with 0.
  rewrite Z.add_0_l, Z.div_small by lia. reflexivity.
Qed.

(** The first line is the first [w] characters, and the other lines
    wrap what is left. *)
Lemma wrapped_lines_cons w (t : text) :
  0 < w -> t <> [] ->
  wrapped_lines w t = firstn (Z.to_nat w) t :: wrapped_lines w (skipn (Z.to_nat w) t).
Proof.
  intros Hw Hne.
  assert (Hpos : 0 < len t) by (unfold len; destruct t; [congruence|simpl; lia]).
  assert (Hl : len (skipn (Z.to_nat w) t) = Z.max 0 (len t - w)).
  { unfold len. rewrite length_skipn. lia. }
  assert (Hn : line_count w (len t) = line_count w (len (skipn (Z.to_nat w) t)) + 1).
  { rewrite Hl. unfold line_count.
    destruct (Z.max_spec 0 (len t - w)) as [[H ->]|[H ->]].
    - replace (len t - w + w - 1) with (len t - 1) by lia.
      replace (len t + w - 1) with (len t - 1 + 1 * w) by lia.
      now rewrite Z.div_add by lia.
    - rewrite (Z.div_small (0 + w - 1)) by lia.
      replace (len t + w - 1) with (len t - 1 + 1 * w) by lia.
      rewrite Z.div_add by lia. rewrite Z.div_small by lia. reflexivity. }
  unfold wrapped_lines. rewrite Hn.
  pose proof (line_count_bounds w (len (skipn (Z.to_nat w) t)) Hw (len_nonneg _))
    as (_ & _ & Hnn).
  unfold upto.
  replace (Z.to_nat (line_count w (len (skipn (Z.to_nat w) t)) + 1))
    with (S (Z.to_nat (line_count w (len (skipn (Z.to_nat w) t))))) by lia.
  cbn [List.seq map]. f_equal.
  rewrite <- seq_shift, !map_map. apply map_ext. intros k.
  unfold wrapped_line, substr. rewrite skipn_skipn. do 2 f_equal. nia.
Qed.

Lemma wrap_from_app w p (a b : text) :
  wrap_from w p (a ++ b) = wrap_from w p a ++ wrap_from w (p + len a) b.
Proof.
  revert p. induction a as [|c a IH]; intros p.
  - cbn. now rewrite Z.add_0_r.
  - cbn [app wrap_from]. rewrite IH, <- app_assoc. cbn [app].
    replace (p + len (c :: a)) with (p + 1 + len a); [reflexivity|].
    unfold len. cbn [length]. lia.
Qed.

(** No newline is put within a line. *)
Lemma wrap_from_within w (a : text) : forall p,
  0 < w -> 0 <= p -> p + len a <= w ->
  wrap_from w p a =
  match a with
  | [] => []
  | _ => (if (0 <? p) && (p mod w =? 0) then [nl] else []) ++ a
  end.
Proof.
  induction a as [|c a IH]; intros p Hw Hp Hle; [reflexivity|].
  cbn [wrap_from]. f_equal. f_equal.
  unfold len in Hle. cbn [length] in Hle.
  rewrite IH by (unfold len; lia).
  destruct a as [|d a]; [reflexivity|].
  unfold len in Hle. cbn [length] in Hle.
  destruct (Z.ltb_spec 0 (p + 1)); [|lia].
  rewrite Z.mod_small by lia.
  destruct (Z.eqb_spec (p + 1) 0); [lia|]. reflexivity.
Qed.

Lemma wrap_from_first_line w (a : text) :
  0 < w -> len a <= w -> wrap_from w 0 a = a.
Proof.
  intros Hw Hle. rewrite wrap_from_within by lia. now destruct a.
Qed.

(** Numbering from a multiple of the width further on changes
    nothing after the first character. *)
Lemma wrap_from_shift w q (t : text) : forall p,
  0 < w -> 1 <= p -> 0 <= q ->
  wrap_from w (p + q * w) t = wrap_from w p t.
Proof.
  induction t as [|c t IH]; intros p Hw Hp Hq; [reflexivity|].
  cbn [wrap_from]. rewrite Z.mod_add by lia.
  destruct (Z.ltb_spec 0 (p + q * w)); [|nia].
  destruct (Z.ltb_spec 0 p); [|lia].
  f_equal. f_equal.
  replace (p + q * w + 1) with (p + 1 + q * w) by lia.
  apply IH; lia.
Qed.

(** What follows a whole number of lines starts on a new line. *)
Lemma wrap_from_multiple w q (t : text) :
  0 < w -> 1 <= q -> t <> [] ->
  wrap_from w (q * w) t = nl :: wrap_from w 0 t.
Proof.
  intros Hw Hq Hne. destruct t as [|c t]; [congruence|].
  cbn [wrap_from]. rewrite Z.mod_mul by lia.
  destruct (Z.ltb_spec 0 (q * w)); [|nia].
  cbn. f_equal. f_equal.
  replace (q * w + 1) with (1 + q * w) by lia.
  apply wrap_from_shift; lia.
Qed.

(** The wrapped lines, each with its newline, are the text with a
    newline before every [w]-th character and one at the end. *)
Lemma wrap_from_lines w : 0 < w ->
  forall (fuel : nat) (t : text),
    (length t <= fuel)%nat -> t <> [] ->
    unlines (wrapped_lines w t) = wrap_from w 0 t ++ [nl].
Proof.
  intros Hw. induction fuel as [|fuel IH]; intros t Hf Hne.
  - destruct t; [congruence|cbn in Hf; lia].
  - rewrite wrapped_lines_cons by assumption.
    unfold unlines. cbn [map concat]. fold (unlines (wrapped_lines w (skipn (Z.to_nat w) t))).
    rewrite <- (firstn_skipn (Z.to_nat w) t) at 3.
    rewrite wrap_from_app.
    assert (Hfl : len (firstn (Z.to_nat w) t) = Z.min w (len t)).
    { unfold len. rewrite length_firstn. lia. }
    rewrite (wrap_from_first_line w (firstn (Z.to_nat w) t)) by lia.
    destruct (skipn (Z.to_nat w) t) as [|d r] eqn:Es.
    + rewrite wrapped_lines_nil by assumption. cbn [wrap_from unlines map concat].
      now rewrite !app_nil_r.
    + assert (Hlt : w < len t).
      { assert (len (skipn (Z.to_nat w) t) > 0) by (rewrite Es; unfold len; cbn; lia).
        unfold len in *. rewrite length_skipn in H. lia. }
      rewrite Hfl, Z.min_l by lia. rewrite Z.add_0_l.
      assert (E : wrap_from w w (d :: r) = nl :: wrap_from w 0 (d :: r)).
      { pose proof (wrap_from_multiple w 1 (d :: r) Hw ltac:(lia)
                      ltac:(discriminate)) as E.
        now rewrite Z.mul_1_l in E. }
      rewrite E, IH.
      * rewrite <- !app_assoc. reflexivity.
      * rewrite <- Es, length_skipn. lia.
      * discriminate.
Qed.

(** At a positive width [print_fasta_record] writes the header and
    the wrapped lines, for every sequence, the empty one included. *)
Lemma print_fasta_record_wrapped w (defline seq fout : text) :
  0 < w -> w <= INT_MAX -> len seq <= string_max_size ->
  print_fasta_record w defline seq fout =
    (fout ++ str ">" ++ defline ++ [nl] ++ unlines (wrapped_lines w seq), Normal tt).
Proof.
  intros Hw Hmax Hsz.
  assert (D : seq = [] \/ seq <> [])
    by (destruct seq; [now left|right; discriminate]).
  destruct D as [->|Hne].
  { rewrite wrapped_lines_nil by assumption.
    unfold print_fasta_record, bind, put, ret.
    destruct (Z.ltb_spec 0 w) as [_|]; [|lia].
    cbn [length fasta_full_lines]. change (len []) with 0.
    rewrite Z.add_0_l, usize_small by (unfold INT_MAX in *; lia).
    destruct (Z.ltb_spec w 0); [lia|]. unfold ret. cbn.
    now rewrite <- !app_assoc. }
  set (n := line_count w (len seq)).
  pose proof (line_count_bounds w (len seq) Hw (len_nonneg seq)) as (B1 & B2 & B3).
  fold n in B1, B2, B3.
  assert (Hpos : 0 < len seq).
  { unfold len. destruct seq; [congruence|simpl; lia]. }
  assert (Hn1 : 1 <= n) by nia.
  assert (Hwrap : len seq + w < 2 ^ 64).
  { unfold string_max_size, INT_MAX in *. lia. }
  unfold print_fasta_record, bind, put, ret.
  destruct (Z.ltb_spec 0 w) as [_|]; [|lia].
  change 0 with (0 * w) at 1.
  rewrite (fasta_full_lines_run w seq Hw Hwrap (Z.to_nat (n - 1)) 0).
  - fold n. destruct (Z.ltb_spec ((n - 1) * w) (len seq)) as [_|]; [|lia].
    f_equal. unfold n at 2. rewrite last_line_is_rest by assumption. fold n.
    unfold wrapped_lines. fold n.
    replace n with (n - 1 + 1) at 3 by lia.
    rewrite upto_succ by lia. rewrite map_app.
    unfold unlines. rewrite map_app, concat_app. simpl.
    unfold upto. rewrite <- !app_assoc. simpl. reflexivity.
  - lia.
  - fold n. lia.
  - unfold len in *. nia.
Qed.

Lemma remove_newlines_app (a b : text) :
  remove_newlines (a ++ b) = remove_newlines a ++ remove_newlines b.
Proof. apply filter_app. Qed.

Lemma remove_newlines_unlines (ls : list text) :
  remove_newlines (unlines ls) = remove_newlines (concat ls).
Proof.
  induction ls as [|l ls IH]; [reflexivity|].
  unfold unlines in *. cbn [map concat].
  rewrite !remove_newlines_app, IH. cbn. now rewrite app_nil_r.
Qed.

Lemma concat_wrapped_lines w (seq : text) :
  0 < w -> concat (wrapped_lines w seq) = seq.
Proof.
  intros Hw.
  pose proof (line_count_bounds w (len seq) Hw (len_nonneg seq)) as (B1 & B2 & B3).
  unfold wrapped_lines. rewrite concat_wrapped_prefix by lia.
  apply firstn_all2. unfold len in *. nia.
Qed.

Lemma wrapped_lines_lengths w (seq : text) :
  0 < w -> Forall (fun l => 0 < len l <= w) (wrapped_lines w seq).
Proof.
  intros Hw.
  pose proof (line_count_bounds w (len seq) Hw (len_nonneg seq)) as (B1 & B2 & B3).
  unfold wrapped_lines. rewrite Forall_map, Forall_forall.
  intros k Hk. apply in_upto in Hk.
  rewrite wrapped_line_length by lia. nia.
Qed.

(** X1.  At every width the formatter writes the header line and then
    lines that spell the sequence and hold nothing else: at a positive
    width no line is empty or longer than the width (so an empty
    sequence gets no line), at a width of 0 or less there is exactly one
    line, the sequence itself (an empty line for the empty sequence).
    Deleting the newlines of the body gives back the sequence without
    its own. *)
Theorem formatter_adds_only_newlines (w : Z) (defline seq fout : text) :
  w <= INT_MAX -> len seq <= string_max_size ->
  exists lines,
    print_fasta_record w defline seq fout =
      (fout ++ str ">" ++ defline ++ [nl] ++ unlines lines, Normal tt)
    /\ concat lines = seq
    /\ (0 < w -> Forall (fun l => 0 < len l <= w) lines)
    /\ (w <= 0 -> lines = [seq])
    /\ remove_newlines (unlines lines) = remove_newlines seq.
Proof.
  intros Hmax Hsz.
  destruct (Z.ltb_spec 0 w) as [Hw|Hw].
  - exists (wrapped_lines w seq).
    split; [now apply print_fasta_record_wrapped|].
    split; [now apply concat_wrapped_lines|].
    split; [intros _; now apply wrapped_lines_lengths|].
    split; [lia|].
    now rewrite remove_newlines_unlines, concat_wrapped_lines.
  - exists [seq].
    split.
    { rewrite print_fasta_record_unwrapped by assumption.
      unfold unlines. cbn [map concat]. now rewrite app_nil_r. }
    split; [cbn; now rewrite app_nil_r|].
    split; [lia|]. split; [reflexivity|].
    rewrite remove_newlines_unlines. cbn. now rewrite app_nil_r.
Qed.

(** X1 on the ten bases [ACGTACGTAC] at width 4. *)
Lemma formatter_adds_only_newlines_witness :
  exists lines,
    print_fasta_record 4 (str "chr1") (str "ACGTACGTAC") [] =
      ([] ++ str ">" ++ str "chr1" ++ [nl] ++ unlines lines, Normal tt)
    /\ concat lines = str "ACGTACGTAC"
    /\ (0 < 4 -> Forall (fun l => 0 < len l <= 4) lines)
    /\ (4 <= 0 -> lines = [str "ACGTACGTAC"])
    /\ remove_newlines (unlines lines) = remove_newlines (str "ACGTACGTAC").
Proof.
  apply (formatter_adds_only_newlines 4 (str "chr1") (str "ACGTACGTAC") []).
  - unfold INT_MAX. lia.
  - vm_compute. discriminate.
Defined.

(** ** The packed-store path at a positive width *)

(** One base whose byte is in range, in any build. *)
Lemma print_base_in_range dbg newlines w cb j (fout : text) :
  0 <= cb j mod 256 <= 4 ->
  print_base dbg newlines w cb j fout =
  (fout ++ (if newlines && (0 <? j) && (j mod w =? 0) then [nl] else [])
        ++ [nth (Z.to_nat (cb j mod 256)) ACGTN zero], Normal tt).
Proof.
  intros Hb.
  unfold print_base, assert_range, assert_that, put_base, bind.
  destruct (Z.leb_spec 0 (cb j mod 256)); [|lia].
  destruct (Z.leb_spec (cb j mod 256) 4); [|lia].
  cbn [andb].
  destruct (base_symbol (cb j mod 256) Hb) as (c & Hc & _).
  rewrite Hc. rewrite (nth_error_nth _ _ zero Hc).
  destruct (newlines && (0 <? j) && (j mod w =? 0)); destruct dbg;
    unfold put, ret; cbn [app]; rewrite <- ?app_assoc; rewrite ?app_nil_r;
    reflexivity.
Qed.

(** A window printed with wrapping: its symbols with a newline before
    every [w]-th. *)
Lemma print_bases_wrapped dbg w cb (m : nat) : forall (a : nat) (fout : text),
  (forall j, Z.of_nat a <= j < Z.of_nat (a + m) -> 0 <= cb j mod 256 <= 4) ->
  for_each (print_base dbg true w cb) (map Z.of_nat (List.seq a m)) fout =
  (fout ++ wrap_from w (Z.of_nat a)
             (map (fun j => nth (Z.to_nat (cb j mod 256)) ACGTN zero)
                  (map Z.of_nat (List.seq a m))), Normal tt).
Proof.
  induction m as [|m IH]; intros a fout Hr.
  - cbn. unfold ret. now rewrite app_nil_r.
  - cbn [List.seq map for_each wrap_from]. unfold bind at 1.
    rewrite print_base_in_range by (apply Hr; lia).
    cbn [andb]. rewrite IH by (intros; apply Hr; lia).
    f_equal. rewrite <- !app_assoc. cbn [app].
    replace (Z.of_nat a + 1) with (Z.of_nat (S a)) by lia. reflexivity.
Qed.

Lemma decoded_range_app content a m1 m2 :
  decoded_range content a (m1 + m2) =
  decoded_range content a m1 ++ decoded_range content (a + m1) m2.
Proof. unfold decoded_range. now rewrite seq_app, !map_app. Qed.

Lemma decoded_range_length content a m :
  length (decoded_range content a m) = m.
Proof. unfold decoded_range. now rewrite !length_map, length_seq. Qed.

(** The symbols of the window that starts at base [a]. *)
Lemma window_symbols gs refi content (a amt : nat) :
  decodes gs refi content ->
  map (fun j => nth (Z.to_nat (gs refi (Z.of_nat a) (Z.of_nat amt) j mod 256))
                  ACGTN zero)
      (map Z.of_nat (List.seq 0 amt))
  = decoded_range content a amt.
Proof.
  intros [Hd _]. unfold decoded_range.
  assert (G : forall m b,
    (b + m <= amt)%nat ->
    map (fun j => nth (Z.to_nat (gs refi (Z.of_nat a) (Z.of_nat amt) j mod 256))
                    ACGTN zero) (map Z.of_nat (List.seq b m))
    = map (fun p => nth (Z.to_nat (content p)) ACGTN zero)
          (map Z.of_nat (List.seq (a + b) m))).
  { induction m as [|m IHm]; intros b Hb; [reflexivity|].
    cbn [List.seq map]. f_equal.
    - rewrite Hd by lia. now rewrite Nat2Z.inj_add.
    - rewrite IHm by lia. now rewrite Nat.add_succ_r. }
  rewrite (G amt 0%nat) by lia. now rewrite Nat.add_0_r.
Qed.

(** The windows printed with wrapping, from base [a] on: what is left
    of the reference with a newline before every [w]-th symbol and one
    at the end, the window size being a multiple of [w]. *)
Lemma print_windows_wrapped dbg gs w q refi content (Ln : nat) :
  0 < w -> 1 <= q -> decodes gs refi content ->
  Z.of_nat Ln + q * w < 2 ^ 64 ->
  forall (fuel a : nat) (fout : text),
    Z.of_nat Ln - Z.of_nat a <= (Z.of_nat fuel - 1) * (q * w) -> (1 <= fuel)%nat ->
    print_windows dbg gs fuel true w (q * w) refi (Z.of_nat Ln) (Z.of_nat a) fout =
    (fout ++ (if (a <? Ln)%nat
              then wrap_from w 0 (decoded_range content a (Ln - a)) ++ [nl]
              else []), Normal tt).
Proof.
  intros Hw Hq Hdec Hwrap.
  assert (Hincr : 1 <= q * w) by nia.
  induction fuel as [|fuel IH]; intros a fout Hfuel Hone; [lia|].
  rewrite print_windows_eq.
  destruct (Nat.ltb_spec a Ln) as [Hlt|Hge].
  2: { destruct (Z.ltb_spec (Z.of_nat a) (Z.of_nat Ln)); [lia|].
       unfold ret. now rewrite app_nil_r. }
  destruct (Z.ltb_spec (Z.of_nat a) (Z.of_nat Ln)) as [_|]; [|lia].
  cbv zeta.
  set (amt := Nat.min (Z.to_nat (q * w)) (Ln - a)).
  replace (Z.min (q * w) (Z.of_nat Ln - Z.of_nat a)) with (Z.of_nat amt)
    by (unfold amt; lia).
  unfold bind at 1. unfold assert_that.
  assert (A : forall s : text,
            (if dbg then (if Z.of_nat amt <=? q * w then ret tt
                          else raise AssertException) else ret tt) s
            = (s, Normal tt)).
  { intros s. destruct dbg; [|reflexivity].
    destruct (Z.leb_spec (Z.of_nat amt) (q * w)); [reflexivity|unfold amt in *; lia]. }
  rewrite A. unfold bind at 1.
  unfold upto. rewrite Nat2Z.id.
  rewrite print_bases_wrapped.
  2: { intros j Hj. destruct Hdec as [Hd Hc]. rewrite Hd by lia. apply Hc. }
  rewrite (window_symbols gs refi content a amt Hdec).
  unfold bind at 1. unfold put at 1.
  rewrite usize_small by lia.
  replace (Z.of_nat a + q * w) with (Z.of_nat (a + Z.to_nat (q * w))) by lia.
  rewrite IH by lia.
  f_equal. change (Z.of_nat 0) with 0.
  destruct (Nat.ltb_spec (a + Z.to_nat (q * w)) Ln) as [Hmore|Hlast].
  - assert (Ea : amt = Z.to_nat (q * w)) by (unfold amt; lia).
    replace (Ln - a)%nat with (amt + (Ln - (a + Z.to_nat (q * w))))%nat by lia.
    rewrite decoded_range_app, wrap_from_app, Z.add_0_l.
    replace (len (decoded_range content a amt)) with (q * w)
      by (unfold len; rewrite decoded_range_length; lia).
    rewrite wrap_from_multiple; try assumption.
    + rewrite Ea. rewrite <- !app_assoc. reflexivity.
    + intros E. apply (f_equal (@length ascii)) in E.
      rewrite decoded_range_length in E. cbn in E. lia.
  - assert (Ea : amt = (Ln - a)%nat) by (unfold amt; lia).
    rewrite Ea, app_nil_r. now rewrite <- app_assoc.
Qed.

Lemma window_size_positive w : 0 < w -> window_size w = 1000 * w.
Proof.
  intros Hw. unfold window_size. destruct (Z.ltb_spec 0 w); lia.
Qed.

(** At a positive width [print_ref_sequence] writes the header and the
    decoded reference with a newline before every [w]-th symbol and one
    at the end, or the header alone for a reference of no bases. *)
Lemma print_ref_sequence_wrapped dbg gs w name refi content ref_len (fout : text) :
  0 < w -> w <= 2147483 -> 0 <= ref_len < 2 ^ 63 ->
  decodes gs refi content ->
  print_ref_sequence dbg gs w name refi ref_len fout =
  (fout ++ str ">" ++ name ++ [nl] ++
   (if 0 <? ref_len
    then wrap_from w 0 (decoded_reference content ref_len) ++ [nl]
    else []), Normal tt).
Proof.
  intros Hw Hmax Hlen Hdec. unfold print_ref_sequence.
  destruct (Z.ltb_spec 0 w) as [_|]; [|lia].
  destruct (Z.ltb_spec INT_MAX (w * 1000)) as [Hov|_];
    [unfold INT_MAX in Hov; lia|].
  unfold bind at 1 2 3. unfold put at 1 2 3.
  replace (w * 1000) with (1000 * w) by lia.
  pose proof (print_windows_wrapped dbg gs w 1000 refi content (Z.to_nat ref_len)
                Hw ltac:(lia) Hdec) as R.
  rewrite Z2Nat.id in R by lia.
  specialize (R ltac:(lia) (S (S (Z.to_nat (ref_len / (1000 * w))))) 0%nat
                (((fout ++ str ">") ++ name) ++ [nl])).
  change (Z.of_nat 0) with 0 in R.
  rewrite R.
  - f_equal. rewrite <- !app_assoc. do 3 f_equal.
    unfold decoded_reference. rewrite Nat.sub_0_r.
    destruct (Nat.ltb_spec 0 (Z.to_nat ref_len));
      destruct (Z.ltb_spec 0 ref_len); try lia; reflexivity.
  - pose proof (Z.div_mod ref_len (1000 * w) ltac:(lia)) as D.
    pose proof (Z.mod_pos_bound ref_len (1000 * w) ltac:(lia)) as B.
    assert (0 <= ref_len / (1000 * w)) by (apply Z.div_pos; lia).
    nia.
  - lia.
Qed.

(** The two ways of writing the wrapped body agree. *)
Lemma wrapped_body_of_reference w content ref_len :
  0 < w -> 0 <= ref_len ->
  (if 0 <? ref_len
   then wrap_from w 0 (decoded_reference content ref_len) ++ [nl]
   else [])
  = unlines (wrapped_lines w (decoded_reference content ref_len)).
Proof.
  intros Hw Hlen.
  assert (Hl : len (decoded_reference content ref_len) = ref_len).
  { unfold len, decoded_reference. rewrite decoded_range_length. lia. }
  destruct (Z.ltb_spec 0 ref_len) as [Hpos|Hz].
  - symmetry. apply (wrap_from_lines w Hw (length (decoded_reference content ref_len)));
      [lia|].
    intros E. rewrite E in Hl. change (len []) with 0 in Hl. lia.
  - assert (ref_len = 0) by lia. subst ref_len.
    change (decoded_reference content 0) with (@nil ascii).
    now rewrite wrapped_lines_nil.
Qed.

(** X2.  At a positive width the packed-store path prints a reference
    exactly as the formatter prints its decoded sequence: for a store
    that [getStretch] decodes consistently into base codes,
    [print_ref_sequence] and [print_fasta_record] write the same text,
    header and wrapped lines, also for a reference of no bases (the
    header alone). *)
Theorem packed_path_matches_formatter (dbg : assertions)
    (getStretch : Z -> Z -> Z -> Z -> Z) (content : Z -> Z)
    (w : Z) (name : text) (refi ref_len : Z) (fout : text) :
  0 < w -> w <= 2147483 -> 0 <= ref_len <= string_max_size ->
  decodes getStretch refi content ->
  print_ref_sequence dbg getStretch w name refi ref_len fout =
  print_fasta_record w name (decoded_reference content ref_len) fout.
Proof.
  intros Hw Hmax Hlen Hdec.
  assert (Hl : len (decoded_reference content ref_len) = ref_len).
  { unfold len, decoded_reference. rewrite decoded_range_length. lia. }
  rewrite (print_ref_sequence_wrapped dbg getStretch w name refi content);
    try assumption; try (unfold string_max_size in *; lia).
  rewrite print_fasta_record_wrapped;
    try assumption; try (unfold INT_MAX; lia); try (rewrite Hl; lia).
  rewrite wrapped_body_of_reference by lia. reflexivity.
Qed.

(** X2 on a reference of seven bases at width 3. *)
Lemma packed_path_matches_formatter_witness :
  let content := fun p : Z => p mod 4 in
  let gs := fun (_ i _ j : Z) => (i + j) mod 4 in
  print_ref_sequence true gs 3 (str "chr1") 0 7 [] =
  print_fasta_record 3 (str "chr1") (decoded_reference content 7) [].
Proof.
  intros content gs.
  apply (packed_path_matches_formatter true gs content 3 (str "chr1") 0 7 []).
  - lia.
  - lia.
  - unfold string_max_size. lia.
  - split.
    + intros i amt j _. unfold gs, content.
      apply Z.mod_small.
      pose proof (Z.mod_pos_bound (i + j) 4 ltac:(lia)). lia.
    + intros p. unfold content.
      pose proof (Z.mod_pos_bound p 4 ltac:(lia)). lia.
Defined.

Example packed_path_wrapped_output :
  print_ref_sequence true (fun _ i _ j => (i + j) mod 4) 3 (str "chr1") 0 7 []
  = (str ">chr1" ++ [nl] ++ str "ACG" ++ [nl] ++ str "TAC" ++ [nl] ++
     str "G" ++ [nl], Normal tt).
Proof. reflexivity. Qed.

(** ** The packed-store path over all references *)

Lemma for_each_map {S A B} (g : B -> M S unit) (h : A -> B) (l : list A) (s : S) :
  for_each g (map h l) s = for_each (fun x => g (h x)) l s.
Proof.
  revert s. induction l as [|x l IH]; intros s; [reflexivity|].
  cbn [map for_each]. unfold bind.
  destruct (g (h x) s) as [s' [[]| | | |]]; try reflexivity. apply IH.
Qed.

Lemma for_each_ext_in {S A} (f g : A -> M S unit) (l : list A) :
  (forall x s, In x l -> f x s = g x s) ->
  forall s, for_each f l s = for_each g l s.
Proof.
  induction l as [|x l IH]; intros H s; [reflexivity|].
  cbn [for_each]. unfold bind. rewrite (H x s) by now left.
  destruct (g x s) as [s' [[]| | | |]]; try reflexivity.
  apply IH. intros y s0 Hy. apply H. now right.
Qed.

(** X3.  At a positive width the default mode prints the packed store
    as the formatter would print its decoded references one after the
    other in ordinal order, each under its name and with [plen[i]]
    bases, one more for a colorspace store; the reference count being
    the number of names and of lengths. *)
Theorem packed_store_prints_each_reference (dbg : assertions)
    (getStretch : Z -> Z -> Z -> Z -> Z) (contents : Z -> Z -> Z)
    (w numRefs : Z) (color : bool) (refnames : list text) (plen : list Z)
    (fout : text) :
  0 < w -> w <= 2147483 ->
  numRefs = Z.of_nat (length refnames) ->
  length plen = length refnames ->
  Forall (fun n => 0 <= n /\ n + 1 < 2 ^ 32) plen ->
  (forall i, decodes getStretch i (contents i)) ->
  print_ref_sequences dbg getStretch w numRefs color refnames plen fout =
  replay (print_fasta_record w)
    (map (decoded_record refnames plen color contents) (upto numRefs)) fout.
Proof.
  intros Hw Hmax Hn Hlen Hrange Hdec.
  unfold print_ref_sequences, replay. unfold bind at 1. unfold assert_that.
  destruct (Z.eqb_spec numRefs (Z.of_nat (length refnames))) as [_|]; [|contradiction].
  assert (A : (if dbg then ret tt else ret tt) fout = (fout, Normal tt))
    by now destruct dbg.
  rewrite A, for_each_map.
  apply for_each_ext_in. intros i s Hi. apply in_upto in Hi.
  assert (Hname : nth_error refnames (Z.to_nat i) = Some (nth (Z.to_nat i) refnames []))
    by (apply nth_error_nth'; lia).
  assert (Hp : nth_error plen (Z.to_nat i) = Some (nth (Z.to_nat i) plen 0))
    by (apply nth_error_nth'; lia).
  assert (Hr : 0 <= nth (Z.to_nat i) plen 0 /\ nth (Z.to_nat i) plen 0 + 1 < 2 ^ 32).
  { rewrite Forall_forall in Hrange. apply Hrange, nth_In. lia. }
  unfold bind, elist_get, plen_get. rewrite Hname, Hp. unfold ret.
  rewrite (u32_small (nth (Z.to_nat i) plen 0)) by lia.
  rewrite u32_small by (destruct color; lia).
  unfold decoded_record. cbn [fst snd].
  set (n := nth (Z.to_nat i) plen 0 + (if color then 1 else 0)).
  assert (Hnn : 0 <= n < 2 ^ 32) by (unfold n; destruct color; lia).
  assert (Hl : len (decoded_reference (contents i) n) = n).
  { unfold len, decoded_reference. rewrite decoded_range_length. lia. }
  rewrite (print_ref_sequence_wrapped dbg getStretch w _ i (contents i));
    try assumption; try lia; [|apply Hdec].
  rewrite print_fasta_record_wrapped;
    try assumption; try (unfold INT_MAX; lia);
    try (rewrite Hl; unfold string_max_size; lia).
  rewrite wrapped_body_of_reference by lia. reflexivity.
Qed.

(** X3 on the store of [chr1 = ACGTACGTAC] and [chr2 = GGCCN]. *)
Lemma packed_store_prints_each_reference_witness :
  let contents := fun refi p : Z =>
    if (0 <=? p) && (p <? 10)
    then nth (Z.to_nat p)
           (if refi =? 0 then [0; 1; 2; 3; 0; 1; 2; 3; 0; 1] else [2; 2; 1; 1; 4]) 0
    else 0 in
  let gs := fun (refi i _ j : Z) => contents refi (i + j) in
  print_ref_sequences true gs 4 2 false [str "chr1"; str "chr2"] [10; 5] [] =
  replay (print_fasta_record 4)
    (map (decoded_record [str "chr1"; str "chr2"] [10; 5] false contents)
         (upto 2)) [].
Proof.
  intros contents gs.
  assert (Hc : forall i p, 0 <= contents i p <= 4).
  { intros i p. unfold contents.
    destruct ((0 <=? p) && (p <? 10)) eqn:E; [|lia].
    apply andb_prop in E as [E1 E2].
    apply Z.leb_le in E1. apply Z.ltb_lt in E2.
    assert (C : p = 0 \/ p = 1 \/ p = 2 \/ p = 3 \/ p = 4 \/ p = 5 \/ p = 6 \/
                p = 7 \/ p = 8 \/ p = 9) by lia.
    destruct (i =? 0);
      destruct C as [C|[C|[C|[C|[C|[C|[C|[C|[C|C]]]]]]]]]; rewrite C;
      vm_compute; split; discriminate. }
  apply (packed_store_prints_each_reference true gs contents 4 2 false
           [str "chr1"; str "chr2"] [10; 5] []).
  - lia.
  - lia.
  - reflexivity.
  - reflexivity.
  - repeat constructor; lia.
  - intros i. split; [|apply Hc].
    intros i0 amt j _. unfold gs. apply Z.mod_small.
    specialize (Hc i (i0 + j)). lia.
Defined.

(** ** The traversal: what the flushed sequences hold *)

Lemma char_at_app_l (a b : text) p :
  0 <= p < len a -> char_at (a ++ b) p = char_at a p.
Proof.
  intros H. unfold char_at, len in *. apply app_nth1. lia.
Qed.

Lemma char_at_app_r (a b : text) p :
  len a <= p -> char_at (a ++ b) p = char_at b (p - len a).
Proof.
  intros H. unfold char_at, len in *. rewrite app_nth2 by lia.
  f_equal. lia.
Qed.

Lemma char_at_fill n c p :
  0 <= p < n -> char_at (fill n c) p = c.
Proof.
  intros H. unfold char_at, fill.
  rewrite (nth_indep _ zero c) by (rewrite repeat_length; lia).
  apply nth_repeat.
Qed.

(** The gap before a base that is not the first of its reference. *)
Lemma gap_fill_next last toff :
  0 <= last < toff -> toff < 2 ^ 32 ->
  gap_fill (textoff_adj false toff) last = fill (toff - last - 1) "N".
Proof.
  intros Hlt Hb. unfold textoff_adj, gap_fill. cbn [andb].
  rewrite (u32_small (toff - last)) by lia.
  destruct (Z.ltb_spec 1 (toff - last)).
  - now rewrite u32_small by lia.
  - replace (toff - last - 1) with 0 by lia. reflexivity.
Qed.

(** The gap before the first base of a reference. *)
Lemma gap_fill_first toff :
  0 <= toff -> toff + 1 < 2 ^ 32 ->
  gap_fill (textoff_adj true toff) 0 = fill toff "N".
Proof.
  intros H0 Hb. unfold textoff_adj, gap_fill. cbn [andb].
  destruct (Z.ltb_spec 0 toff).
  - rewrite (u32_small (toff + 1)) by lia. rewrite Z.sub_0_r.
    rewrite (u32_small (toff + 1)) by lia.
    destruct (Z.ltb_spec 1 (toff + 1)); [|lia].
    replace (toff + 1 - 1) with toff by lia. now rewrite u32_small by lia.
  - assert (toff = 0) by lia. subst. reflexivity.
Qed.

(** A sequence, a gap and a base: what is at each index. *)
Lemma char_at_gap_base (s : text) n c p :
  0 <= n -> 0 <= p <= len s + n ->
  char_at ((s ++ fill n "N") ++ [c]) p =
  if p <? len s then char_at s p
  else if p <? len s + n then "N"%char else c.
Proof.
  intros Hn Hp. pose proof (len_nonneg s).
  destruct (Z.ltb_spec p (len s)).
  - rewrite char_at_app_l by (rewrite len_app, len_fill; lia).
    now rewrite char_at_app_l by lia.
  - destruct (Z.ltb_spec p (len s + n)).
    + rewrite char_at_app_l by (rewrite len_app, len_fill; lia).
      rewrite char_at_app_r by lia. apply char_at_fill. lia.
    + rewrite char_at_app_r by (rewrite len_app, len_fill; lia).
      rewrite len_app, len_fill by lia.
      replace (p - (len s + n)) with 0 by lia. reflexivity.
Qed.

(** Padding keeps what the sequence holds and adds ambiguity symbols
    only. *)
Lemma char_at_trailing_gaps (s : text) ref_len p :
  0 <= p < len (add_trailing_gaps s ref_len) ->
  char_at (add_trailing_gaps s ref_len) p =
  if p <? len s then char_at s p else "N"%char.
Proof.
  unfold add_trailing_gaps. destruct (Z.ltb_spec (len s) ref_len).
  - intros Hp. destruct (Z.ltb_spec p (len s)).
    + now apply char_at_app_l.
    + rewrite char_at_app_r by lia.
      unfold char_at, fill.
      rewrite len_app in Hp. unfold len, fill in Hp. rewrite repeat_length in Hp.
      rewrite (nth_indep _ zero "N"%char)
        by (rewrite repeat_length; unfold len in *; lia).
      apply nth_repeat.
  - intros Hp. destruct (Z.ltb_spec p (len s)); [reflexivity|lia].
Qed.

Lemma len_trailing_gaps (s : text) ref_len :
  len s <= len (add_trailing_gaps s ref_len).
Proof.
  unfold add_trailing_gaps. destruct (len s <? ref_len); [|lia].
  rewrite len_app. pose proof (len_nonneg (fill (usize (ref_len - len s)) "N")). lia.
Qed.

(** X4.  When the offsets mapped for a reference strictly increase
    along the traversal, every character of a flushed sequence is
    either the ambiguity symbol or the base of a visited position
    mapped to that reference at that very offset: the traversal never
    puts a base anywhere but at its offset. *)
Theorem flushed_symbols_are_observed (dbg : assertions)
    (refnames : list text) (cat_ref : text)
    (joinedToTextOff : Z -> JoinedPosition) :
  Z.of_nat (length refnames) <= NONE32 ->
  offsets_increase cat_ref joinedToTextOff ->
  forall name seq,
    In (name, seq) (fst (flushed_records dbg refnames cat_ref joinedToTextOff)) ->
    forall p, 0 <= p < len seq ->
      char_at seq p = "N"%char
      \/ exists i, 0 <= i < len cat_ref
           /\ mapped (joinedToTextOff (u32 i)) = true
           /\ nth_error refnames (Z.to_nat (u32 (tidx (joinedToTextOff (u32 i)))))
              = Some name
           /\ u32 (textoff (joinedToTextOff (u32 i))) = p
           /\ char_at seq p = char_at cat_ref i.
Proof.
  intros Hsz Hmono name seq Hin.
  set (ti := fun j => u32 (tidx (joinedToTextOff (u32 j)))).
  set (to := fun j => u32 (textoff (joinedToTextOff (u32 j)))).
  pose proof (flushed_records_invariant dbg refnames cat_ref joinedToTextOff
    (fun k st => curr_ref st = NONE32 \/
       exists j, 0 <= j < k /\ mapped (joinedToTextOff (u32 j)) = true /\
         ti j = curr_ref st /\ first st = false /\
         last_text_off st = to j /\
         len (curr_ref_seq st) = to j + 1 /\
         forall p, 0 <= p < len (curr_ref_seq st) ->
           char_at (curr_ref_seq st) p = "N"%char
           \/ exists i, 0 <= i < k /\ mapped (joinedToTextOff (u32 i)) = true
                /\ ti i = curr_ref st /\ to i = p
                /\ char_at (curr_ref_seq st) p = char_at cat_ref i)
    (fun name seq => forall p, 0 <= p < len seq ->
       char_at seq p = "N"%char
       \/ exists i, 0 <= i < len cat_ref
            /\ mapped (joinedToTextOff (u32 i)) = true
            /\ nth_error refnames (Z.to_nat (ti i)) = Some name
            /\ to i = p
            /\ char_at seq p = char_at cat_ref i)) as Inv.
  cbv beta in Inv.
  assert (F : Forall (fun r : text * text => forall p, 0 <= p < len (snd r) ->
       char_at (snd r) p = "N"%char
       \/ exists i, 0 <= i < len cat_ref
            /\ mapped (joinedToTextOff (u32 i)) = true
            /\ nth_error refnames (Z.to_nat (ti i)) = Some (fst r)
            /\ to i = p
            /\ char_at (snd r) p = char_at cat_ref i)
     (fst (flushed_records dbg refnames cat_ref joinedToTextOff))).
  { apply Inv; clear Inv.
    - intros k st Hk _ [H|(j & Hj & Hm & Ht & Hf & Hl & Hlen & Hch)]; [now left|right].
      exists j. split; [lia|]. repeat (split; [assumption|]).
      intros p Hp. destruct (Hch p Hp) as [HN|(i & Hi & R)]; [now left|right].
      exists i. split; [lia|exact R].
    - intros k st Hk Hm Hc [H|(j & Hj & Hmj & Ht & Hf & Hl & Hlen & Hch)].
      + exfalso. pose proof (mapped_bounds _ Hm) as (Hne & _). congruence.
      + right. exists k.
        pose proof (mapped_bounds _ Hm) as (_ & Hok & Hlk).
        pose proof (mapped_bounds _ Hmj) as (_ & Hoj & _).
        fold (to k) in Hok. fold (to j) in Hoj.
        assert (Hlt : to j < to k).
        { apply Hmono; try assumption; try lia.
          transitivity (curr_ref st); [exact Ht|exact Hc]. }
        split; [lia|]. split; [assumption|].
        split; [cbn [append_base curr_ref]; now symmetry|].
        split; [reflexivity|]. split; [reflexivity|].
        fold (to k).
        assert (Hnew : len (curr_ref_seq (append_base st (to k)
                         (nth (Z.to_nat k) cat_ref zero))) = to k + 1)
          by (apply append_base_next_length; try assumption; lia).
        split; [exact Hnew|].
        intros p Hp0.
        assert (Hp : 0 <= p < to k + 1) by (rewrite <- Hnew; exact Hp0).
        clear Hp0.
        unfold append_base. cbn [curr_ref_seq curr_ref].
        rewrite Hf, Hl, gap_fill_next by lia.
        rewrite char_at_gap_base by lia.
        destruct (Z.ltb_spec p (len (curr_ref_seq st))) as [Hin1|Hout].
        * destruct (Hch p ltac:(lia)) as [HN|(i & Hi & Hmi & Hti & Hto & Hc')];
            [now left|right].
          exists i. split; [lia|]. repeat (split; [assumption|]). exact Hc'.
        * destruct (Z.ltb_spec p (len (curr_ref_seq st) + (to k - to j - 1)));
            [now left|right].
          exists k. split; [lia|]. split; [assumption|].
          split; [now symmetry|]. split; [lia|reflexivity].
    - intros k st Hk Hm Hc. right. exists k.
      pose proof (mapped_bounds _ Hm) as (_ & Hok & Hlk).
      fold (to k) in Hok.
      split; [lia|]. split; [assumption|].
      split; [reflexivity|]. split; [reflexivity|]. split; [reflexivity|].
      assert (Hnew : len (curr_ref_seq (append_base
                        (reset_state (ti k) (u32 (tlen (joinedToTextOff (u32 k)))))
                        (to k) (nth (Z.to_nat k) cat_ref zero))) = to k + 1)
        by (apply append_base_first_length; [exact Hok|exact Hlk]).
      split; [exact Hnew|].
      intros p Hp0.
      assert (Hp : 0 <= p < to k + 1) by (rewrite <- Hnew; exact Hp0).
      clear Hp0.
      unfold append_base, reset_state. cbn [curr_ref_seq curr_ref first last_text_off].
      fold (to k). rewrite gap_fill_first by lia.
      rewrite char_at_gap_base by (change (len []) with 0; lia).
      change (len []) with 0.
      destruct (Z.ltb_spec p 0); [lia|].
      destruct (Z.ltb_spec p (0 + to k)); [now left|right].
      exists k. split; [lia|]. split; [assumption|].
      split; [reflexivity|]. split; [lia|reflexivity].
    - intros k st nm Hk [H|(j & Hj & Hmj & Ht & Hf & Hl & Hlen & Hch)] Hne Hn;
        [contradiction|].
      intros p Hp. rewrite char_at_trailing_gaps by assumption.
      destruct (Z.ltb_spec p (len (curr_ref_seq st))); [|now left].
      destruct (Hch p ltac:(lia)) as [HN|(i & Hi & Hmi & Hti & Hto & Hc')];
        [now left|right].
      exists i. split; [lia|]. split; [assumption|].
      rewrite Hti. repeat (split; [assumption|]). exact Hc'.
    - assumption.
    - now left. }
  rewrite Forall_forall in F. exact (F (name, seq) Hin).
Qed.

(** X4 on four bases of a reference of declared length 6. *)
Lemma flushed_symbols_are_observed_witness :
  let refnames := [str "chr1"] in
  let cat_ref := str "ACGT" in
  let jto := fun i => {| tidx := 0; textoff := i; tlen := 6 |} in
  let seq := str "ACGTNN" in
  char_at seq 2 = "N"%char
  \/ exists i, 0 <= i < len cat_ref
       /\ mapped (jto (u32 i)) = true
       /\ nth_error refnames (Z.to_nat (u32 (tidx (jto (u32 i))))) = Some (str "chr1")
       /\ u32 (textoff (jto (u32 i))) = 2
       /\ char_at seq 2 = char_at cat_ref i.
Proof.
  intros refnames cat_ref jto seq.
  assert (L : len cat_ref = 4) by reflexivity.
  apply (flushed_symbols_are_observed true refnames cat_ref jto) with (name := str "chr1").
  - vm_compute. discriminate.
  - intros i j Hi Hij Hj _ _ _. rewrite L in Hj. cbn [jto textoff].
    rewrite !u32_small; rewrite ?u32_small; lia.
  - vm_compute. now left.
  - vm_compute. split; [discriminate|reflexivity].
Defined.

(** ** The traversal: every observed base is placed *)

Section LogProgress.

Variable dbg : assertions.
Variable refnames : list text.
Variable cat_ref : text.
Variable jto : Z -> JoinedPosition.

(** [Inv k log st]: [log] and [st] may be the records flushed and the
    state before position [k] is visited. *)
Variable Inv : Z -> list FastaRecord -> TraversalState -> Prop.

Hypothesis Inv_step : forall k st log,
  0 <= k < len cat_ref -> Inv k log st ->
  exists log' st',
    visit log_record dbg refnames cat_ref jto st k log = (log', Normal st')
    /\ Inv (k + 1) log' st'.

Lemma visit_all_progress (m : nat) : forall (a : nat) st log,
  Z.of_nat (a + m) <= len cat_ref ->
  Inv (Z.of_nat a) log st ->
  exists log' st',
    visit_all log_record dbg refnames cat_ref jto st
      (map Z.of_nat (List.seq a m)) log = (log', Normal st')
    /\ Inv (Z.of_nat (a + m)) log' st'.
Proof.
  induction m as [|m IH]; intros a st log Hb HI.
  - exists log, st. split; [reflexivity|]. now rewrite Nat.add_0_r.
  - cbn [List.seq map visit_all]. unfold bind at 1.
    destruct (Inv_step (Z.of_nat a) st log ltac:(lia) HI) as (log1 & st1 & Hv & HI1).
    rewrite Hv.
    replace (Z.of_nat a + 1) with (Z.of_nat (S a)) in HI1 by lia.
    destruct (IH (S a) st1 log1 ltac:(lia) HI1) as (log2 & st2 & Hv2 & HI2).
    exists log2, st2. split; [exact Hv2|].
    now replace (a + S m)%nat with (S a + m)%nat by lia.
Qed.

End LogProgress.

(** X5.  When every mapped position is mapped to a reference that has
    a name and the offsets mapped for a reference strictly increase
    along the traversal, the traversal ends normally and the base of
    every mapped position is in a flushed record under the name of its
    reference, at its in-reference offset: no observed base is lost or
    misplaced. *)
Theorem observed_bases_are_flushed (dbg : assertions)
    (refnames : list text) (cat_ref : text)
    (joinedToTextOff : Z -> JoinedPosition) :
  Z.of_nat (length refnames) <= NONE32 ->
  references_named refnames cat_ref joinedToTextOff ->
  offsets_increase cat_ref joinedToTextOff ->
  snd (flushed_records dbg refnames cat_ref joinedToTextOff) = Normal tt
  /\ forall i, 0 <= i < len cat_ref ->
       mapped (joinedToTextOff (u32 i)) = true ->
       exists name seq,
         nth_error refnames (Z.to_nat (u32 (tidx (joinedToTextOff (u32 i)))))
           = Some name
         /\ In (name, seq) (fst (flushed_records dbg refnames cat_ref joinedToTextOff))
         /\ u32 (textoff (joinedToTextOff (u32 i))) < len seq
         /\ char_at seq (u32 (textoff (joinedToTextOff (u32 i)))) = char_at cat_ref i.
Proof.
  intros Hsz Hnamed Hmono.
  set (ti := fun j => u32 (tidx (joinedToTextOff (u32 j)))).
  set (to := fun j => u32 (textoff (joinedToTextOff (u32 j)))).
  set (placed := fun (log : list FastaRecord) i =>
         exists name seq,
           nth_error refnames (Z.to_nat (ti i)) = Some name
           /\ In (name, seq) log /\ to i < len seq
           /\ char_at seq (to i) = char_at cat_ref i).
  set (Inv := fun (k : Z) (log : list FastaRecord) (st : TraversalState) =>
         (curr_ref st = NONE32 \/
          exists j, 0 <= j < k /\ mapped (joinedToTextOff (u32 j)) = true /\
            ti j = curr_ref st /\ first st = false /\
            last_text_off st = to j /\ len (curr_ref_seq st) = to j + 1)
         /\ forall i, 0 <= i < k -> mapped (joinedToTextOff (u32 i)) = true ->
              (ti i = curr_ref st /\ to i < len (curr_ref_seq st)
               /\ char_at (curr_ref_seq st) (to i) = char_at cat_ref i)
              \/ placed log i).
  assert (Hplaced_more : forall log r i, placed log i -> placed (log ++ [r]) i).
  { intros log r i (name & seq & Hn & Hin & Hlt & Hc).
    exists name, seq. repeat split; try assumption. apply in_or_app. now left. }
  assert (Hflushed : forall log st name i,
            nth_error refnames (Z.to_nat (curr_ref st)) = Some name ->
            ti i = curr_ref st -> 0 <= to i < len (curr_ref_seq st) ->
            char_at (curr_ref_seq st) (to i) = char_at cat_ref i ->
            placed (log ++ [(name, add_trailing_gaps (curr_ref_seq st) (curr_ref_len st))]) i).
  { intros log st name i Hn Ht Hlt Hc.
    pose proof (len_trailing_gaps (curr_ref_seq st) (curr_ref_len st)) as Hle.
    exists name, (add_trailing_gaps (curr_ref_seq st) (curr_ref_len st)).
    split; [now rewrite Ht|]. split; [apply in_or_app; right; now left|].
    split; [lia|].
    rewrite char_at_trailing_gaps by lia.
    destruct (Z.ltb_spec (to i) (len (curr_ref_seq st))); [exact Hc|lia]. }
  assert (Hto : forall i, 0 <= to i) by (intros i; apply Z.mod_pos_bound; lia).
  assert (Hstep : forall k st log,
            0 <= k < len cat_ref -> Inv k log st ->
            exists log' st',
              visit log_record dbg refnames cat_ref joinedToTextOff st k log
                = (log', Normal st')
              /\ Inv (k + 1) log' st').
  { intros k st log Hk [HS HP]. rewrite visit_log_eq. cbv zeta.
    destruct (mapped (joinedToTextOff (u32 k))) eqn:Hm.
    2: { exists log, st. split; [reflexivity|]. split.
         - destruct HS as [H|(j & Hj & R)]; [now left|right].
           exists j. split; [lia|exact R].
         - intros i Hi Hmi. apply HP; [|assumption].
           assert (i <> k) by (intros ->; congruence). lia. }
    pose proof (mapped_bounds _ Hm) as (Hne & Hok & Hlk).
    fold (ti k) in Hne. fold (to k) in Hok.
    fold (ti k) (to k).
    destruct (Z.eqb_spec (curr_ref st) (ti k)) as [E|N].
    - (* the same reference *)
      destruct HS as [H|(j & Hj & Hmj & Ht & Hf & Hl & Hlen)]; [congruence|].
      assert (Hlt : to j < to k).
      { apply Hmono; try assumption; try lia.
        transitivity (curr_ref st); [exact Ht|exact E]. }
      assert (Hnew : len (curr_ref_seq (append_base st (to k)
                       (nth (Z.to_nat k) cat_ref zero))) = to k + 1).
      { apply append_base_next_length; try assumption; try lia.
        specialize (Hto j). lia. }
      eexists log, _. split; [reflexivity|]. split.
      + right. exists k. split; [lia|]. split; [assumption|].
        split; [now symmetry|]. split; [reflexivity|]. split; [reflexivity|].
        exact Hnew.
      + intros i Hi Hmi.
        assert (Hseq : curr_ref_seq (append_base st (to k) (nth (Z.to_nat k) cat_ref zero))
                       = (curr_ref_seq st ++ fill (to k - to j - 1) "N")
                         ++ [nth (Z.to_nat k) cat_ref zero]).
        { unfold append_base. cbn [curr_ref_seq].
          rewrite Hf, Hl, gap_fill_next; [reflexivity| |lia].
          specialize (Hto j). lia. }
        destruct (Z.eq_dec i k) as [->|Hik].
        * left. split; [now symmetry|]. split; [lia|].
          rewrite Hseq, char_at_gap_base by (specialize (Hto k); lia).
          destruct (Z.ltb_spec (to k) (len (curr_ref_seq st))); [lia|].
          destruct (Z.ltb_spec (to k) (len (curr_ref_seq st) + (to k - to j - 1)));
            [lia|reflexivity].
        * destruct (HP i ltac:(lia) Hmi) as [(Hti & Hlti & Hci)|Hpl]; [left|now right].
          split; [exact Hti|]. split; [lia|].
          rewrite Hseq, char_at_gap_base by (specialize (Hto i); lia).
          destruct (Z.ltb_spec (to i) (len (curr_ref_seq st))); [exact Hci|lia].
    - (* another reference *)
      assert (Hnew : len (curr_ref_seq (append_base
                        (reset_state (ti k) (u32 (tlen (joinedToTextOff (u32 k)))))
                        (to k) (nth (Z.to_nat k) cat_ref zero))) = to k + 1)
        by (apply append_base_first_length; [exact Hok|exact Hlk]).
      assert (Hseq : curr_ref_seq (append_base
                        (reset_state (ti k) (u32 (tlen (joinedToTextOff (u32 k)))))
                        (to k) (nth (Z.to_nat k) cat_ref zero))
                     = ([] ++ fill (to k) "N") ++ [nth (Z.to_nat k) cat_ref zero]).
      { unfold append_base, reset_state.
        cbn [curr_ref_seq first last_text_off].
        now rewrite gap_fill_first by lia. }
      assert (Hk_left : ti k = curr_ref (append_base
                        (reset_state (ti k) (u32 (tlen (joinedToTextOff (u32 k)))))
                        (to k) (nth (Z.to_nat k) cat_ref zero))
               /\ to k < len (curr_ref_seq (append_base
                        (reset_state (ti k) (u32 (tlen (joinedToTextOff (u32 k)))))
                        (to k) (nth (Z.to_nat k) cat_ref zero)))
               /\ char_at (curr_ref_seq (append_base
                        (reset_state (ti k) (u32 (tlen (joinedToTextOff (u32 k)))))
                        (to k) (nth (Z.to_nat k) cat_ref zero))) (to k)
                  = char_at cat_ref k).
      { split; [reflexivity|]. split; [lia|].
        rewrite Hseq, char_at_gap_base by (change (len []) with 0; lia).
        change (len []) with 0.
        destruct (Z.ltb_spec (to k) 0); [lia|].
        destruct (Z.ltb_spec (to k) (0 + to k)); [lia|reflexivity]. }
      assert (HS' : curr_ref (append_base
                        (reset_state (ti k) (u32 (tlen (joinedToTextOff (u32 k)))))
                        (to k) (nth (Z.to_nat k) cat_ref zero)) = NONE32 \/
                exists j, 0 <= j < k + 1 /\ mapped (joinedToTextOff (u32 j)) = true /\
                  ti j = curr_ref (append_base
                        (reset_state (ti k) (u32 (tlen (joinedToTextOff (u32 k)))))
                        (to k) (nth (Z.to_nat k) cat_ref zero)) /\
                  first (append_base
                        (reset_state (ti k) (u32 (tlen (joinedToTextOff (u32 k)))))
                        (to k) (nth (Z.to_nat k) cat_ref zero)) = false /\
                  last_text_off (append_base
                        (reset_state (ti k) (u32 (tlen (joinedToTextOff (u32 k)))))
                        (to k) (nth (Z.to_nat k) cat_ref zero)) = to j /\
                  len (curr_ref_seq (append_base
                        (reset_state (ti k) (u32 (tlen (joinedToTextOff (u32 k)))))
                        (to k) (nth (Z.to_nat k) cat_ref zero))) = to j + 1).
      { right. exists k. split; [lia|]. split; [assumption|].
        split; [reflexivity|]. split; [reflexivity|]. split; [reflexivity|].
        exact Hnew. }
      destruct (Z.eqb_spec (curr_ref st) NONE32) as [E0|N0].
      + eexists log, _. split; [reflexivity|]. split; [exact HS'|].
        intros i Hi Hmi.
        destruct (Z.eq_dec i k) as [->|Hik]; [left; exact Hk_left|].
        destruct (HP i ltac:(lia) Hmi) as [(Hti & _)|Hpl]; [|now right].
        exfalso. pose proof (mapped_bounds _ Hmi) as (Hnei & _).
        fold (ti i) in Hnei. congruence.
      + destruct HS as [H|(j & Hj & Hmj & Ht & Hf & Hl & Hlen)]; [contradiction|].
        assert (Hin : (Z.to_nat (curr_ref st) < length refnames)%nat).
        { specialize (Hnamed j ltac:(lia) Hmj). fold (ti j) in Hnamed.
          assert (0 <= ti j) by (apply Z.mod_pos_bound; lia). lia. }
        destruct (nth_error refnames (Z.to_nat (curr_ref st))) as [name|] eqn:Hn.
        2: { apply nth_error_None in Hn. lia. }
        eexists _, _. split; [reflexivity|]. split; [exact HS'|].
        intros i Hi Hmi.
        destruct (Z.eq_dec i k) as [->|Hik]; [left; exact Hk_left|].
        right.
        destruct (HP i ltac:(lia) Hmi) as [(Hti & Hlti & Hci)|Hpl].
        * apply Hflushed; try assumption. specialize (Hto i). lia.
        * now apply Hplaced_more. }
  unfold flushed_records, traverse, bind.
  assert (Hb : Z.of_nat (0 + Z.to_nat (len cat_ref)) <= len cat_ref)
    by (unfold len; lia).
  assert (H0 : Inv (Z.of_nat 0) [] traversal_init).
  { split; [now left|]. intros i Hi. lia. }
  destruct (visit_all_progress dbg refnames cat_ref joinedToTextOff Inv Hstep
              (Z.to_nat (len cat_ref)) 0%nat traversal_init [] Hb H0)
    as (log & st & Hv & [HS HP]).
  unfold upto. rewrite Hv.
  replace (Z.of_nat (0 + Z.to_nat (len cat_ref))) with (len cat_ref) in *
    by (unfold len; lia).
  destruct (Z.ltb_spec (curr_ref st) (Z.of_nat (length refnames))) as [Hlt|Hge].
  - rewrite flush_log_eq.
    assert (Hcur : 0 <= curr_ref st).
    { destruct HS as [H|(j & _ & _ & Ht & _)].
      - rewrite H. unfold NONE32. lia.
      - rewrite <- Ht. apply Z.mod_pos_bound. lia. }
    destruct (nth_error refnames (Z.to_nat (curr_ref st))) as [name|] eqn:Hn.
    2: { apply nth_error_None in Hn. lia. }
    cbn [fst snd]. split; [reflexivity|].
    intros i Hi Hmi.
    destruct (HP i Hi Hmi) as [(Hti & Hlti & Hci)|Hpl].
    + apply Hflushed; try assumption. specialize (Hto i). lia.
    + now apply Hplaced_more.
  - unfold ret. cbn [fst snd]. split; [reflexivity|].
    intros i Hi Hmi.
    destruct (HP i Hi Hmi) as [(Hti & _)|Hpl]; [|exact Hpl].
    exfalso. specialize (Hnamed i Hi Hmi). fold (ti i) in Hnamed. lia.
Qed.

(** X5 on the second of four bases of a reference of declared length 6. *)
Lemma observed_bases_are_flushed_witness :
  let refnames := [str "chr1"] in
  let cat_ref := str "ACGT" in
  let jto := fun i => {| tidx := 0; textoff := i; tlen := 6 |} in
  snd (flushed_records true refnames cat_ref jto) = Normal tt
  /\ exists name seq,
       nth_error refnames (Z.to_nat (u32 (tidx (jto (u32 1))))) = Some name
       /\ In (name, seq) (fst (flushed_records true refnames cat_ref jto))
       /\ u32 (textoff (jto (u32 1))) < len seq
       /\ char_at seq (u32 (textoff (jto (u32 1)))) = char_at cat_ref 1.
Proof.
  intros refnames cat_ref jto.
  assert (L : len cat_ref = 4) by reflexivity.
  assert (H : snd (flushed_records true refnames cat_ref jto) = Normal tt
    /\ forall i, 0 <= i < len cat_ref ->
       mapped (jto (u32 i)) = true ->
       exists name seq,
         nth_error refnames (Z.to_nat (u32 (tidx (jto (u32 i))))) = Some name
         /\ In (name, seq) (fst (flushed_records true refnames cat_ref jto))
         /\ u32 (textoff (jto (u32 i))) < len seq
         /\ char_at seq (u32 (textoff (jto (u32 i)))) = char_at cat_ref i).
  { apply (observed_bases_are_flushed true refnames cat_ref jto).
    - vm_compute. discriminate.
    - intros i _ _. vm_compute. reflexivity.
    - intros i j Hi Hij Hj _ _ _. rewrite L in Hj. cbn [jto textoff].
      rewrite !u32_small; rewrite ?u32_small; lia. }
  destruct H as [H1 H2]. split; [exact H1|].
  apply (H2 1); [rewrite L; lia|reflexivity].
Defined.

(** ** The traversal: nothing mapped *)

Lemma visit_all_unmapped {Sink : Type} (P : text -> text -> M Sink unit)
    dbg refnames cat_ref jto (ps : list Z) : forall st (s : Sink),
  (forall i, In i ps -> mapped (jto (u32 i)) = false) ->
  visit_all P dbg refnames cat_ref jto st ps s = (s, Normal st).
Proof.
  induction ps as [|i ps IH]; intros st s H; [reflexivity|].
  cbn [visit_all]. unfold bind. rewrite visit_eq. cbv zeta.
  rewrite (H i) by now left. apply IH. intros j Hj. apply H. now right.
Qed.

(** X6.  When no position of the joined text is mapped, and in
    particular when the joined text is empty, the traversal path
    writes nothing at all, whatever names the index has. *)
Theorem unmapped_index_prints_nothing (w : Z) (dbg : assertions)
    (refnames : list text) (cat_ref : text)
    (joinedToTextOff : Z -> JoinedPosition) (fout : text) :
  Z.of_nat (length refnames) <= NONE32 ->
  (forall i, 0 <= i < len cat_ref -> mapped (joinedToTextOff (u32 i)) = false) ->
  print_index_sequences w dbg refnames cat_ref joinedToTextOff fout
  = (fout, Normal tt).
Proof.
  intros Hsz Hun. unfold print_index_sequences, traverse, bind.
  rewrite visit_all_unmapped.
  - cbn [curr_ref traversal_init].
    destruct (Z.ltb_spec NONE32 (Z.of_nat (length refnames))); [lia|reflexivity].
  - intros i Hi. apply Hun. now apply in_upto.
Qed.

(** X6 on an index of two names none of whose positions is mapped. *)
Lemma unmapped_index_prints_nothing_witness :
  print_index_sequences 60 true [str "chr1"; str "chr2"] (str "ACGT")
    (fun _ => {| tidx := NONE32; textoff := NONE32; tlen := NONE32 |}) []
  = ([], Normal tt).
Proof.
  apply unmapped_index_prints_nothing.
  - vm_compute. discriminate.
  - intros i _. reflexivity.
Defined.

(** ** Options that are accepted *)

Lemma has_option_cons o r rs :
  has_option o (r :: rs) = (next_option r =? o) || has_option o rs.
Proof. reflexivity. Qed.

(** Accepted options are parsed without writing anything, and leave
    the variables as [parsed_config] says. *)
Lemma parseOptions_accepted_app (pre : list GetoptReturn) :
  forall rest cfg s,
    forallb accepted pre = true ->
    parseOptions (pre ++ rest) cfg s = parseOptions rest (parsed_config pre cfg) s.
Proof.
  induction pre as [|r pre IH]; intros rest cfg s Hacc.
  - cbn [app]. f_equal. unfold parsed_config, has_option, last_width. cbn.
    rewrite !orb_false_r. now destruct cfg.
  - cbn [forallb] in Hacc. apply andb_prop in Hacc as [Hr Hpre].
    unfold accepted, is_flag in Hr.
    cbn [app parseOptions]. cbv zeta.
    assert (Hcfg : forall c1 c2 : Config,
              showVersion c1 = showVersion c2 -> verbose c1 = verbose c2 ->
              names_only c1 = names_only c2 ->
              summarize_only c1 = summarize_only c2 ->
              across c1 = across c2 -> refFromEbwt c1 = refFromEbwt c2 -> c1 = c2).
    { intros [] []; cbn; intros; subst; reflexivity. }
    destruct (Z.eqb_spec (next_option r) (code "v")) as [Ev|Nv].
    { rewrite Ev. change ((code "v" =? ARG_USAGE) || (code "v" =? code "h")) with false.
      cbv iota. rewrite IH by assumption. f_equal.
      apply Hcfg; unfold parsed_config, set_verbose, last_width;
        cbn [showVersion verbose names_only summarize_only across refFromEbwt
             fold_left];
        rewrite ?has_option_cons, ?Ev; cbn [orb Z.eqb];
        try reflexivity.
      - now destruct (has_option (code "v") pre).
    }
    destruct (Z.eqb_spec (next_option r) ARG_VERSION) as [Ever|Nver].
    { rewrite Ever.
      change ((ARG_VERSION =? ARG_USAGE) || (ARG_VERSION =? code "h")) with false.
      change (ARG_VERSION =? code "v") with false.
      cbv iota. rewrite IH by assumption. f_equal.
      apply Hcfg; unfold parsed_config, set_showVersion, last_width;
        cbn [showVersion verbose names_only summarize_only across refFromEbwt
             fold_left];
        rewrite ?has_option_cons, ?Ever; cbn [orb Z.eqb];
        try reflexivity.
      - now rewrite orb_true_r.
    }
    destruct (Z.eqb_spec (next_option r) (code "e")) as [Ee|Ne].
    { rewrite Ee.
      change ((code "e" =? ARG_USAGE) || (code "e" =? code "h")) with false.
      change (code "e" =? code "v") with false.
      change (code "e" =? ARG_VERSION) with false.
      cbv iota. rewrite IH by assumption. f_equal.
      apply Hcfg; unfold parsed_config, set_refFromEbwt, last_width;
        cbn [showVersion verbose names_only summarize_only across refFromEbwt
             fold_left];
        rewrite ?has_option_cons, ?Ee; cbn [orb Z.eqb];
        try reflexivity.
      - now rewrite orb_true_r.
    }
    destruct (Z.eqb_spec (next_option r) (code "n")) as [En|Nn].
    { rewrite En.
      change ((code "n" =? ARG_USAGE) || (code "n" =? code "h")) with false.
      change (code "n" =? code "v") with false.
      change (code "n" =? ARG_VERSION) with false.
      change (code "n" =? code "e") with false.
      cbv iota. rewrite IH by assumption. f_equal.
      apply Hcfg; unfold parsed_config, set_names_only, last_width;
        cbn [showVersion verbose names_only summarize_only across refFromEbwt
             fold_left];
        rewrite ?has_option_cons, ?En; cbn [orb Z.eqb];
        try reflexivity.
      - now destruct (has_option (code "n") pre).
    }
    destruct (Z.eqb_spec (next_option r) (code "s")) as [Es|Ns].
    { rewrite Es.
      change ((code "s" =? ARG_USAGE) || (code "s" =? code "h")) with false.
      change (code "s" =? code "v") with false.
      change (code "s" =? ARG_VERSION) with false.
      change (code "s" =? code "e") with false.
      change (code "s" =? code "n") with false.
      cbv iota. rewrite IH by assumption. f_equal.
      apply Hcfg; unfold parsed_config, set_summarize_only, last_width;
        cbn [showVersion verbose names_only summarize_only across refFromEbwt
             fold_left];
        rewrite ?has_option_cons, ?Es; cbn [orb Z.eqb];
        try reflexivity.
      - now destruct (has_option (code "s") pre).
    }
    cbn [orb] in Hr. apply andb_prop in Hr as [Ea Hge].
    apply Z.eqb_eq in Ea. apply Z.leb_le in Hge.
    destruct r as [o arg diag]. cbn [next_option optarg] in *. subst o.
    change ((code "a" =? ARG_USAGE) || (code "a" =? code "h")) with false.
    change (code "a" =? code "a") with true.
    cbv iota. unfold bind at 1. rewrite parseInt_eq.
    destruct (Z.ltb_spec (fst (strtol arg)) (-1)); [lia|].
    rewrite IH by assumption. reflexivity.
Qed.

(** X7.  Accepted options, that is flags and widths of at least -1,
    are parsed without writing to either stream and without throwing,
    and leave each flag set exactly when it occurs and the width of the
    last [-a]: the order of the flags and their repetition do not
    matter. *)
Theorem accepted_options_set_configuration (rs : list GetoptReturn)
    (cfg : Config) (s : Streams) :
  forallb accepted rs = true ->
  parseOptions rs cfg s = (s, Normal (parsed_config rs cfg))
  /\ (names_only (parsed_config rs cfg) <> 0 <->
      has_option (code "n") rs = true \/ names_only cfg <> 0)
  /\ (summarize_only (parsed_config rs cfg) <> 0 <->
      has_option (code "s") rs = true \/ summarize_only cfg <> 0)
  /\ (refFromEbwt (parsed_config rs cfg) = true <->
      has_option (code "e") rs = true \/ refFromEbwt cfg = true)
  /\ (has_option (code "a") rs = false ->
      across (parsed_config rs cfg) = across cfg).
Proof.
  intros Hacc. split; [|split; [|split; [|split]]].
  - rewrite <- (app_nil_r rs) at 1.
    now rewrite parseOptions_accepted_app.
  - cbn [parsed_config names_only].
    destruct (has_option (code "n") rs); split.
    + intros _. now left.
    + intros _. discriminate.
    + intros H. now right.
    + intros [H|H]; [discriminate|assumption].
  - cbn [parsed_config summarize_only].
    destruct (has_option (code "s") rs); split.
    + intros _. now left.
    + intros _. discriminate.
    + intros H. now right.
    + intros [H|H]; [discriminate|assumption].
  - cbn [parsed_config refFromEbwt].
    destruct (has_option (code "e") rs), (refFromEbwt cfg); cbn; intuition discriminate.
  - cbn [parsed_config across]. unfold has_option, last_width.
    generalize (across cfg). clear Hacc.
    induction rs as [|r rs IH]; intros a0 Hno; [reflexivity|].
    cbn [existsb fold_left] in *. apply orb_false_elim in Hno as [Hr Hrs].
    rewrite Hr. now apply IH.
Qed.

(** X7 on the options [-n -a 0 -v -n -a 72]. *)
Lemma accepted_options_set_configuration_witness :
  let rs := [ {| next_option := code "n"; optarg := []; diagnostic := [] |};
              {| next_option := code "a"; optarg := str "0"; diagnostic := [] |};
              {| next_option := code "v"; optarg := []; diagnostic := [] |};
              {| next_option := code "n"; optarg := []; diagnostic := [] |};
              {| next_option := code "a"; optarg := str "72"; diagnostic := [] |} ] in
  let s := {| cout := []; cerr := [] |} in
  parseOptions rs default_config s =
    (s, Normal {| showVersion := false; verbose := 1; names_only := 1;
                  summarize_only := 0; across := 72; refFromEbwt := false |}).
Proof.
  intros rs s.
  assert (H : forallb accepted rs = true) by reflexivity.
  exact (proj1 (accepted_options_set_configuration rs default_config s H)).
Defined.

(** ** [main] before and around the driver *)

Section MainProperties.

Variable driver : Config -> text -> M Streams unit.
Variable version_banner verbose_banner : text -> text.

Lemma main_body_accepted argv rs optind s :
  forallb accepted rs = true ->
  main_body driver version_banner verbose_banner argv rs optind s =
  (let cfg := parsed_config rs default_config in
   if showVersion cfg then
     on_cout (put (version_banner (nth 0 argv []))) ;; ret 0
   else if Z.of_nat (length argv) <=? optind then
     on_cerr (put (str "No index name given!") ;; put [nl]) ;;
     on_cerr printUsage ;;
     ret 1
   else
     (if negb (verbose cfg =? 0)
      then on_cout (put (verbose_banner (nth (Z.to_nat optind) argv [])))
      else ret tt) ;;
     driver cfg (nth (Z.to_nat optind) argv []) ;;
     ret 0) s.
Proof.
  intros Hacc. unfold main_body. unfold bind at 1.
  rewrite <- (app_nil_r rs) at 1.
  rewrite parseOptions_accepted_app by assumption. reflexivity.
Qed.

End MainProperties.

(** X8.  A help option ([-h] or [--usage]) after accepted options
    makes [main] write the usage text to the standard output and
    return 0: the error stream is left alone, the options after it are
    not looked at, and the driver does not run, with or without an
    index name. *)
Theorem help_prints_usage_and_succeeds
    (driver : Config -> text -> M Streams unit)
    (version_banner verbose_banner : text -> text)
    (argv : list text) (pre rest : list GetoptReturn) (r : GetoptReturn)
    (optind : Z) (s : Streams) :
  forallb accepted pre = true ->
  next_option r = code "h" \/ next_option r = ARG_USAGE ->
  main driver version_banner verbose_banner argv (pre ++ r :: rest) optind s =
  ({| cout := cout s ++ usage; cerr := cerr s |}, Normal 0).
Proof.
  intros Hacc Hr. unfold main, main_body. unfold bind at 1.
  rewrite parseOptions_accepted_app by assumption.
  cbn [parseOptions]. cbv zeta.
  assert (E : (next_option r =? ARG_USAGE) || (next_option r =? code "h") = true).
  { destruct Hr as [-> | ->]; reflexivity. }
  rewrite E. reflexivity.
Qed.

(** X8 on [-n -h -a x]. *)
Lemma help_prints_usage_and_succeeds_witness :
  let driver := fun (_ : Config) (_ : text) => @ret Streams unit tt in
  let banner := fun _ : text => @nil ascii in
  let s := {| cout := []; cerr := [] |} in
  main driver banner banner [str "bowtie-inspect"; str "-n"; str "-h"]
    ([{| next_option := code "n"; optarg := []; diagnostic := [] |}]
     ++ {| next_option := code "h"; optarg := []; diagnostic := [] |}
     :: [{| next_option := code "a"; optarg := str "x"; diagnostic := [] |}]) 3 s =
  ({| cout := cout s ++ usage; cerr := cerr s |}, Normal 0).
Proof.
  intros driver banner s.
  apply help_prints_usage_and_succeeds.
  - reflexivity.
  - now left.
Defined.

(** X9.  An option value [parseOptions] has no case for (the [?] that
    [getopt_long] returns for an option it does not know, or 0) after
    accepted options makes [main] return 1 with nothing on the standard
    output and the driver not run; the error stream holds, in this
    order, the complaint [getopt_long] itself wrote about the option,
    the usage text and the command line. *)
Theorem unknown_option_is_rejected
    (driver : Config -> text -> M Streams unit)
    (version_banner verbose_banner : text -> text)
    (argv : list text) (pre rest : list GetoptReturn) (r : GetoptReturn)
    (optind : Z) (s : Streams) :
  forallb accepted pre = true ->
  unknown_option (next_option r) = true ->
  main driver version_banner verbose_banner argv (pre ++ r :: rest) optind s =
  ({| cout := cout s;
      cerr := ((cerr s ++ diagnostic r) ++ usage) ++ command_line argv |},
   Normal 1).
Proof.
  intros Hacc Hr. unfold main, main_body. unfold bind at 1.
  rewrite parseOptions_accepted_app by assumption.
  cbn [parseOptions]. cbv zeta.
  unfold unknown_option, is_flag in Hr. apply negb_true_iff in Hr.
  repeat rewrite orb_false_iff in Hr.
  destruct Hr as [[[[Hu Hh] [[[[Hv Hvers] He] Hn] Hs]] Ha] Hend].
  rewrite Hu, Hh, Hv, Hvers, He, Hn, Hs, Ha, Hend.
  cbn [orb]. reflexivity.
Qed.

(** X9 on [bowtie-inspect -v -x idx]: [getopt_long] returns [?] for
    [-x] after its complaint. *)
Lemma unknown_option_is_rejected_witness :
  let driver := fun (_ : Config) (_ : text) => @ret Streams unit tt in
  let banner := fun _ : text => @nil ascii in
  let s := {| cout := []; cerr := [] |} in
  let argv := [str "bowtie-inspect"; str "-v"; str "-x"; str "idx"] in
  main driver banner banner argv
    ([{| next_option := code "v"; optarg := []; diagnostic := [] |}]
     ++ {| next_option := code "?"; optarg := [];
           diagnostic := str "bowtie-inspect: invalid option -- 'x'" ++ [nl] |}
     :: []) 3 s =
  ({| cout := [];
      cerr := str "bowtie-inspect: invalid option -- 'x'" ++ [nl]
              ++ usage
              ++ str "Command: bowtie-inspect -v -x idx " ++ [nl] |},
   Normal 1).
Proof.
  intros driver banner s argv.
  apply (unknown_option_is_rejected driver banner banner argv
           [{| next_option := code "v"; optarg := []; diagnostic := [] |}] []
           {| next_option := code "?"; optarg := [];
              diagnostic := str "bowtie-inspect: invalid option -- 'x'" ++ [nl] |}
           3 s); reflexivity.
Defined.

(** X10.  Without an index name after accepted options, and no
    [--version] among them, [main] writes the complaint and the usage
    text to the error stream and returns 1; being a plain return, it
    does not write the command line, and the driver does not run. *)
Theorem missing_index_name_is_rejected
    (driver : Config -> text -> M Streams unit)
    (version_banner verbose_banner : text -> text)
    (argv : list text) (rs : list GetoptReturn) (optind : Z) (s : Streams) :
  forallb accepted rs = true ->
  has_option ARG_VERSION rs = false ->
  Z.of_nat (length argv) <= optind ->
  main driver version_banner verbose_banner argv rs optind s =
  ({| cout := cout s;
      cerr := cerr s ++ str "No index name given!" ++ [nl] ++ usage |},
   Normal 1).
Proof.
  intros Hacc Hver Hind. unfold main.
  rewrite main_body_accepted by assumption. cbv zeta.
  cbn [parsed_config showVersion default_config]. rewrite Hver. cbn [orb].
  destruct (Z.leb_spec (Z.of_nat (length argv)) optind) as [_|]; [|lia].
  unfold bind, on_cerr, printUsage, put, ret. cbn [cout cerr].
  now rewrite <- !app_assoc.
Qed.

(** X10 on [bowtie-inspect -s]. *)
Lemma missing_index_name_is_rejected_witness :
  let driver := fun (_ : Config) (_ : text) => @ret Streams unit tt in
  let banner := fun _ : text => @nil ascii in
  let s := {| cout := []; cerr := [] |} in
  main driver banner banner [str "bowtie-inspect"; str "-s"]
    [{| next_option := code "s"; optarg := []; diagnostic := [] |}] 2 s =
  ({| cout := cout s;
      cerr := cerr s ++ str "No index name given!" ++ [nl] ++ usage |},
   Normal 1).
Proof.
  intros driver banner s.
  apply missing_index_name_is_rejected.
  - reflexivity.
  - reflexivity.
  - cbn. lia.
Defined.

(** X11.  With [--version] among accepted options [main] writes the
    version text to the standard output and returns 0, whatever the
    other options are and with or without an index name: the driver
    does not run. *)
Theorem version_flag_skips_the_index
    (driver : Config -> text -> M Streams unit)
    (version_banner verbose_banner : text -> text)
    (argv : list text) (rs : list GetoptReturn) (optind : Z) (s : Streams) :
  forallb accepted rs = true ->
  has_option ARG_VERSION rs = true ->
  main driver version_banner verbose_banner argv rs optind s =
  ({| cout := cout s ++ version_banner (nth 0 argv []); cerr := cerr s |},
   Normal 0).
Proof.
  intros Hacc Hver. unfold main.
  rewrite main_body_accepted by assumption. cbv zeta.
  cbn [parsed_config showVersion default_config]. rewrite Hver. cbn [orb].
  reflexivity.
Qed.

(** X11 on [bowtie-inspect -n --version idx] with a driver that would
    fail. *)
Lemma version_flag_skips_the_index_witness :
  let driver := fun (_ : Config) (_ : text) => @raise Streams unit AssertException in
  let banner := fun a : text => a ++ str " version" ++ [nl] in
  let s := {| cout := []; cerr := [] |} in
  let argv := [str "bowtie-inspect"; str "-n"; str "--version"; str "idx"] in
  main driver banner banner argv
    [{| next_option := code "n"; optarg := []; diagnostic := [] |};
     {| next_option := ARG_VERSION; optarg := []; diagnostic := [] |}] 3 s =
  ({| cout := cout s ++ banner (nth 0 argv []); cerr := cerr s |}, Normal 0).
Proof.
  intros driver banner s argv.
  apply version_flag_skips_the_index; reflexivity.
Defined.

(** ** The driver under [main] *)

Lemma for_each_puts {A} (f : A -> M text unit) (g : A -> text) (l : list A) :
  (forall x s, In x l -> f x s = (s ++ g x, Normal tt)) ->
  forall s, for_each f l s = (s ++ concat (map g l), Normal tt).
Proof.
  induction l as [|x l IH]; intros H s.
  - cbn. now rewrite app_nil_r.
  - cbn [for_each map concat]. unfold bind. rewrite (H x s) by now left.
    rewrite IH by (intros y s0 Hy; apply H; now right).
    now rewrite <- app_assoc.
Qed.

Lemma print_index_sequence_names_eq (names : list text) (out : text) :
  print_index_sequence_names names out = (out ++ unlines names, Normal tt).
Proof.
  unfold print_index_sequence_names, unlines.
  apply for_each_puts. intros x s _.
  unfold bind, put. now rewrite <- app_assoc.
Qed.

(** [main] once the options are accepted and name an index. *)
Lemma main_runs_driver (driver : Config -> text -> M Streams unit)
    (version_banner verbose_banner : text -> text)
    (argv : list text) (rs : list GetoptReturn) (optind : Z) (s : Streams) :
  forallb accepted rs = true ->
  has_option ARG_VERSION rs = false ->
  optind < Z.of_nat (length argv) ->
  main_body driver version_banner verbose_banner argv rs optind s =
  (driver (parsed_config rs default_config) (nth (Z.to_nat optind) argv []) ;;
   ret 0)
    {| cout := cout s ++ (if has_option (code "v") rs
                          then verbose_banner (nth (Z.to_nat optind) argv [])
                          else []);
       cerr := cerr s |}.
Proof.
  intros Hacc Hver Hind.
  rewrite main_body_accepted by assumption. cbv zeta.
  cbn [parsed_config showVersion verbose default_config]. rewrite Hver. cbn [orb].
  destruct (Z.leb_spec (Z.of_nat (length argv)) optind) as [|_]; [lia|].
  unfold bind at 1.
  destruct (has_option (code "v") rs).
  - reflexivity.
  - unfold ret at 1. rewrite app_nil_r. now destruct s.
Qed.

(** X12.  With [-n] among accepted options, no [--version], and an
    index name, the run writes the names of the index at the adjusted
    basename to the standard output, one per line and in order, after
    the verbose text if [-v] is given, and returns 0; [-s], [-e] and
    [-a] do not change this. *)
Theorem names_mode_lists_the_names (dbg : assertions)
    (adjustEbwtBase : text -> text -> Z -> text) (index_at : text -> Index)
    (version_banner verbose_banner : text -> text)
    (argv : list text) (rs : list GetoptReturn) (optind : Z) (s : Streams) :
  forallb accepted rs = true ->
  has_option ARG_VERSION rs = false ->
  has_option (code "n") rs = true ->
  optind < Z.of_nat (length argv) ->
  let ebwtFile := nth (Z.to_nat optind) argv [] in
  let talkative := has_option (code "v") rs in
  let idx := index_at (adjustEbwtBase (nth 0 argv []) ebwtFile
                         (if talkative then 1 else 0)) in
  main (driver dbg adjustEbwtBase index_at (nth 0 argv []))
       version_banner verbose_banner argv rs optind s =
  ({| cout := cout s ++ (if talkative then verbose_banner ebwtFile else [])
                     ++ unlines (p_refnames (idx_header idx));
      cerr := cerr s |}, Normal 0).
Proof.
  intros Hacc Hver Hn Hind ebwtFile talkative idx. unfold main.
  rewrite main_runs_driver by assumption.
  unfold bind at 1. unfold driver.
  cbn [parsed_config names_only verbose default_config]. rewrite Hn.
  cbn [Z.eqb negb]. unfold on_cout. cbn [cout cerr].
  rewrite print_index_sequence_names_eq. unfold ret.
  now rewrite <- app_assoc.
Qed.

(** X12 on [bowtie-inspect -s -n idx]. *)
Lemma names_mode_lists_the_names_witness :
  let h := {| flags := -65; flagsr := -65; color := false; entireReverse := true;
              offRate := 5; ftabChars := 10; nPat := 2; plen := [10; 5];
              p_refnames := [str "chr1"; str "chr2"] |} in
  let idx := {| idx_header := h; idx_refnames := p_refnames h;
                idx_plen := plen h; idx_cat_ref := [];
                idx_joinedToTextOff := fun _ => {| tidx := 0; textoff := 0; tlen := 0 |};
                idx_numRefs := fun _ => 2;
                idx_getStretch := fun _ _ _ _ _ => 0 |} in
  let banner := fun _ : text => @nil ascii in
  let s := {| cout := []; cerr := [] |} in
  main (driver true (fun _ b _ => b) (fun _ => idx) (str "bowtie-inspect"))
       banner banner [str "bowtie-inspect"; str "-s"; str "-n"; str "idx"]
       [{| next_option := code "s"; optarg := []; diagnostic := [] |};
        {| next_option := code "n"; optarg := []; diagnostic := [] |}] 3 s =
  ({| cout := str "chr1" ++ [nl] ++ str "chr2" ++ [nl]; cerr := [] |}, Normal 0).
Proof.
  intros h idx banner s.
  apply (names_mode_lists_the_names true (fun _ b _ => b) (fun _ => idx)
           banner banner [str "bowtie-inspect"; str "-s"; str "-n"; str "idx"]).
  - reflexivity.
  - reflexivity.
  - reflexivity.
  - cbn. lia.
Defined.

Lemma last_width_int (rs : list GetoptReturn) : forall a0,
  INT_MIN <= a0 <= INT_MAX -> INT_MIN <= last_width rs a0 <= INT_MAX.
Proof.
  unfold last_width.
  induction rs as [|r rs IH]; intros a0 Ha; [exact Ha|].
  cbn [fold_left]. apply IH.
  destruct (next_option r =? code "a"); [|exact Ha].
  unfold to_int32, INT_MIN, INT_MAX.
  pose proof (Z.mod_pos_bound (fst (strtol (optarg r)) + 2 ^ 31) (2 ^ 32)
                ltac:(lia)).
  lia.
Qed.

Lemma replay_fasta_file w (records : list FastaRecord) (out : text) :
  0 < w -> w <= INT_MAX ->
  Forall (fun r => len (snd r) <= string_max_size) records ->
  replay (print_fasta_record w) records out
  = (out ++ fasta_file w records, Normal tt).
Proof.
  intros Hw Hmax Hall. unfold replay, fasta_file.
  apply for_each_puts. intros r s Hin.
  rewrite Forall_forall in Hall.
  rewrite print_fasta_record_wrapped by (try assumption; now apply Hall).
  reflexivity.
Qed.

Lemma print_ref_sequences_text (dbg : assertions)
    (getStretch : Z -> Z -> Z -> Z -> Z) (contents : Z -> Z -> Z)
    (w numRefs : Z) (color : bool) (refnames : list text) (plen : list Z)
    (fout : text) :
  0 < w -> w <= 2147483 ->
  numRefs = Z.of_nat (length refnames) ->
  length plen = length refnames ->
  Forall (fun n => 0 <= n /\ n + 1 < 2 ^ 32) plen ->
  (forall i, decodes getStretch i (contents i)) ->
  print_ref_sequences dbg getStretch w numRefs color refnames plen fout =
  (fout ++ fasta_file w
             (map (decoded_record refnames plen color contents) (upto numRefs)),
   Normal tt).
Proof.
  intros Hw Hmax Hn Hlen Hrange Hdec.
  unfold print_ref_sequences. unfold bind at 1. unfold assert_that.
  destruct (Z.eqb_spec numRefs (Z.of_nat (length refnames))) as [_|]; [|contradiction].
  assert (A : (if dbg then ret tt else ret tt) fout = (fout, Normal tt))
    by now destruct dbg.
  rewrite A. unfold fasta_file. rewrite map_map.
  apply for_each_puts. intros i s Hi. apply in_upto in Hi.
  assert (Hname : nth_error refnames (Z.to_nat i) = Some (nth (Z.to_nat i) refnames []))
    by (apply nth_error_nth'; lia).
  assert (Hp : nth_error plen (Z.to_nat i) = Some (nth (Z.to_nat i) plen 0))
    by (apply nth_error_nth'; lia).
  assert (Hr : 0 <= nth (Z.to_nat i) plen 0 /\ nth (Z.to_nat i) plen 0 + 1 < 2 ^ 32).
  { rewrite Forall_forall in Hrange. apply Hrange, nth_In. lia. }
  unfold bind, elist_get, plen_get. rewrite Hname, Hp. unfold ret.
  rewrite (u32_small (nth (Z.to_nat i) plen 0)) by lia.
  rewrite u32_small by (destruct color; lia).
  unfold fasta_text, decoded_record. cbn [fst snd].
  set (n := nth (Z.to_nat i) plen 0 + (if color then 1 else 0)).
  assert (Hnn : 0 <= n < 2 ^ 32) by (unfold n; destruct color; lia).
  rewrite (print_ref_sequence_wrapped dbg getStretch w _ i (contents i));
    try assumption; try lia; [|apply Hdec].
  rewrite wrapped_body_of_reference by lia. reflexivity.
Qed.

Lemma flushed_records_normal (dbg : assertions) (refnames : list text)
    (cat_ref : text) (jto : Z -> JoinedPosition) :
  Z.of_nat (length refnames) <= NONE32 ->
  references_named refnames cat_ref jto ->
  snd (flushed_records dbg refnames cat_ref jto) = Normal tt.
Proof.
  intros Hsz Hnamed.
  set (Inv := fun (_ : Z) (_ : list FastaRecord) (st : TraversalState) =>
         curr_ref st = NONE32 \/ 0 <= curr_ref st < Z.of_nat (length refnames)).
  assert (Hstep : forall k st log,
            0 <= k < len cat_ref -> Inv k log st ->
            exists log' st',
              visit log_record dbg refnames cat_ref jto st k log
                = (log', Normal st')
              /\ Inv (k + 1) log' st').
  { intros k st log Hk HI. rewrite visit_log_eq. cbv zeta.
    destruct (mapped (jto (u32 k))) eqn:Hm.
    2: { exists log, st. now split. }
    assert (Hnew : 0 <= u32 (tidx (jto (u32 k))) < Z.of_nat (length refnames)).
    { split; [apply Z.mod_pos_bound; lia|now apply Hnamed]. }
    destruct (curr_ref st =? u32 (tidx (jto (u32 k)))).
    { eexists log, _. split; [reflexivity|exact HI]. }
    destruct (Z.eqb_spec (curr_ref st) NONE32) as [E|N].
    { eexists log, _. split; [reflexivity|]. right. exact Hnew. }
    destruct HI as [HI|HI]; [contradiction|].
    destruct (nth_error refnames (Z.to_nat (curr_ref st))) as [name|] eqn:Hn.
    2: { apply nth_error_None in Hn. lia. }
    eexists _, _. split; [reflexivity|]. right. exact Hnew. }
  unfold flushed_records, traverse, bind.
  assert (Hb : Z.of_nat (0 + Z.to_nat (len cat_ref)) <= len cat_ref)
    by (unfold len; lia).
  assert (H0 : Inv (Z.of_nat 0) [] traversal_init) by now left.
  destruct (visit_all_progress dbg refnames cat_ref jto Inv Hstep
              (Z.to_nat (len cat_ref)) 0%nat traversal_init [] Hb H0)
    as (log & st & Hv & HI).
  unfold upto. rewrite Hv.
  destruct (Z.ltb_spec (curr_ref st) (Z.of_nat (length refnames))) as [Hlt|Hge].
  - rewrite flush_log_eq.
    assert (Hcur : 0 <= curr_ref st).
    { destruct HI as [H|H]; [rewrite H; unfold NONE32|]; lia. }
    destruct (nth_error refnames (Z.to_nat (curr_ref st))) as [name|] eqn:Hn.
    2: { apply nth_error_None in Hn. lia. }
    reflexivity.
  - reflexivity.
Qed.

Lemma print_index_summary_fixed_rows (dbg : assertions) (h : IndexHeader)
    (out : text) :
  flags h <> INT_MIN -> flagsr h <> INT_MIN -> 0 <= offRate h <= 30 ->
  print_index_summary dbg h out =
  (assert_that dbg (nPat h =? Z.of_nat (length (p_refnames h))) ;;
   for_each (fun i =>
               put (str "Sequence-") ;; put (dec (i + 1)) ;;
               put [tab] ;;
               name <- elist_get dbg (p_refnames h) i ;;
               put name ;;
               put [tab] ;;
               n <- plen_get (plen h) i ;;
               put (dec (u32 (n + (if color h then 1 else 0)))) ;;
               put [nl])
            (upto (Z.of_nat (length (p_refnames h)))))
    (out ++ unlines (map join_tab (firstn 6 (summary_rows h)))).
Proof.
  intros Hf Hfr Hoff.
  unfold print_index_summary, neg_int32, shl1_int.
  destruct (Z.eqb_spec (flags h) INT_MIN) as [|_]; [contradiction|].
  destruct (Z.eqb_spec (flagsr h) INT_MIN) as [|_]; [contradiction|].
  destruct (Z.leb_spec 0 (offRate h)) as [_|]; [|lia].
  destruct (Z.leb_spec (offRate h) 30) as [_|]; [|lia].
  cbn [andb].
  repeat (first [rewrite bind_ret | rewrite bind_put]; cbv beta).
  f_equal. unfold summary_rows, unlines.
  cbn [app firstn map concat join_tab].
  rewrite Z.shiftl_1_l.
  repeat (rewrite <- ?app_assoc; cbn [app]). rewrite ?app_nil_r.
  reflexivity.
Qed.

(** X14.  In the default mode at a width from 1 to 2147483, on a
    packed store that holds the references the index names, the run
    writes to the standard output the FASTA records of the decoded
    references, in ordinal order, each under its name and wrapped at
    the width, and returns 0.  The length of each is [plen[i]], one
    more when the index at the basename as given (not as adjusted) is
    colorspace. *)
Theorem default_mode_prints_the_packed_store (dbg : assertions)
    (adjustEbwtBase : text -> text -> Z -> text) (index_at : text -> Index)
    (version_banner verbose_banner : text -> text)
    (contents : Z -> Z -> Z)
    (argv : list text) (rs : list GetoptReturn) (optind : Z) (s : Streams) :
  forallb accepted rs = true ->
  has_option ARG_VERSION rs = false ->
  has_option (code "n") rs = false ->
  has_option (code "s") rs = false ->
  has_option (code "e") rs = false ->
  optind < Z.of_nat (length argv) ->
  let ebwtFile := nth (Z.to_nat optind) argv [] in
  let talkative := has_option (code "v") rs in
  let idx := index_at (adjustEbwtBase (nth 0 argv []) ebwtFile
                         (if talkative then 1 else 0)) in
  let colorspace := color (idx_header (index_at ebwtFile)) in
  let names := p_refnames (idx_header idx) in
  let w := last_width rs 60 in
  0 < w -> w <= 2147483 ->
  idx_numRefs idx colorspace = Z.of_nat (length names) ->
  length (idx_plen idx) = length names ->
  Forall (fun n => 0 <= n /\ n + 1 < 2 ^ 32) (idx_plen idx) ->
  (forall i, decodes (idx_getStretch idx colorspace) i (contents i)) ->
  main (driver dbg adjustEbwtBase index_at (nth 0 argv []))
       version_banner verbose_banner argv rs optind s =
  ({| cout := cout s ++ (if talkative then verbose_banner ebwtFile else [])
                     ++ fasta_file w
                          (map (decoded_record names (idx_plen idx) colorspace contents)
                               (upto (Z.of_nat (length names))));
      cerr := cerr s |}, Normal 0).
Proof.
  intros Hacc Hver Hn Hs He Hind ebwtFile talkative idx colorspace names w
         Hw Hmax Hnum Hlen Hrange Hdec.
  unfold main. rewrite main_runs_driver by assumption.
  unfold bind at 1. unfold driver.
  cbn [parsed_config names_only summarize_only refFromEbwt verbose across
       default_config].
  rewrite Hn, Hs, He. cbn [Z.eqb negb orb].
  unfold on_cout at 1. cbn [cout cerr].
  fold ebwtFile talkative. fold idx. fold colorspace. fold names. fold w.
  rewrite (print_ref_sequences_text dbg _ contents) by assumption.
  unfold ret. rewrite Hnum. now rewrite <- app_assoc.
Qed.

(** X14 on [bowtie-inspect -a 4 idx] with a store of [chr1], ten
    bases, and [chr2], five. *)
Lemma default_mode_prints_the_packed_store_witness :
  let h := {| flags := -65; flagsr := -65; color := false; entireReverse := true;
              offRate := 5; ftabChars := 10; nPat := 2; plen := [10; 5];
              p_refnames := [str "chr1"; str "chr2"] |} in
  let contents := fun refi p : Z => (refi + p) mod 4 in
  let idx := {| idx_header := h; idx_refnames := p_refnames h;
                idx_plen := plen h; idx_cat_ref := [];
                idx_joinedToTextOff := fun _ => {| tidx := 0; textoff := 0; tlen := 0 |};
                idx_numRefs := fun _ => 2;
                idx_getStretch := fun _ refi i _ j => contents refi (i + j) |} in
  let banner := fun _ : text => @nil ascii in
  let s := {| cout := []; cerr := [] |} in
  main (driver true (fun _ b _ => b) (fun _ => idx) (str "bowtie-inspect"))
       banner banner [str "bowtie-inspect"; str "-a"; str "4"; str "idx"]
       [{| next_option := code "a"; optarg := str "4"; diagnostic := [] |}] 3 s =
  ({| cout := str ">chr1" ++ [nl] ++ str "ACGT" ++ [nl] ++ str "ACGT" ++ [nl]
              ++ str "AC" ++ [nl]
              ++ str ">chr2" ++ [nl] ++ str "CGTA" ++ [nl] ++ str "C" ++ [nl];
      cerr := [] |}, Normal 0).
Proof.
  intros h contents idx banner s.
  apply (default_mode_prints_the_packed_store true (fun _ b _ => b) (fun _ => idx)
           banner banner contents
           [str "bowtie-inspect"; str "-a"; str "4"; str "idx"]
           [{| next_option := code "a"; optarg := str "4"; diagnostic := [] |}] 3 s).
  - reflexivity.
  - reflexivity.
  - reflexivity.
  - reflexivity.
  - reflexivity.
  - cbn. lia.
  - reflexivity.
  - vm_compute. discriminate.
  - reflexivity.
  - reflexivity.
  - repeat constructor; lia.
  - intros i.
    assert (Hc : forall p, 0 <= contents i p <= 4).
    { intros p. unfold contents.
      pose proof (Z.mod_pos_bound (i + p) 4 ltac:(lia)). lia. }
    split; [|exact Hc].
    intros i0 amt j _. cbn [idx_getStretch idx]. apply Z.mod_small.
    specialize (Hc (i0 + j)). lia.
Defined.

(** X15.  With [-e], without [-n] and [-s], at a positive width, on
    an index every mapped position of which is mapped to a reference
    that has a name, the run writes to the standard output the FASTA
    records of the flushed references, in the order they are flushed,
    each wrapped at the width, and returns 0. *)
Theorem index_mode_prints_the_flushed_records (dbg : assertions)
    (adjustEbwtBase : text -> text -> Z -> text) (index_at : text -> Index)
    (version_banner verbose_banner : text -> text)
    (argv : list text) (rs : list GetoptReturn) (optind : Z) (s : Streams) :
  forallb accepted rs = true ->
  has_option ARG_VERSION rs = false ->
  has_option (code "n") rs = false ->
  has_option (code "s") rs = false ->
  has_option (code "e") rs = true ->
  optind < Z.of_nat (length argv) ->
  let ebwtFile := nth (Z.to_nat optind) argv [] in
  let talkative := has_option (code "v") rs in
  let idx := index_at (adjustEbwtBase (nth 0 argv []) ebwtFile
                         (if talkative then 1 else 0)) in
  let w := last_width rs 60 in
  let flushed := flushed_records dbg (idx_refnames idx) (idx_cat_ref idx)
                   (idx_joinedToTextOff idx) in
  0 < w ->
  Z.of_nat (length (idx_refnames idx)) <= NONE32 ->
  references_named (idx_refnames idx) (idx_cat_ref idx) (idx_joinedToTextOff idx) ->
  Forall (fun r => len (snd r) <= string_max_size) (fst flushed) ->
  main (driver dbg adjustEbwtBase index_at (nth 0 argv []))
       version_banner verbose_banner argv rs optind s =
  ({| cout := cout s ++ (if talkative then verbose_banner ebwtFile else [])
                     ++ fasta_file w (fst flushed);
      cerr := cerr s |}, Normal 0).
Proof.
  intros Hacc Hver Hn Hs He Hind ebwtFile talkative idx w flushed
         Hw Hsz Hnamed Hlen.
  assert (Hmax : w <= INT_MAX).
  { apply (last_width_int rs 60). unfold INT_MIN, INT_MAX. lia. }
  unfold main. rewrite main_runs_driver by assumption.
  unfold bind at 1. unfold driver.
  cbn [parsed_config names_only summarize_only refFromEbwt verbose across
       default_config].
  rewrite Hn, Hs, He. cbn [Z.eqb negb orb].
  unfold on_cout at 1. cbn [cout cerr].
  fold ebwtFile talkative. fold idx. fold w.
  unfold print_index_sequences. rewrite traverse_replay. fold flushed.
  rewrite replay_fasta_file by assumption.
  unfold flushed. rewrite flushed_records_normal by assumption.
  cbn [resume]. unfold ret. now rewrite <- app_assoc.
Qed.

(** X15 on [bowtie-inspect -e -a 2 idx] with an index of the joined
    text [ACGT], the bases at the offsets 1 to 4 of a reference of
    declared length 6. *)
Lemma index_mode_prints_the_flushed_records_witness :
  let h := {| flags := -65; flagsr := -65; color := false; entireReverse := true;
              offRate := 5; ftabChars := 10; nPat := 1; plen := [6];
              p_refnames := [str "chr1"] |} in
  let idx := {| idx_header := h; idx_refnames := p_refnames h;
                idx_plen := plen h; idx_cat_ref := str "ACGT";
                idx_joinedToTextOff :=
                  fun i => {| tidx := 0; textoff := i + 1; tlen := 6 |};
                idx_numRefs := fun _ => 1;
                idx_getStretch := fun _ _ _ _ _ => 0 |} in
  let banner := fun _ : text => @nil ascii in
  let s := {| cout := []; cerr := [] |} in
  main (driver true (fun _ b _ => b) (fun _ => idx) (str "bowtie-inspect"))
       banner banner
       [str "bowtie-inspect"; str "-e"; str "-a"; str "2"; str "idx"]
       [{| next_option := code "e"; optarg := []; diagnostic := [] |};
        {| next_option := code "a"; optarg := str "2"; diagnostic := [] |}] 4 s =
  ({| cout := str ">chr1" ++ [nl] ++ str "NA" ++ [nl] ++ str "CG" ++ [nl]
              ++ str "TN" ++ [nl];
      cerr := [] |}, Normal 0).
Proof.
  intros h idx banner s.
  apply (index_mode_prints_the_flushed_records true (fun _ b _ => b) (fun _ => idx)
           banner banner
           [str "bowtie-inspect"; str "-e"; str "-a"; str "2"; str "idx"]
           [{| next_option := code "e"; optarg := []; diagnostic := [] |};
            {| next_option := code "a"; optarg := str "2"; diagnostic := [] |}] 4 s).
  - reflexivity.
  - reflexivity.
  - reflexivity.
  - reflexivity.
  - reflexivity.
  - cbn. lia.
  - reflexivity.
  - vm_compute. discriminate.
  - intros i _ _. vm_compute. reflexivity.
  - assert (E : fst (flushed_records true (idx_refnames idx) (idx_cat_ref idx)
                       (idx_joinedToTextOff idx))
                = [(str "chr1", str "NACGTN")]) by (vm_compute; reflexivity).
    rewrite E. constructor; [|constructor].
    cbn. unfold string_max_size. lia.
Defined.

(** X16.  With [-s] and without [-n], on an index header within
    range, the run writes the summary table to the standard output and
    returns 0; [-e] and [-a] do not change this. *)
Theorem summary_mode_prints_the_table (dbg : assertions)
    (adjustEbwtBase : text -> text -> Z -> text) (index_at : text -> Index)
    (version_banner verbose_banner : text -> text)
    (argv : list text) (rs : list GetoptReturn) (optind : Z) (s : Streams) :
  forallb accepted rs = true ->
  has_option ARG_VERSION rs = false ->
  has_option (code "n") rs = false ->
  has_option (code "s") rs = true ->
  optind < Z.of_nat (length argv) ->
  let ebwtFile := nth (Z.to_nat optind) argv [] in
  let talkative := has_option (code "v") rs in
  let idx := index_at (adjustEbwtBase (nth 0 argv []) ebwtFile
                         (if talkative then 1 else 0)) in
  header_ok (idx_header idx) ->
  main (driver dbg adjustEbwtBase index_at (nth 0 argv []))
       version_banner verbose_banner argv rs optind s =
  ({| cout := cout s ++ (if talkative then verbose_banner ebwtFile else [])
                     ++ unlines (map join_tab (summary_rows (idx_header idx)));
      cerr := cerr s |}, Normal 0).
Proof.
  intros Hacc Hver Hn Hs Hind ebwtFile talkative idx
         (Hf & Hfr & Hoff & Hnp & Hlen & Hrange).
  unfold main. rewrite main_runs_driver by assumption.
  unfold bind at 1. unfold driver.
  cbn [parsed_config names_only summarize_only refFromEbwt verbose across
       default_config].
  rewrite Hn, Hs. cbn [Z.eqb negb orb].
  unfold on_cout at 1. cbn [cout cerr].
  fold ebwtFile talkative. fold idx.
  rewrite print_index_summary_fixed_rows by assumption.
  unfold bind at 1. unfold assert_that.
  destruct (Z.eqb_spec (nPat (idx_header idx))
              (Z.of_nat (length (p_refnames (idx_header idx))))) as [_|];
    [|contradiction].
  assert (A : forall o : text,
            (if dbg then ret tt else ret tt) o = (o, Normal tt)).
  { intros o. now destruct dbg. }
  rewrite A.
  rewrite sequence_rows_run; try assumption.
  2: { intros j Hj. now apply in_upto in Hj. }
  assert (U : unlines (map join_tab (summary_rows (idx_header idx)))
              = unlines (map join_tab (firstn 6 (summary_rows (idx_header idx))))
                ++ unlines (map join_tab
                     (map (sequence_row (idx_header idx))
                        (upto (Z.of_nat (length (p_refnames (idx_header idx))))))))
    by (unfold unlines, summary_rows; now rewrite <- concat_app, <- !map_app).
  rewrite U. unfold ret. now rewrite <- !app_assoc.
Qed.

(** X16 on [bowtie-inspect -e -s idx] with a colorspace index of two
    references. *)
Lemma summary_mode_prints_the_table_witness :
  let h := {| flags := -65; flagsr := -65; color := true; entireReverse := true;
              offRate := 5; ftabChars := 10; nPat := 2; plen := [10; 5];
              p_refnames := [str "chr1"; str "chr2"] |} in
  let idx := {| idx_header := h; idx_refnames := p_refnames h;
                idx_plen := plen h; idx_cat_ref := [];
                idx_joinedToTextOff := fun _ => {| tidx := 0; textoff := 0; tlen := 0 |};
                idx_numRefs := fun _ => 2;
                idx_getStretch := fun _ _ _ _ _ => 0 |} in
  let banner := fun _ : text => @nil ascii in
  let s := {| cout := []; cerr := [] |} in
  main (driver true (fun _ b _ => b) (fun _ => idx) (str "bowtie-inspect"))
       banner banner [str "bowtie-inspect"; str "-e"; str "-s"; str "idx"]
       [{| next_option := code "e"; optarg := []; diagnostic := [] |};
        {| next_option := code "s"; optarg := []; diagnostic := [] |}] 3 s =
  ({| cout := str "Flags" ++ [tab] ++ str "65" ++ [nl] ++
              str "Reverse flags" ++ [tab] ++ str "65" ++ [nl] ++
              str "Colorspace" ++ [tab] ++ str "1" ++ [nl] ++
              str "2.0-compatible" ++ [tab] ++ str "1" ++ [nl] ++
              str "SA-Sample" ++ [tab] ++ str "1 in 32" ++ [nl] ++
              str "FTab-Chars" ++ [tab] ++ str "10" ++ [nl] ++
              str "Sequence-1" ++ [tab] ++ str "chr1" ++ [tab] ++ str "11" ++ [nl] ++
              str "Sequence-2" ++ [tab] ++ str "chr2" ++ [tab] ++ str "6" ++ [nl];
      cerr := [] |}, Normal 0).
Proof.
  intros h idx banner s.
  apply (summary_mode_prints_the_table true (fun _ b _ => b) (fun _ => idx)
           banner banner [str "bowtie-inspect"; str "-e"; str "-s"; str "idx"]
           [{| next_option := code "e"; optarg := []; diagnostic := [] |};
            {| next_option := code "s"; optarg := []; diagnostic := [] |}] 3 s).
  - reflexivity.
  - reflexivity.
  - reflexivity.
  - reflexivity.
  - cbn. lia.
  - unfold header_ok, INT_MIN. cbn.
    repeat split; try lia; try discriminate.
    repeat constructor; lia.
Defined.

(** ** The packed store at a width that asks for no wrapping *)

(** The windows printed without wrapping, from base [a] on: what is
    left of the reference with a newline after every window and so
    before every [incr]-th symbol. *)
Lemma print_windows_unwrapped dbg gs myacross incr refi content (Ln : nat) :
  1 <= incr -> decodes gs refi content ->
  Z.of_nat Ln + incr < 2 ^ 64 ->
  forall (fuel a : nat) (fout : text),
    Z.of_nat Ln - Z.of_nat a <= (Z.of_nat fuel - 1) * incr -> (1 <= fuel)%nat ->
    print_windows dbg gs fuel false myacross incr refi (Z.of_nat Ln) (Z.of_nat a) fout =
    (fout ++ (if (a <? Ln)%nat
              then wrap_from incr 0 (decoded_range content a (Ln - a)) ++ [nl]
              else []), Normal tt).
Proof.
  intros Hincr Hdec Hwrap.
  induction fuel as [|fuel IH]; intros a fout Hfuel Hone; [lia|].
  rewrite print_windows_eq.
  destruct (Nat.ltb_spec a Ln) as [Hlt|Hge].
  2: { destruct (Z.ltb_spec (Z.of_nat a) (Z.of_nat Ln)); [lia|].
       unfold ret. now rewrite app_nil_r. }
  destruct (Z.ltb_spec (Z.of_nat a) (Z.of_nat Ln)) as [_|]; [|lia].
  cbv zeta.
  set (amt := Nat.min (Z.to_nat incr) (Ln - a)).
  replace (Z.min incr (Z.of_nat Ln - Z.of_nat a)) with (Z.of_nat amt)
    by (unfold amt; lia).
  unfold bind at 1. unfold assert_that.
  assert (A : forall s : text,
            (if dbg then (if Z.of_nat amt <=? incr then ret tt
                          else raise AssertException) else ret tt) s
            = (s, Normal tt)).
  { intros s. destruct dbg; [|reflexivity].
    destruct (Z.leb_spec (Z.of_nat amt) incr); [reflexivity|unfold amt in *; lia]. }
  rewrite A. unfold bind at 1.
  unfold upto. rewrite Nat2Z.id.
  rewrite print_bases_unwrapped.
  2: { intros j Hj. destruct Hdec as [Hd Hc].
       apply in_map_iff in Hj as (n & <- & Hn). apply in_seq in Hn.
       rewrite Hd by lia. apply Hc. }
  rewrite (window_symbols gs refi content a amt Hdec).
  unfold bind at 1. unfold put at 1.
  rewrite usize_small by lia.
  replace (Z.of_nat a + incr) with (Z.of_nat (a + Z.to_nat incr)) by lia.
  rewrite IH by lia.
  f_equal.
  assert (Hwin : wrap_from incr 0 (decoded_range content a amt)
                 = decoded_range content a amt).
  { apply wrap_from_first_line; [lia|].
    unfold len. rewrite decoded_range_length. unfold amt. lia. }
  destruct (Nat.ltb_spec (a + Z.to_nat incr) Ln) as [Hmore|Hlast].
  - assert (Ea : amt = Z.to_nat incr) by (unfold amt; lia).
    replace (Ln - a)%nat with (amt + (Ln - (a + Z.to_nat incr)))%nat by lia.
    rewrite decoded_range_app, wrap_from_app, Z.add_0_l, Hwin.
    replace (len (decoded_range content a amt)) with (1 * incr)
      by (unfold len; rewrite decoded_range_length; lia).
    rewrite wrap_from_multiple; try lia.
    + rewrite Ea. rewrite <- !app_assoc. reflexivity.
    + intros E. apply (f_equal (@length ascii)) in E.
      rewrite decoded_range_length in E. cbn in E. lia.
  - assert (Ea : amt = (Ln - a)%nat) by (unfold amt; lia).
    rewrite <- Ea, Hwin, app_nil_r. now rewrite <- app_assoc.
Qed.

(** X18.  At a width of 0 or less the packed-store path does not print
    a reference on one line: it prints it exactly as the formatter
    would at width 60000, a line break after every 60000 bases, for a
    store that [getStretch] decodes consistently into base codes. *)
Theorem packed_path_without_width_wraps_at_60000 (dbg : assertions)
    (getStretch : Z -> Z -> Z -> Z -> Z) (content : Z -> Z)
    (w : Z) (name : text) (refi ref_len : Z) (fout : text) :
  w <= 0 -> 0 <= ref_len <= string_max_size ->
  decodes getStretch refi content ->
  print_ref_sequence dbg getStretch w name refi ref_len fout =
  print_fasta_record 60000 name (decoded_reference content ref_len) fout.
Proof.
  intros Hw Hlen Hdec.
  assert (Hl : len (decoded_reference content ref_len) = ref_len).
  { unfold len, decoded_reference. rewrite decoded_range_length. lia. }
  rewrite print_fasta_record_wrapped;
    try (unfold INT_MAX; lia); try (rewrite Hl; lia).
  rewrite <- wrapped_body_of_reference by lia.
  unfold print_ref_sequence.
  destruct (Z.ltb_spec 0 w) as [|_]; [lia|].
  change (INT_MAX <? 60 * 1000) with false. cbv iota.
  change (60 * 1000) with 60000.
  unfold bind at 1 2 3. unfold put at 1 2 3.
  unfold string_max_size in Hlen.
  pose proof (print_windows_unwrapped dbg getStretch 60 60000 refi content
                (Z.to_nat ref_len) ltac:(lia) Hdec) as R.
  rewrite Z2Nat.id in R by lia.
  specialize (R ltac:(lia) (S (S (Z.to_nat (ref_len / 60000)))) 0%nat
                (((fout ++ str ">") ++ name) ++ [nl])).
  change (Z.of_nat 0) with 0 in R.
  rewrite R.
  - f_equal. rewrite <- !app_assoc. do 3 f_equal.
    unfold decoded_reference. rewrite Nat.sub_0_r.
    destruct (Nat.ltb_spec 0 (Z.to_nat ref_len));
      destruct (Z.ltb_spec 0 ref_len); try lia; reflexivity.
  - pose proof (Z.div_mod ref_len 60000 ltac:(lia)) as D.
    pose proof (Z.mod_pos_bound ref_len 60000 ltac:(lia)) as B.
    assert (0 <= ref_len / 60000) by (apply Z.div_pos; lia).
    nia.
  - lia.
Qed.

Lemma decoded_range_constant (b : Z) (m : nat) : forall a,
  decoded_range (fun _ => b) a m = repeat (nth (Z.to_nat b) ACGTN zero) m.
Proof.
  unfold decoded_range.
  induction m as [|m IH]; intros a; [reflexivity|].
  cbn [List.seq map repeat]. f_equal. apply IH.
Qed.

(** X18 on a reference of 60001 bases, all [A], at width 0: the last
    base is on a line of its own. *)
Lemma packed_path_without_width_wraps_at_60000_witness :
  let content := fun _ : Z => 0 in
  let gs := fun _ _ _ _ : Z => 0 in
  print_ref_sequence true gs 0 (str "chr1") 0 60001 [] =
  (str ">chr1" ++ [nl] ++ fill 60000 "A" ++ [nl] ++ str "A" ++ [nl], Normal tt).
Proof.
  intros content gs.
  refine (eq_trans
            (packed_path_without_width_wraps_at_60000 true gs content 0
               (str "chr1") 0 60001 [] ltac:(lia)
               ltac:(unfold string_max_size; lia) _) _).
  - split.
    + intros i amt j _. reflexivity.
    + intros p. unfold content. lia.
  - assert (Hs : decoded_reference content 60001
                 = fill 60000 "A" ++ str "A").
    { unfold decoded_reference, content, fill.
      replace (Z.to_nat 60001) with (Z.to_nat 60000 + 1)%nat by lia.
      rewrite decoded_range_app, !decoded_range_constant. reflexivity. }
    rewrite print_fasta_record_wrapped.
    + rewrite (wrap_from_lines 60000 ltac:(lia)
                 (length (decoded_reference content 60001))); [|lia|].
      * rewrite Hs, wrap_from_app, Z.add_0_l.
        rewrite wrap_from_first_line by (rewrite ?len_fill; lia).
        rewrite len_fill by lia.
        change (wrap_from 60000 60000 (str "A")) with (nl :: str "A").
        cbn [app]. now rewrite <- !app_assoc.
      * rewrite Hs. intros E. apply (f_equal (@length ascii)) in E.
        rewrite length_app in E. cbn [length str] in E.
        change (length (str "A")) with 1%nat in E. lia.
    + lia.
    + unfold INT_MAX. lia.
    + rewrite Hs. unfold len. rewrite length_app. unfold fill.
      rewrite repeat_length. change (length (str "A")) with 1%nat.
      unfold string_max_size. lia.
Defined.

(** ** The width and its minimum, through [main] *)

Lemma last_width_app (pre rest : list GetoptReturn) (r : GetoptReturn) (a0 : Z) :
  has_option (code "a") rest = false ->
  last_width (pre ++ r :: rest) a0 = last_width [r] (last_width pre a0).
Proof.
  intros Hno. unfold last_width. rewrite fold_left_app. cbn [fold_left].
  generalize (if next_option r =? code "a"
              then to_int32 (fst (strtol (optarg r)))
              else fold_left
                     (fun a r0 => if next_option r0 =? code "a"
                                  then to_int32 (fst (strtol (optarg r0))) else a)
                     pre a0).
  unfold has_option in Hno.
  induction rest as [|x rest IH]; intros z; [reflexivity|].
  cbn [existsb fold_left] in *. apply orb_false_elim in Hno as [Hx Hrest].
  rewrite Hx. now apply IH.
Qed.

(** C7.  The minimum [parseOptions] enforces on the width is the -1 it
    passes to [parseInt], although the message it passes says 1.  When
    the value [strtol] reads from the argument of [-a], after accepted
    options, is below -1, the message and the usage text (both spelled
    out here) are written to the error stream, 1 is thrown, and [main]
    adds the command line and returns the non-zero status 1; the
    standard output is untouched and the options after it are not
    looked at.  When the value is at least -1, 0 and -1 included,
    nothing is written, parsing goes on with the remaining options, and
    when these are accepted too and an index is named the [try] block
    of [main] goes on to call the driver, under the width converted to
    32 bits unless a later [-a] replaces it.  [parseInt] itself does
    this for any minimum and message it is given. *)
Theorem width_below_minimum_rejected
    (driver : Config -> text -> M Streams unit)
    (version_banner verbose_banner : text -> text)
    (argv : list text) (pre rest : list GetoptReturn) (arg : text)
    (optind : Z) (s : Streams) :
  forallb accepted pre = true ->
  let rs := pre ++ {| next_option := code "a"; optarg := arg; diagnostic := [] |}
                :: rest in
  let l := fst (strtol arg) in
  let usage_text :=
    str "Usage: bowtie-inspect [options]* <ebwt_base>" ++ [nl] ++
    str "  <ebwt_base>        ebwt filename minus trailing .1.ebwt/.2.ebwt" ++ [nl] ++
    [nl] ++
    str "  By default, prints FASTA records of the indexed nucleotide sequences to" ++ [nl] ++
    str "  standard out.  With -n, just prints names.  With -s, just prints a summary of" ++ [nl] ++
    str "  the index parameters and sequences.  With -e, preserves colors if applicable." ++ [nl] ++
    [nl] ++
    str "Options:" ++ [nl] ++
    str "  -a/--across <int>  Number of characters across in FASTA output (default: 60)" ++ [nl] ++
    str "  -n/--names         Print reference sequence names only" ++ [nl] ++
    str "  -s/--summary       Print summary incl. ref names, lengths, index properties" ++ [nl] ++
    str "  -e/--ebwt-ref      Reconstruct reference from ebwt (slow, preserves colors)" ++ [nl] ++
    str "  -v/--verbose       Verbose output (for debugging)" ++ [nl] ++
    str "  -h/--help          print detailed description of tool and its options" ++ [nl] ++
    str "  --help             print this usage message" ++ [nl] in
  let complaint :=
    str "-a/--across arg must be at least 1" ++ [nl] ++ usage_text in
  (forall lower errmsg st,
     (l < lower ->
        parseInt lower errmsg arg st =
        ({| cout := cout st; cerr := cerr st ++ errmsg ++ [nl] ++ usage_text |},
         Throw 1))
     /\ (lower <= l -> parseInt lower errmsg arg st = (st, Normal (to_int32 l))))
  /\ (l < -1 ->
      parseOptions rs default_config s =
        ({| cout := cout s; cerr := cerr s ++ complaint |}, Throw 1)
      /\ main driver version_banner verbose_banner argv rs optind s =
        ({| cout := cout s;
            cerr := (cerr s ++ complaint)
                    ++ str "Command: "
                    ++ concat (map (fun a => a ++ str " ") argv) ++ [nl] |},
         Normal 1))
  /\ (-1 <= l ->
      parseOptions rs default_config s =
        parseOptions rest
          (set_across (parsed_config pre default_config) (to_int32 l)) s
      /\ (forallb accepted rest = true ->
          has_option ARG_VERSION rs = false ->
          optind < Z.of_nat (length argv) ->
          main_body driver version_banner verbose_banner argv rs optind s =
            (driver (parsed_config rs default_config)
                    (nth (Z.to_nat optind) argv []) ;;
             ret 0)
              {| cout := cout s ++ (if has_option (code "v") rs
                                    then verbose_banner (nth (Z.to_nat optind) argv [])
                                    else []);
                 cerr := cerr s |}
          /\ (has_option (code "a") rest = false ->
              across (parsed_config rs default_config) = to_int32 l))).
Proof.
  intros Hpre rs l usage_text complaint.
  assert (E : parseOptions rs default_config s =
              parseOptions ({| next_option := code "a"; optarg := arg;
                               diagnostic := [] |} :: rest)
                (parsed_config pre default_config) s).
  { unfold rs. now apply parseOptions_accepted_app. }
  rewrite parseOptions_across in E. fold l in E.
  split; [|split].
  - intros lower errmsg st. rewrite parseInt_eq. fold l.
    destruct (Z.ltb_spec l lower); split; intros; try lia; reflexivity.
  - intros Hlt. destruct (Z.ltb_spec l (-1)) as [_|]; [|lia].
    split; [exact E|].
    unfold main, main_body. unfold bind at 1. rewrite E.
    reflexivity.
  - intros Hge. destruct (Z.ltb_spec l (-1)) as [|_]; [lia|].
    split; [exact E|].
    intros Hrest Hver Hind.
    assert (Hacc : forallb accepted rs = true).
    { unfold rs. rewrite forallb_app. cbn [forallb]. rewrite Hpre, Hrest.
      unfold accepted at 1. cbn [next_option optarg]. fold l.
      destruct (Z.leb_spec (-1) l); [|lia].
      change (code "a" =? code "a") with true. cbn. now rewrite orb_true_r. }
    split; [now apply main_runs_driver|].
    intros Hno. cbn [parsed_config across]. unfold rs.
    rewrite last_width_app by assumption.
    unfold last_width at 1. cbn [fold_left next_option optarg].
    change (code "a" =? code "a") with true. reflexivity.
Qed.

(** C7 on [bowtie-inspect -a -5 idx], rejected, and on
    [bowtie-inspect -a 0 idx], which runs the driver unwrapped. *)
Lemma width_below_minimum_rejected_witness :
  let driver := fun (cfg : Config) (_ : text) =>
    on_cout (put (str "width " ++ dec (across cfg) ++ [nl])) in
  let banner := fun _ : text => @nil ascii in
  let s := {| cout := []; cerr := [] |} in
  let rs arg := [] ++ {| next_option := code "a"; optarg := arg; diagnostic := [] |}
                   :: [] in
  main driver banner banner [str "bowtie-inspect"; str "-a"; str "-5"; str "idx"]
       (rs (str "-5")) 3 s =
    ({| cout := [];
        cerr := str "-a/--across arg must be at least 1" ++ [nl] ++
    str "Usage: bowtie-inspect [options]* <ebwt_base>" ++ [nl] ++
    str "  <ebwt_base>        ebwt filename minus trailing .1.ebwt/.2.ebwt" ++ [nl] ++
    [nl] ++
    str "  By default, prints FASTA records of the indexed nucleotide sequences to" ++ [nl] ++
    str "  standard out.  With -n, just prints names.  With -s, just prints a summary of" ++ [nl] ++
    str "  the index parameters and sequences.  With -e, preserves colors if applicable." ++ [nl] ++
    [nl] ++
    str "Options:" ++ [nl] ++
    str "  -a/--across <int>  Number of characters across in FASTA output (default: 60)" ++ [nl] ++
    str "  -n/--names         Print reference sequence names only" ++ [nl] ++
    str "  -s/--summary       Print summary incl. ref names, lengths, index properties" ++ [nl] ++
    str "  -e/--ebwt-ref      Reconstruct reference from ebwt (slow, preserves colors)" ++ [nl] ++
    str "  -v/--verbose       Verbose output (for debugging)" ++ [nl] ++
    str "  -h/--help          print detailed description of tool and its options" ++ [nl] ++
    str "  --help             print this usage message" ++ [nl] ++
                str "Command: bowtie-inspect -a -5 idx " ++ [nl] |},
     Normal 1)
  /\ main_body driver banner banner
       [str "bowtie-inspect"; str "-a"; str "0"; str "idx"] (rs (str "0")) 3 s =
     ({| cout := str "width 0" ++ [nl]; cerr := [] |}, Normal 0).
Proof.
  intros driver banner s rs.
  assert (Hpre : forallb accepted [] = true) by reflexivity.
  split.
  - apply (proj2 (proj1 (proj2 (width_below_minimum_rejected driver banner banner
              [str "bowtie-inspect"; str "-a"; str "-5"; str "idx"]
              [] [] (str "-5") 3 s Hpre)) ltac:(vm_compute; reflexivity))).
  - refine (eq_trans
              (proj1 (proj2 (proj2 (proj2 (width_below_minimum_rejected driver banner
                 banner [str "bowtie-inspect"; str "-a"; str "0"; str "idx"]
                 [] [] (str "0") 3 s Hpre)) ltac:(vm_compute; discriminate))
                 ltac:(reflexivity) ltac:(reflexivity) ltac:(cbn; lia))) _).
    reflexivity.
Defined.

(** ** The packed store, byte by byte *)



Section PackedRun.

Variable dbg : assertions.
Variable gs : Z -> Z -> Z -> Z -> Z.

(** The bytes the build lets through to the literal, and how it ends
    on any other. *)
Variable ok : Z -> bool.
Variable fail : outcome unit.

Hypothesis fail_stops : forall u, fail <> Normal u.

Hypothesis step : forall newlines w cb j (fout : text),
  print_base dbg newlines w cb j fout =
  if ok (cb j mod 256)
  then (fout ++ (if newlines && (0 <? j) && (j mod w =? 0) then [nl] else [])
             ++ [nth (Z.to_nat (cb j mod 256)) ACGTN zero], Normal tt)
  else (fout ++ (if newlines && (0 <? j) && (j mod w =? 0) then [nl] else []),
        fail).



Section Windows.

Variables (newlines : bool) (myacross incr L c refi ref_len : Z).

Hypothesis HL : 1 <= L.
Hypothesis Hc : 1 <= c.
Hypothesis Hincr : incr = c * L.
Hypothesis Hwrapped : newlines = true -> myacross = L.
Hypothesis Hunwrapped : newlines = false -> L = incr.
Hypothesis Hsize : ref_len + incr < 2 ^ 64.





End Windows.



End PackedRun.





(** ** A reference count that does not match, in a build without
    assertions *)






